(** * Vector search of the Convex RAG system

    A shallow embedding of [convex/lib/vectors.ts],
    [convex/functions/vectorSearch.ts],
    [convex/functions/vectorSearchV2.ts] and
    [convex/functions/chunking.ts], and the properties of the similarity
    search, of its cursor pagination, of the mutations that write the
    tables and of the chunking of documents.

    JavaScript numbers are IEEE-754 binary64 values: they are Rocq's
    primitive [float]s, whose operations are specified by [FloatAxioms]
    against [SpecFloat]. *)

From Stdlib Require Import ZArith List Bool String Ascii Lia.
From Stdlib Require Import Floats Permutation Sorted.
From Stdlib Require Import DecimalString DecimalPos DecimalZ.
Import ListNotations.

Set Warnings "-inexact-float".

(* ================================================================= *)
(** * The JavaScript fragment the program uses *)

Module JS.

Open Scope float_scope.

(** A JavaScript [number]. *)
Definition number := float.

(** [ToBoolean] on a number: [0], [-0] and [NaN] are falsy. *)
Definition ToBoolean (x : number) : bool := negb (is_zero x || is_nan x).

(** [x || d] where [x] is an optional number ([undefined] is falsy). *)
Definition orDefault (x : option number) (d : number) : number :=
  match x with
  | Some v => if ToBoolean v then v else d
  | None => d
  end.

(** [x >= y] and [x === y] on numbers. *)
Definition geb (x y : number) : bool := y <=? x.
Definition strictEq (x y : number) : bool := x =? y.

(** [ToIntegerOrInfinity]: [NaN] and the zeros go to [0], a finite number
    is truncated towards zero. *)
Inductive integerOrInfinity :=
| NegInfinity
| Integer (z : Z)
| PosInfinity.

Definition ToIntegerOrInfinity (x : number) : integerOrInfinity :=
  match Prim2SF x with
  | S754_nan => Integer 0
  | S754_zero _ => Integer 0
  | S754_infinity s => if s then NegInfinity else PosInfinity
  | S754_finite s m e => Integer (cond_Zopp s (Z.shiftl (Zpos m) e))
  end.

(** [l.slice(0, end)]: a negative [end] counts from the end of the array. *)
Definition slice0 {A} (l : list A) (end_ : number) : list A :=
  match ToIntegerOrInfinity end_ with
  | NegInfinity => []
  | Integer z =>
      let len := Z.of_nat (List.length l) in
      if (z <? 0)%Z then firstn (Z.to_nat (Z.max (len + z) 0)) l
      else firstn (Z.to_nat (Z.min z len)) l
  | PosInfinity => l
  end.

(** [Array.prototype.sort(compareFn)]: a stable sort (ECMAScript 2019);
    [x] is moved behind [y] when [compareFn(x, y) > 0], and a comparator
    result of [NaN] counts as [0].  Insertion from the right keeps equal
    elements in their order. *)
Section Sort.
Context {A : Type} (compareFn : A -> A -> number).

Fixpoint insert (x : A) (l : list A) : list A :=
  match l with
  | [] => [x]
  | y :: l' => if 0 <? compareFn x y then y :: insert x l' else x :: l
  end.

Definition sort (l : list A) : list A := fold_right insert [] l.
End Sort.

(** [l[l.length - 1]]: [undefined] on the empty array. *)
Definition lastElement {A} (l : list A) : option A :=
  nth_error l (List.length l - 1).

(** Template-literal rendering of an integral number, as [Date.now()]
    produces them (below 1e21, where no exponent is printed). *)
Definition numberToString (z : Z) : string :=
  NilZero.string_of_int (Z.to_int z).

(** [s.split(sep)] for a one-character separator. *)
Fixpoint split (sep : ascii) (s : string) : list string :=
  match s with
  | EmptyString => [EmptyString]
  | String c s' =>
      if Ascii.eqb c sep then EmptyString :: split sep s'
      else match split sep s' with
           | p :: ps => String c p :: ps
           | [] => [String c EmptyString]
           end
  end.

Definition isDigit (c : ascii) : bool :=
  let n := nat_of_ascii c in (48 <=? n)%nat && (n <=? 57)%nat.

Fixpoint digitPrefix (s : string) : string :=
  match s with
  | String c s' => if isDigit c then String c (digitPrefix s') else EmptyString
  | EmptyString => EmptyString
  end.

(** [parseInt(s)] on a decimal string: an optional sign, then the longest
    run of digits; [None] is [NaN] (no digit).  Leading blanks and the
    [0x] radix prefix, which no cursor minted by the program has, are not
    modelled. *)
Definition parseInt (s : string) : option Z :=
  let '(neg, body) :=
    match s with
    | String c r =>
        if Ascii.eqb c "-" then (true, r)
        else if Ascii.eqb c "+" then (false, r)
        else (false, s)
    | EmptyString => (false, s)
    end in
  match digitPrefix body with
  | EmptyString => None
  | ds => match NilEmpty.uint_of_string ds with
          | Some d => Some (cond_Zopp neg (Z.of_uint d))
          | None => None
          end
  end.

End JS.

(* ================================================================= *)
(** * Thrown errors *)

Inductive error :=
| DimensionMismatch (lenA lenB : nat)   (* "Vector dimension mismatch: a vs b" *)
| NonexistentDocument (id : string).    (* [ctx.db.patch] of an id no document has *)

Inductive result (A : Type) :=
| Ok (a : A)
| Throw (e : error).
Arguments Ok {A} a.
Arguments Throw {A} e.

Definition bind {A B} (r : result A) (k : A -> result B) : result B :=
  match r with
  | Ok a => k a
  | Throw e => Throw e
  end.

Notation "x <- r ;; k" := (bind r (fun x => k))
  (at level 61, r at next level, right associativity).

(** [l.map(f)] for a callback that may throw: elements are visited in
    order and the first exception aborts the call. *)
Fixpoint mapM {A B} (f : A -> result B) (l : list A) : result (list B) :=
  match l with
  | [] => Ok []
  | x :: l' => y <- f x ;; ys <- mapM f l' ;; Ok (y :: ys)
  end.


(* ================================================================= *)
(** * [convex/lib/vectors.ts] *)

Module Vectors.
Import JS.
Open Scope float_scope.

Definition vector := list number.

(** The length guard every binary operation starts with. *)
Definition checkDimensions (a b : vector) : result unit :=
  if Nat.eqb (List.length a) (List.length b) then Ok tt
  else Throw (DimensionMismatch (List.length a) (List.length b)).

(** The loop of [cosineSimilarity]: one pass, three accumulators. *)
Fixpoint cosineLoop (a b : vector) (dotProduct magnitudeA magnitudeB : number)
  : number * number * number :=
  match a, b with
  | x :: a', y :: b' =>
      cosineLoop a' b' (dotProduct + x * y) (magnitudeA + x * x) (magnitudeB + y * y)
  | _, _ => (dotProduct, magnitudeA, magnitudeB)
  end.

Definition cosineSimilarity (a b : vector) : result number :=
  _ <- checkDimensions a b ;;
  let '(dotProduct, magnitudeA, magnitudeB) := cosineLoop a b 0 0 0 in
  let magnitudeA := sqrt magnitudeA in
  let magnitudeB := sqrt magnitudeB in
  if strictEq magnitudeA 0 || strictEq magnitudeB 0 then Ok 0
  else Ok (dotProduct / (magnitudeA * magnitudeB)).

(** The loop shared by [cosineSimilarityWithMagnitude] and [dotProduct]. *)
Fixpoint dotLoop (a b : vector) (product : number) : number :=
  match a, b with
  | x :: a', y :: b' => dotLoop a' b' (product + x * y)
  | _, _ => product
  end.

Definition cosineSimilarityWithMagnitude
  (a b : vector) (magnitudeA magnitudeB : number) : result number :=
  _ <- checkDimensions a b ;;
  let dotProduct := dotLoop a b 0 in
  if strictEq magnitudeA 0 || strictEq magnitudeB 0 then Ok 0
  else Ok (dotProduct / (magnitudeA * magnitudeB)).

Fixpoint squareLoop (v : vector) (sum : number) : number :=
  match v with
  | x :: v' => squareLoop v' (sum + x * x)
  | [] => sum
  end.

Definition calculateMagnitude (v : vector) : number := sqrt (squareLoop v 0).

Fixpoint distanceLoop (a b : vector) (sum : number) : number :=
  match a, b with
  | x :: a', y :: b' => let diff := x - y in distanceLoop a' b' (sum + diff * diff)
  | _, _ => sum
  end.

Definition euclideanDistance (a b : vector) : result number :=
  _ <- checkDimensions a b ;;
  Ok (sqrt (distanceLoop a b 0)).

Definition dotProduct (a b : vector) : result number :=
  _ <- checkDimensions a b ;;
  Ok (dotLoop a b 0).

Definition normalizeVector (v : vector) : vector :=
  let magnitude := calculateMagnitude v in
  if strictEq magnitude 0 then v else map (fun val => val / magnitude) v.

Definition similarityScore (cosineSim : number) : number := (cosineSim + 1) / 2.

(** [l.length] as a number. *)
Definition lengthNumber {A} (l : list A) : number :=
  of_uint63 (Uint63.of_Z (Z.of_nat (List.length l))).

(** [validateVector]: every entry is a number that is neither [NaN] nor
    infinite, and the length is the expected one when a (truthy) expected
    dimension is given. *)
Definition validateVector (v : vector) (expectedDimensions : option number) : bool :=
  let mismatch :=
    match expectedDimensions with
    | Some d => ToBoolean d && negb (strictEq (lengthNumber v) d)
    | None => false
    end in
  if mismatch then false
  else forallb (fun val => negb (is_nan val) && is_finite val) v.

(** A candidate of [topKSimilar]: [magnitude] is optional. *)
Module Candidate.
Record t := {
  id : string;
  embedding : vector;
  magnitude : option number
}.
End Candidate.

(** An entry of the result. *)
Module Scored.
Record t := {
  id : string;
  similarity : number
}.
End Scored.

(** The similarity [topKSimilar] computes for one candidate: the cached
    magnitude is used when it is truthy, the raw cosine otherwise. *)
Definition candidateSimilarity (query : vector) (vec : Candidate.t) : result number :=
  match Candidate.magnitude vec with
  | Some m =>
      if ToBoolean m
      then cosineSimilarityWithMagnitude query (Candidate.embedding vec)
             (calculateMagnitude query) m
      else cosineSimilarity query (Candidate.embedding vec)
  | None => cosineSimilarity query (Candidate.embedding vec)
  end.

(** The comparator [(a, b) => b.similarity - a.similarity]. *)
Definition bySimilarityDesc (a b : Scored.t) : number :=
  Scored.similarity b - Scored.similarity a.

(** [threshold] has the default value [0]. *)
Definition topKSimilar
  (query : vector) (vectors : list Candidate.t) (k : number) (threshold : option number)
  : result (list Scored.t) :=
  let threshold := match threshold with Some t => t | None => 0 end in
  similarities <-
    mapM (fun vec =>
            similarity <- candidateSimilarity query vec ;;
            Ok {| Scored.id := Candidate.id vec; Scored.similarity := similarity |})
         vectors ;;
  Ok (slice0
        (sort bySimilarityDesc
              (filter (fun item => geb (Scored.similarity item) threshold) similarities))
        k).

End Vectors.
(* ================================================================= *)
(** * The Convex tables the search functions read *)

(** A table is the list of its documents in creation order, which is the
    order a query yields them in unless it asks for [.order("desc")]; no
    query of the program does.  [withIndex(.., q => q.eq(..))] and
    [.filter(..)] keep the documents that match, in that order, and
    [.take(n)] stops after [n] of them. *)
Module Convex.
Import JS.

Definition Id := string.

Inductive memoryType := episodic | semantic | procedural.

Definition memoryType_eqb (a b : memoryType) : bool :=
  match a, b with
  | episodic, episodic | semantic, semantic | procedural, procedural => true
  | _, _ => false
  end.

Module Document.
Record t := { _id : Id; title : string }.
End Document.

Module Chunk.
Record t := {
  _id : Id;
  documentId : Id;
  content : string;
  embedding : option (list number);
  embeddingModel : option string;
  embeddingDimensions : option number;
  magnitude : option number
}.
End Chunk.

Module ChunkEmbedding.
Record t := {
  _id : Id;
  chunkId : Id;
  embedding : list number;
  magnitude : number;
  model : string;
  dimensions : number;
  createdAt : Z            (* [Date.now()] at insertion, in milliseconds *)
}.
End ChunkEmbedding.

Module VectorMemory.
Record t := {
  _id : Id;
  memoryType : Convex.memoryType;
  content : string;
  embedding : list number;
  magnitude : number;
  agentId : option string
}.
End VectorMemory.

Record database := {
  documents : list Document.t;
  chunks : list Chunk.t;
  chunkEmbeddings : list ChunkEmbedding.t;
  vectorMemories : list VectorMemory.t
}.

(** What a query handler is given: the database and the two readings of
    [Date.now()] a handler may take. *)
Record context := {
  db : database;
  startNow : Z;
  endNow : Z
}.

Definition take {A} (n : nat) (q : list A) : list A := firstn n q.

(** [ctx.db.get(id)]: the document, or [null]. *)
Definition getDocument (d : database) (id : Id) : option Document.t :=
  find (fun x => String.eqb (Document._id x) id) (documents d).

Definition getChunk (d : database) (id : Id) : option Chunk.t :=
  find (fun x => String.eqb (Chunk._id x) id) (chunks d).

(** [ctx.db.insert("chunkEmbeddings", doc)]: the new document is the last
    of the table. *)
Definition insertChunkEmbedding (d : database) (doc : ChunkEmbedding.t) : database :=
  {| documents := documents d;
     chunks := chunks d;
     chunkEmbeddings := chunkEmbeddings d ++ [doc];
     vectorMemories := vectorMemories d |}.

(** [ctx.db.patch(id, fields)] on a chunk: it throws when no chunk has
    the id. *)
Definition patchChunk (d : database) (id : Id) (patch : Chunk.t -> Chunk.t)
  : result database :=
  if existsb (fun c => String.eqb (Chunk._id c) id) (chunks d)
  then Ok {| documents := documents d;
             chunks := map (fun c => if String.eqb (Chunk._id c) id then patch c else c)
                           (chunks d);
             chunkEmbeddings := chunkEmbeddings d;
             vectorMemories := vectorMemories d |}
  else Throw (NonexistentDocument id).

(** Filter expressions against a value that may be missing: [q.lt] and
    [q.eq] with [NaN] (an unparsable cursor time) or [undefined] (a cursor
    without [":"]) select nothing. *)
Definition ltNumber (field : Z) (v : option Z) : bool :=
  match v with Some t => Z.ltb field t | None => false end.

Definition eqNumber (field : Z) (v : option Z) : bool :=
  match v with Some t => Z.eqb field t | None => false end.

Definition ltId (field : Id) (v : option Id) : bool :=
  match v with Some i => String.ltb field i | None => false end.

Definition optString_eqb (a b : option string) : bool :=
  match a, b with
  | Some x, Some y => String.eqb x y
  | None, None => true
  | _, _ => false
  end.

(** Truthiness of an optional string: [undefined] and [""] are falsy. *)
Definition truthyString (s : option string) : bool :=
  match s with
  | Some (String _ _) => true
  | _ => false
  end.

(** [[...new Set(ids)]]: first occurrences, in order. *)
Fixpoint unique (seen ids : list Id) : list Id :=
  match ids with
  | [] => []
  | i :: ids' =>
      if existsb (String.eqb i) seen then unique seen ids'
      else i :: unique (i :: seen) ids'
  end.

(** [new Map(entries)] and [map.get(key)]: the last entry of a key wins. *)
Fixpoint mapGet {V} (entries : list (Id * V)) (key : Id) : option V :=
  match entries with
  | [] => None
  | (k, v) :: rest =>
      match mapGet rest key with
      | Some v' => Some v'
      | None => if String.eqb k key then Some v else None
      end
  end.

Fixpoint somes {A} (l : list (option A)) : list A :=
  match l with
  | [] => []
  | Some x :: l' => x :: somes l'
  | None :: l' => somes l'
  end.

End Convex.
(* ================================================================= *)
(** * [convex/functions/vectorSearch.ts] *)

(** An element of a [results] array: the scanned document and its score. *)
Module Ranked.
Record t (A : Type) := { item : A; similarity : JS.number }.
Arguments item {A} _.
Arguments similarity {A} _.

(** The comparator [(a, b) => b.similarity - a.similarity]. *)
Definition bySimilarityDesc {A} (a b : t A) : JS.number :=
  (similarity b - similarity a)%float.
End Ranked.

(** [Math.sqrt(embedding.reduce((sum, val) => sum + val * val, 0))]. *)
Definition reducedMagnitude (embedding : list JS.number) : JS.number :=
  sqrt (fold_left (fun sum val => sum + val * val)%float embedding 0%float).

Module VectorSearch.
Import JS Vectors Convex.
Open Scope float_scope.

Module Args.
Record t := {
  embedding : list number;
  memoryType : option Convex.memoryType;
  limit : option number;
  threshold : option number;
  agentId : option string
}.
End Args.

Module MemoryResult.
Record t := {
  document : VectorMemory.t;
  similarity : number;
  documentId : Id
}.
End MemoryResult.

(** The candidates, by the four filter combinations. *)
Definition candidatesOf (d : database) (args : Args.t) : list VectorMemory.t :=
  let byType mt := fun doc => memoryType_eqb (VectorMemory.memoryType doc) mt in
  let byAgent := fun doc => optString_eqb (VectorMemory.agentId doc) (Args.agentId args) in
  match Args.memoryType args with
  | Some mt =>
      if truthyString (Args.agentId args)
      then take 1000 (filter byAgent (filter (byType mt) (vectorMemories d)))
      else take 1000 (filter (byType mt) (vectorMemories d))
  | None =>
      if truthyString (Args.agentId args)
      then take 1000 (filter byAgent (vectorMemories d))
      else take 1000 (vectorMemories d)
  end.

Definition vectorSearch (ctx : context) (args : Args.t) : result (list MemoryResult.t) :=
  let limit := orDefault (Args.limit args) 10 in
  let threshold := orDefault (Args.threshold args) 0.7 in
  let queryMagnitude := reducedMagnitude (Args.embedding args) in
  let candidates := candidatesOf (db ctx) args in
  scoredDocs <-
    mapM (fun doc =>
            similarity <- cosineSimilarityWithMagnitude
                            (Args.embedding args) (VectorMemory.embedding doc)
                            queryMagnitude (VectorMemory.magnitude doc) ;;
            Ok {| Ranked.item := doc; Ranked.similarity := similarity |})
         candidates ;;
  let results :=
    slice0 (sort Ranked.bySimilarityDesc
                 (filter (fun r => geb (Ranked.similarity r) threshold) scoredDocs))
           limit in
  Ok (map (fun r => {| MemoryResult.document := Ranked.item r;
                       MemoryResult.similarity := Ranked.similarity r;
                       MemoryResult.documentId := VectorMemory._id (Ranked.item r) |})
          results).

Module ChunkArgs.
Record t := {
  embedding : list number;
  limit : option number;
  threshold : option number
}.
End ChunkArgs.

Module ChunkResult.
Record t := {
  chunk : Chunk.t;
  similarity : number;
  document : option Document.t
}.
End ChunkResult.

Definition isSome {A} (o : option A) : bool :=
  match o with Some _ => true | None => false end.

Definition searchChunks (ctx : context) (args : ChunkArgs.t) : result (list ChunkResult.t) :=
  let limit := orDefault (ChunkArgs.limit args) 10 in
  let threshold := orDefault (ChunkArgs.threshold args) 0.7 in
  let chunks :=
    take 1000
      (filter (fun c => isSome (Chunk.embedding c) && isSome (Chunk.magnitude c))
              (chunks (db ctx))) in
  let queryMagnitude := reducedMagnitude (ChunkArgs.embedding args) in
  scoredChunks <-
    mapM (fun chunk =>
            match Chunk.embedding chunk, Chunk.magnitude chunk with
            | Some embedding, Some magnitude =>
                if ToBoolean magnitude then
                  similarity <- cosineSimilarityWithMagnitude
                                  (ChunkArgs.embedding args) embedding
                                  queryMagnitude magnitude ;;
                  Ok (Some {| Ranked.item := chunk; Ranked.similarity := similarity |})
                else Ok None
            | _, _ => Ok None
            end)
         chunks ;;
  let results :=
    slice0 (sort Ranked.bySimilarityDesc
                 (somes (filter (fun result =>
                                   match result with
                                   | Some r => geb (Ranked.similarity r) threshold
                                   | None => false
                                   end)
                                scoredChunks)))
           limit in
  let documentIds := unique [] (map (fun r => Chunk.documentId (Ranked.item r)) results) in
  let documents := map (getDocument (db ctx)) documentIds in
  let docMap := map (fun d => (Document._id d, d)) (somes documents) in
  Ok (map (fun r => {| ChunkResult.chunk := Ranked.item r;
                       ChunkResult.similarity := Ranked.similarity r;
                       ChunkResult.document :=
                         mapGet docMap (Chunk.documentId (Ranked.item r)) |})
          results).

End VectorSearch.

(* ================================================================= *)
(** * [convex/functions/vectorSearchV2.ts] *)

Module VectorSearchV2.
Import JS Vectors Convex.
Open Scope float_scope.

Module Args.
Record t := {
  embedding : list number;
  limit : option number;
  threshold : option number;
  cursor : option string;
  model : option string
}.
End Args.

Module StoreArgs.
Record t := {
  chunkId : Id;
  embedding : list number;
  model : string;
  dimensions : number
}.
End StoreArgs.

(** [storeChunkEmbedding]: the magnitude is computed once, the embedding
    is inserted with [createdAt = Date.now()] (here [now]) under the id
    the platform allots (here [newId]), and the chunk is patched.  A
    mutation is a transaction: when the patch throws nothing is stored. *)
Definition storeChunkEmbedding (now : Z) (newId : Id) (args : StoreArgs.t) (d : database)
  : result (Id * database) :=
  let magnitude := reducedMagnitude (StoreArgs.embedding args) in
  let inserted :=
    insertChunkEmbedding d
      {| ChunkEmbedding._id := newId;
         ChunkEmbedding.chunkId := StoreArgs.chunkId args;
         ChunkEmbedding.embedding := StoreArgs.embedding args;
         ChunkEmbedding.magnitude := magnitude;
         ChunkEmbedding.model := StoreArgs.model args;
         ChunkEmbedding.dimensions := StoreArgs.dimensions args;
         ChunkEmbedding.createdAt := now |} in
  patched <-
    patchChunk inserted (StoreArgs.chunkId args)
      (fun c => {| Chunk._id := Chunk._id c;
                   Chunk.documentId := Chunk.documentId c;
                   Chunk.content := Chunk.content c;
                   Chunk.embedding := Chunk.embedding c;
                   Chunk.embeddingModel := Some (StoreArgs.model args);
                   Chunk.embeddingDimensions := Some (StoreArgs.dimensions args);
                   Chunk.magnitude := Some magnitude |}) ;;
  Ok (newId, patched).

Module Entry.
Record t := {
  chunk : option Chunk.t;
  similarity : number;
  document : option Document.t;
  embeddingId : Id
}.
End Entry.

Record page := {
  results : list Entry.t;
  nextCursor : option string;
  hasMore : bool;
  searchTimeMs : Z
}.

(** The cursor of a scanned document: [`${createdAt}:${_id}`]. *)
Definition cursorOf (emb : ChunkEmbedding.t) : string :=
  (numberToString (ChunkEmbedding.createdAt emb) ++ ":" ++ ChunkEmbedding._id emb)%string.

(** The filter a cursor adds:
    [createdAt < t || (createdAt == t && _id < id)]. *)
Definition beforeCursor (createdAt : option Z) (idStr : option Id)
  (emb : ChunkEmbedding.t) : bool :=
  ltNumber (ChunkEmbedding.createdAt emb) createdAt
  || (eqNumber (ChunkEmbedding.createdAt emb) createdAt
      && ltId (ChunkEmbedding._id emb) idStr).

(** The query that is built, then [embeddingsQuery.take(1000)]: the
    [embeddings] the handler scans. *)
Definition scanWindow (d : database) (args : Args.t) : list ChunkEmbedding.t :=
  let embeddingsQuery :=
    if truthyString (Args.model args)
    then filter (fun emb => optString_eqb (Some (ChunkEmbedding.model emb)) (Args.model args))
                (chunkEmbeddings d)
    else chunkEmbeddings d in
  let embeddingsQuery :=
    if truthyString (Args.cursor args) then
      let parts := split ":" (match Args.cursor args with Some c => c | None => EmptyString end) in
      let createdAtStr := nth 0 parts EmptyString in
      let idStr := nth_error parts 1 in
      let createdAt := parseInt createdAtStr in
      filter (beforeCursor createdAt idStr) embeddingsQuery
    else embeddingsQuery in
  take 1000 embeddingsQuery.

Definition searchChunksV2 (ctx : context) (args : Args.t) : result page :=
  let limit := orDefault (Args.limit args) 10 in
  let threshold := orDefault (Args.threshold args) 0.7 in
  let startTime := startNow ctx in
  let queryMagnitude := reducedMagnitude (Args.embedding args) in
  let embeddings := scanWindow (db ctx) args in
  scoredDocs <-
    mapM (fun emb =>
            similarity <- cosineSimilarityWithMagnitude
                            (Args.embedding args) (ChunkEmbedding.embedding emb)
                            queryMagnitude (ChunkEmbedding.magnitude emb) ;;
            Ok {| Ranked.item := emb; Ranked.similarity := similarity |})
         embeddings ;;
  let results :=
    slice0 (sort Ranked.bySimilarityDesc
                 (filter (fun result => geb (Ranked.similarity result) threshold) scoredDocs))
           limit in
  let chunkIds := map (fun r => ChunkEmbedding.chunkId (Ranked.item r)) results in
  let chunks := map (getChunk (db ctx)) chunkIds in
  let documentIds := unique [] (map Chunk.documentId (somes chunks)) in
  let documents := map (getDocument (db ctx)) documentIds in
  let docMap := map (fun d => (Document._id d, d)) (somes documents) in
  let response :=
    map (fun '(r, chunk) =>
           {| Entry.chunk := chunk;
              Entry.similarity := Ranked.similarity r;
              Entry.document := match chunk with
                          | Some c => mapGet docMap (Chunk.documentId c)
                          | None => None
                          end;
              Entry.embeddingId := ChunkEmbedding._id (Ranked.item r) |})
        (combine results chunks) in
  let lastResult := lastElement embeddings in
  let nextCursor :=
    match lastResult with
    | Some emb => Some (cursorOf emb)
    | None => None
    end in
  Ok {| results := response;
        nextCursor := nextCursor;
        hasMore := Nat.eqb (List.length embeddings) 1000;
        searchTimeMs := endNow ctx - startTime |}.

End VectorSearchV2.

(* ================================================================= *)
(** * A pagination session *)

(** The caller of the paginated search: the first call carries the given
    arguments, each later call the cursor the previous page returned, until
    a page says [hasMore = false].  The database is the same at every call
    (no intervening write).  Each page is recorded with the window it
    scanned. *)
Module Pagination.
Import Convex VectorSearchV2.

Definition withCursor (c : option string) (args : Args.t) : Args.t :=
  {| Args.embedding := Args.embedding args;
     Args.limit := Args.limit args;
     Args.threshold := Args.threshold args;
     Args.cursor := c;
     Args.model := Args.model args |}.

Inductive outcome :=
| Completed (pages : list (list ChunkEmbedding.t * page))
| Failed (e : error)
| Unfinished.

Fixpoint session (calls : nat) (ctx : context) (args : Args.t) : outcome :=
  match calls with
  | O => Unfinished
  | S calls' =>
      match searchChunksV2 ctx args with
      | Throw e => Failed e
      | Ok p =>
          let scanned := scanWindow (db ctx) args in
          if hasMore p then
            match session calls' ctx (withCursor (nextCursor p) args) with
            | Completed pages => Completed ((scanned, p) :: pages)
            | other => other
            end
          else Completed [(scanned, p)]
      end
  end.

(** Everything a session scanned, page after page. *)
Definition scannedBy (pages : list (list ChunkEmbedding.t * page)) : list ChunkEmbedding.t :=
  List.concat (map fst pages).

End Pagination.

(* ================================================================= *)
(** * Vocabulary of the properties *)

Module Spec.
Import JS Vectors Convex.

(** ** Numbers in order *)

(** An order-preserving integer image of the binary64 values other than
    [NaN]: a finite value counts in units of [2^-1074], the infinities
    lie beyond every finite value. *)
Definition ordZ (x : spec_float) : Z :=
  match x with
  | S754_zero _ => 0
  | S754_nan => 0
  | S754_infinity s => cond_Zopp s (2 ^ 2098)
  | S754_finite s m e => cond_Zopp s (Zpos m * 2 ^ (e + 1074))
  end.

Definition notNaN (x : spec_float) : Prop := x <> S754_nan.

(** A value that is not a zero and carries the sign [s]. *)
Definition signedNonzero (s : bool) (r : spec_float) : Prop :=
  match r with
  | S754_finite s' _ _ => s' = s
  | S754_infinity s' => s' = s
  | _ => False
  end.

Definition rank (x : number) : Z := ordZ (Prim2SF x).

(** ** Lists ranked by a similarity *)

Section Ranking.
Context {A : Type} (key : A -> number).

(** No key is [NaN]. *)
Definition keyed (l : list A) : Prop :=
  Forall (fun x => is_nan (key x) = false) l.

(** Every element is [>=] all the elements behind it. *)
Definition descending (l : list A) : Prop :=
  StronglySorted (fun x y => geb (key x) (key y) = true) l.

(** The elements whose key is [=== v]: one class of ties. *)
Definition tiedWith (v : number) (x : A) : bool := strictEq (key x) v.

(** [l'] keeps every class of ties in the order it has in [l]. *)
Definition tiesInOrderOf (l l' : list A) : Prop :=
  forall v, filter (tiedWith v) l' = filter (tiedWith v) l.
End Ranking.

(** The integral part of a count [k >= 0]; [None] when [k] is
    [Infinity], which truncates nothing. *)
Definition integerPart (k : number) : option nat :=
  match ToIntegerOrInfinity k with
  | Integer z => Some (Z.to_nat z)
  | PosInfinity => None
  | NegInfinity => Some O
  end.

Definition truncated {A} (k : number) (l : list A) : list A :=
  match integerPart k with
  | Some n => firstn n l
  | None => l
  end.

(** ** Vectors *)

(** The similarity of the specification, written from its words:
    [dot(a,b) / (|a|*|b|)], and exactly [0] when a magnitude is [0].
    The sums run from the left over the entries, in binary64. *)
Definition dot (a b : vector) : number :=
  fold_left (fun sum xy => sum + fst xy * snd xy)%float (combine a b) 0%float.






(** Every entry is [=== 0]. *)
Definition zeroVector (v : vector) : Prop :=
  Forall (fun x => strictEq x 0%float = true) v.

(** An entry that [validateVector] rejects: [NaN] or an infinity. *)
Definition invalidEntry (x : number) : bool := is_nan x || is_infinity x.

Definition hasInvalidEntry (v : vector) : Prop := existsb invalidEntry v = true.

(** The same on the specification side: [NaN] or an infinity. *)
Definition notFinite (x : spec_float) : Prop :=
  match x with
  | S754_nan | S754_infinity _ => True
  | _ => False
  end.

Definition wild (x : number) : Prop := notFinite (Prim2SF x).

Definition sameDimension {A} (embeddingOf : A -> vector) (query : vector) (l : list A) : Prop :=
  Forall (fun x => List.length (embeddingOf x) = List.length query) l.

(** ** Cursors *)

Fixpoint colonFree (s : string) : bool :=
  match s with
  | EmptyString => true
  | String c s' => negb (Ascii.eqb c ":") && colonFree s'
  end.

Fixpoint allDigits (s : string) : bool :=
  match s with
  | EmptyString => true
  | String c s' => isDigit c && allDigits s'
  end.

(** The cursor string that encodes [(t, id)]. *)
Definition cursorEncoding (t : Z) (id : Id) : string :=
  (numberToString t ++ ":" ++ id)%string.

(** A candidate strictly before [(t, id)]:
    [t' < t \/ (t' = t /\ id' < id)]. *)
Definition strictlyBefore (t : Z) (id : Id) (emb : ChunkEmbedding.t) : bool :=
  Z.ltb (ChunkEmbedding.createdAt emb) t
  || (Z.eqb (ChunkEmbedding.createdAt emb) t && String.ltb (ChunkEmbedding._id emb) id).

(** The candidates a search may scan: those of the requested model, in
    the order the table yields them. *)
Definition pool (d : database) (model : option string) : list ChunkEmbedding.t :=
  if truthyString model
  then filter (fun emb => optString_eqb (Some (ChunkEmbedding.model emb)) model)
              (chunkEmbeddings d)
  else chunkEmbeddings d.

(** A pool yielded newest first: every candidate is strictly before all
    the candidates yielded ahead of it. *)
Definition newestFirst (l : list ChunkEmbedding.t) : Prop :=
  StronglySorted
    (fun a b => strictlyBefore (ChunkEmbedding.createdAt a) (ChunkEmbedding._id a) b = true) l.

(** What a page tells about the continuation. *)
Definition continuation (r : result VectorSearchV2.page)
  : result (option string * bool) :=
  match r with
  | Ok p => Ok (VectorSearchV2.nextCursor p, VectorSearchV2.hasMore p)
  | Throw e => Throw e
  end.

End Spec.

(* ================================================================= *)
(** * Sample data *)

Module Samples.
Import JS Vectors Convex.
Open Scope float_scope.
Open Scope string_scope.

Definition stored (id : Id) (t : Z) (e : list number) (m : number) : ChunkEmbedding.t :=
  {| ChunkEmbedding._id := id;
     ChunkEmbedding.chunkId := "c" ++ id;
     ChunkEmbedding.embedding := e;
     ChunkEmbedding.magnitude := m;
     ChunkEmbedding.model := "voyage-3.5";
     ChunkEmbedding.dimensions := lengthNumber e;
     ChunkEmbedding.createdAt := t |}.

Definition memory (id : Id) (e : list number) (m : number) : VectorMemory.t :=
  {| VectorMemory._id := id;
     VectorMemory.memoryType := semantic;
     VectorMemory.content := "note";
     VectorMemory.embedding := e;
     VectorMemory.magnitude := m;
     VectorMemory.agentId := None |}.

(** A query handler running on [d]; it takes three milliseconds. *)
Definition runningOn (d : database) : context :=
  {| db := d; startNow := 5000; endNow := 5003 |}.

Definition contextOf (embs : list ChunkEmbedding.t) (mems : list VectorMemory.t) : context :=
  runningOn {| documents := []; chunks := [];
               chunkEmbeddings := embs; vectorMemories := mems |}.

(** One stored embedding and one stored memory. *)
Definition oneEach : context :=
  contextOf [stored "e1" 5 [1; 0] 1] [memory "m1" [1; 0] 1].

Definition chunkQuery (e : list number) (cursor : option string) : VectorSearchV2.Args.t :=
  {| VectorSearchV2.Args.embedding := e;
     VectorSearchV2.Args.limit := None;
     VectorSearchV2.Args.threshold := None;
     VectorSearchV2.Args.cursor := cursor;
     VectorSearchV2.Args.model := None |}.

Definition memoryQuery (e : list number) : VectorSearch.Args.t :=
  {| VectorSearch.Args.embedding := e;
     VectorSearch.Args.memoryType := None;
     VectorSearch.Args.limit := None;
     VectorSearch.Args.threshold := None;
     VectorSearch.Args.agentId := None |}.

(** [n] embeddings stored one millisecond apart, [createdAt = 1 .. n], in
    the order they were inserted. *)
Definition insertedAt (i : nat) : ChunkEmbedding.t :=
  stored ("e" ++ numberToString (Z.of_nat i)) (Z.of_nat i) [1] 1.

Definition insertedInTurn (n : nat) : list ChunkEmbedding.t :=
  map insertedAt (seq 1 n).

(** The database these embeddings come from: [n] chunks, then one call
    of [storeChunkEmbedding] per chunk, the [i]-th at time [i]. *)
Definition chunkNo (i : nat) : Chunk.t :=
  {| Chunk._id := "ce" ++ numberToString (Z.of_nat i);
     Chunk.documentId := "d1";
     Chunk.content := "text";
     Chunk.embedding := None;
     Chunk.embeddingModel := None;
     Chunk.embeddingDimensions := None;
     Chunk.magnitude := None |}.

Definition chunksOnly (n : nat) : database :=
  {| documents := []; chunks := map chunkNo (seq 1 n);
     chunkEmbeddings := []; vectorMemories := [] |}.

Fixpoint storeInTurn (turns : list nat) (d : database) : result database :=
  match turns with
  | [] => Ok d
  | i :: turns' =>
      stored <-
        VectorSearchV2.storeChunkEmbedding (Z.of_nat i)
          ("e" ++ numberToString (Z.of_nat i))
          {| VectorSearchV2.StoreArgs.chunkId := "ce" ++ numberToString (Z.of_nat i);
             VectorSearchV2.StoreArgs.embedding := [1];
             VectorSearchV2.StoreArgs.model := "voyage-3.5";
             VectorSearchV2.StoreArgs.dimensions := 1 |}
          d ;;
      storeInTurn turns' (snd stored)
  end.

Definition afterStores (n : nat) : result database :=
  storeInTurn (seq 1 n) (chunksOnly n).

(** The same embeddings, newest first. *)
Definition newestFirstTable (n : nat) : list ChunkEmbedding.t :=
  rev (insertedInTurn n).

Definition threeCandidates : list Candidate.t :=
  [ {| Candidate.id := "c1"; Candidate.embedding := [1; 0; 0]; Candidate.magnitude := Some 1 |};
    {| Candidate.id := "c2"; Candidate.embedding := [0; 1; 0]; Candidate.magnitude := Some 1 |};
    {| Candidate.id := "c3"; Candidate.embedding := [0.9; 0.1; 0]; Candidate.magnitude := None |} ].

(** Two pairs of candidates of equal similarity to [[1; 0]]. *)
Definition tiedCandidates : list Candidate.t :=
  [ {| Candidate.id := "x"; Candidate.embedding := [1; 1]; Candidate.magnitude := None |};
    {| Candidate.id := "y"; Candidate.embedding := [1; 0]; Candidate.magnitude := None |};
    {| Candidate.id := "z"; Candidate.embedding := [1; 1]; Candidate.magnitude := None |};
    {| Candidate.id := "w"; Candidate.embedding := [3; 0]; Candidate.magnitude := Some 3 |} ].

End Samples.

(* ================================================================= *)
(** * The rest of [convex/lib/vectors.ts] *)

(** Integral numbers: array indexes, lengths and chunk sizes are integers
    far below [2^53], where the arithmetic of numbers is the arithmetic of
    [Z]. *)
Module JSArray.

(** The relative index of [slice]: a negative index counts from the end,
    and the result is clamped to [0 .. len]. *)
Definition relativeIndex (len z : Z) : Z :=
  if (z <? 0)%Z then Z.max (len + z) 0 else Z.min z len.

(** [l.slice(start, end)] for integral [start] and [end]. *)
Definition slice {A} (l : list A) (start end_ : Z) : list A :=
  let len := Z.of_nat (List.length l) in
  let k := relativeIndex len start in
  let final := relativeIndex len end_ in
  firstn (Z.to_nat (final - k)) (skipn (Z.to_nat k) l).

(** [l.map((x, index) => f(x, index))] for a callback that may throw. *)
Fixpoint mapIndexed {A B} (f : A -> nat -> result B) (l : list A) (index : nat)
  : result (list B) :=
  match l with
  | [] => Ok []
  | x :: l' => y <- f x index ;; ys <- mapIndexed f l' (S index) ;; Ok (y :: ys)
  end.

End JSArray.

Module VectorOps.
Import JS Vectors JSArray.
Open Scope float_scope.

(** [magnitudes && magnitudes[index]]: the cached magnitude, when the
    array is given and holds a truthy number at [index] ([undefined],
    beyond the end of the array, is falsy). *)
Definition cachedMagnitude (magnitudes : option (list number)) (index : nat)
  : option number :=
  match magnitudes with
  | Some ms =>
      match nth_error ms index with
      | Some m => if ToBoolean m then Some m else None
      | None => None
      end
  | None => None
  end.

Definition batchCosineSimilarity
  (query : vector) (vectors : list vector) (magnitudes : option (list number))
  : result (list number) :=
  let queryMagnitude := calculateMagnitude query in
  mapIndexed
    (fun vector index =>
       match cachedMagnitude magnitudes index with
       | Some m => cosineSimilarityWithMagnitude query vector queryMagnitude m
       | None => cosineSimilarity query vector
       end)
    vectors 0.

(** One round of the inner loop of [calculateCentroid]:
    [centroid[i] += vector[i]] for every [i < dimensions].  Beyond the end
    of [vector] the entry is [undefined], which the addition converts to
    [NaN]; entries of [vector] beyond [dimensions] are not read. *)
Fixpoint addVector (centroid vector : list number) : list number :=
  match centroid with
  | [] => []
  | c :: centroid' =>
      match vector with
      | x :: vector' => (c + x) :: addVector centroid' vector'
      | [] => (c + nan) :: addVector centroid' []
      end
  end.

(** [calculateCentroid]; [None] is the error
    "Cannot calculate centroid of empty vector set". *)
Definition calculateCentroid (vectors : list vector) : option vector :=
  match vectors with
  | [] => None
  | first :: _ =>
      let dimensions := List.length first in
      let centroid := fold_left addVector vectors (repeat 0 dimensions) in
      Some (map (fun val => val / lengthNumber vectors) centroid)
  end.

(** The loop of [chunkArray], for an integral [chunkSize]:
    [for (let i = 0; i < array.length; i += chunkSize)].  [None] says
    that the loop has not ended after [fuel] rounds. *)
Fixpoint chunkLoop {T} (fuel : nat) (array : list T) (chunkSize i : Z)
  (chunks : list (list T)) : option (list (list T)) :=
  match fuel with
  | O => None
  | S fuel' =>
      if (i <? Z.of_nat (List.length array))%Z
      then chunkLoop fuel' array chunkSize (i + chunkSize)
             (chunks ++ [slice array i (i + chunkSize)])
      else Some chunks
  end.

Definition chunkArray {T} (fuel : nat) (array : list T) (chunkSize : Z)
  : option (list (list T)) :=
  chunkLoop fuel array chunkSize 0 [].

End VectorOps.

(* ================================================================= *)
(** * The stored tables *)

(** The tables with every field of the schema that a handler of the
    program writes ([metadata], an object no handler reads, is left out).
    As in [Convex], a table is the list of its documents in creation
    order; [ctx.db.insert] appends, [ctx.db.patch] and [ctx.db.delete] throw
    when no document has the id.  Timestamps are the integral readings of
    [Date.now()].  [view] is what the search handlers read of the
    tables. *)
Module Store.
Import JS Convex.

Inductive docType := Pdf | Web | Text | Code | Markdown | Epub | Other.

Inductive docStatus := New | Processing | Indexed | Error | Archived.

Definition docStatus_eqb (a b : docStatus) : bool :=
  match a, b with
  | New, New | Processing, Processing | Indexed, Indexed
  | Error, Error | Archived, Archived => true
  | _, _ => false
  end.

Module DocumentRow.
Record t := {
  _id : Id;
  airtableId : string;
  title : string;
  content : option string;
  sourceUrl : option string;
  docType : Store.docType;
  status : docStatus;
  fileSize : option number;
  language : string;
  createdAt : Z;
  updatedAt : Z;
  indexedAt : option Z;
  searchText : option string
}.
End DocumentRow.

Module ChunkRow.
Record t := {
  _id : Id;
  documentId : Id;
  chunkIndex : number;
  content : string;
  tokens : option number;
  startChar : option number;
  endChar : option number;
  createdAt : Z;
  embedding : option (list number);
  embeddingModel : option string;
  embeddingDimensions : option number;
  magnitude : option number
}.
End ChunkRow.

Module MemoryRow.
Record t := {
  _id : Id;
  memoryType : Convex.memoryType;
  content : string;
  embedding : list number;
  embeddingModel : string;
  importanceScore : number;
  accessCount : number;
  lastAccessedAt : Z;
  createdAt : Z;
  updatedAt : Z;
  agentId : option string;
  confidenceScore : number;
  magnitude : number
}.
End MemoryRow.

Record t := {
  documents : list DocumentRow.t;
  chunks : list ChunkRow.t;
  chunkEmbeddings : list ChunkEmbedding.t;
  vectorMemories : list MemoryRow.t
}.

(** ** What the search handlers read *)

Definition toDocument (r : DocumentRow.t) : Document.t :=
  {| Document._id := DocumentRow._id r; Document.title := DocumentRow.title r |}.

Definition toChunk (r : ChunkRow.t) : Chunk.t :=
  {| Chunk._id := ChunkRow._id r;
     Chunk.documentId := ChunkRow.documentId r;
     Chunk.content := ChunkRow.content r;
     Chunk.embedding := ChunkRow.embedding r;
     Chunk.embeddingModel := ChunkRow.embeddingModel r;
     Chunk.embeddingDimensions := ChunkRow.embeddingDimensions r;
     Chunk.magnitude := ChunkRow.magnitude r |}.

Definition toVectorMemory (r : MemoryRow.t) : VectorMemory.t :=
  {| VectorMemory._id := MemoryRow._id r;
     VectorMemory.memoryType := MemoryRow.memoryType r;
     VectorMemory.content := MemoryRow.content r;
     VectorMemory.embedding := MemoryRow.embedding r;
     VectorMemory.magnitude := MemoryRow.magnitude r;
     VectorMemory.agentId := MemoryRow.agentId r |}.

Definition view (s : t) : database :=
  {| Convex.documents := map toDocument (documents s);
     Convex.chunks := map toChunk (chunks s);
     Convex.chunkEmbeddings := chunkEmbeddings s;
     Convex.vectorMemories := map toVectorMemory (vectorMemories s) |}.

(** ** Reads and writes *)

Definition withDocuments (s : t) (l : list DocumentRow.t) : t :=
  {| documents := l; chunks := chunks s;
     chunkEmbeddings := chunkEmbeddings s; vectorMemories := vectorMemories s |}.

Definition withChunks (s : t) (l : list ChunkRow.t) : t :=
  {| documents := documents s; chunks := l;
     chunkEmbeddings := chunkEmbeddings s; vectorMemories := vectorMemories s |}.

Definition withChunkEmbeddings (s : t) (l : list ChunkEmbedding.t) : t :=
  {| documents := documents s; chunks := chunks s;
     chunkEmbeddings := l; vectorMemories := vectorMemories s |}.

Definition withVectorMemories (s : t) (l : list MemoryRow.t) : t :=
  {| documents := documents s; chunks := chunks s;
     chunkEmbeddings := chunkEmbeddings s; vectorMemories := l |}.

(** [ctx.db.get(id)]: the first document of the id, or [null]. *)
Definition getBy {R} (idOf : R -> Id) (table : list R) (id : Id) : option R :=
  find (fun r => String.eqb (idOf r) id) table.

(** A document of the table has the id. *)
Definition hasId {R} (idOf : R -> Id) (table : list R) (id : Id) : bool :=
  existsb (fun r => String.eqb (idOf r) id) table.

(** [ctx.db.patch(id, fields)]: [fields] is merged into the document of
    the id. *)
Definition patchBy {R} (idOf : R -> Id) (table : list R) (id : Id) (patch : R -> R)
  : result (list R) :=
  if existsb (fun r => String.eqb (idOf r) id) table
  then Ok (map (fun r => if String.eqb (idOf r) id then patch r else r) table)
  else Throw (NonexistentDocument id).

(** [ctx.db.delete(id)]. *)
Definition deleteBy {R} (idOf : R -> Id) (table : list R) (id : Id) : result (list R) :=
  if existsb (fun r => String.eqb (idOf r) id) table
  then Ok (filter (fun r => negb (String.eqb (idOf r) id)) table)
  else Throw (NonexistentDocument id).

(** [for (const x of l) { await step(x) }] over a state, for a step that
    may throw. *)
Fixpoint forEach {A S} (step : S -> A -> result S) (l : list A) (s : S) : result S :=
  match l with
  | [] => Ok s
  | x :: l' => s' <- step s x ;; forEach step l' s'
  end.

(** [s || d] on an optional string: [undefined] and [""] are falsy. *)
Definition orString (s : option string) (d : string) : string :=
  match s with
  | Some (String c r) => String c r
  | _ => d
  end.

End Store.

(* ================================================================= *)
(** * [convex/functions/documents.ts] *)

(** A mutation is a transaction: when it throws, nothing it wrote is
    stored, so a mutation returns either its result with the new tables or
    the error. *)
Module Documents.
Import JS Convex Store.
Open Scope string_scope.

Module CreateArgs.
Record t := {
  airtableId : string;
  title : string;
  content : option string;
  sourceUrl : option string;
  docType : Store.docType;
  fileSize : option number;
  language : option string
}.
End CreateArgs.

(** [createDocument]; [now] is [Date.now()], read once, and [newId] the
    id the platform allots. *)
Definition createDocument (now : Z) (newId : Id) (args : CreateArgs.t) (s : Store.t)
  : Id * Store.t :=
  let row :=
    {| DocumentRow._id := newId;
       DocumentRow.airtableId := CreateArgs.airtableId args;
       DocumentRow.title := CreateArgs.title args;
       DocumentRow.content := CreateArgs.content args;
       DocumentRow.sourceUrl := CreateArgs.sourceUrl args;
       DocumentRow.docType := CreateArgs.docType args;
       DocumentRow.status := New;
       DocumentRow.fileSize := CreateArgs.fileSize args;
       DocumentRow.language := orString (CreateArgs.language args) "en";
       DocumentRow.createdAt := now;
       DocumentRow.updatedAt := now;
       DocumentRow.indexedAt := None;
       DocumentRow.searchText :=
         Some (substring 0 1000
                 (CreateArgs.title args ++ " " ++ orString (CreateArgs.content args) "")) |} in
  (newId, withDocuments s (documents s ++ [row])).

Definition getDocument (s : Store.t) (id : Id) : option DocumentRow.t :=
  getBy DocumentRow._id (documents s) id.

Definition getChunk (s : Store.t) (chunkId : Id) : option ChunkRow.t :=
  getBy ChunkRow._id (chunks s) chunkId.

Module ListArgs.
Record t := {
  limit : option nat;
  cursor : option string;
  status : option docStatus
}.
End ListArgs.

Module Listing.
Record t := {
  documents : list DocumentRow.t;
  nextCursor : option Id
}.
End Listing.

(** [listDocuments], for a limit that is a count.  [args.cursor] is not
    read.  A page of [limit >= 1] documents has a last document. *)
Definition listDocuments (s : Store.t) (args : ListArgs.t) : Listing.t :=
  let limit := match ListArgs.limit args with Some (S n) => S n | _ => 10%nat end in
  let documents :=
    match ListArgs.status args with
    | Some status =>
        take limit (filter (fun d => docStatus_eqb (DocumentRow.status d) status)
                           (documents s))
    | None => take limit (documents s)
    end in
  {| Listing.documents := documents;
     Listing.nextCursor :=
       if Nat.eqb (List.length documents) limit
       then option_map DocumentRow._id (lastElement documents)
       else None |}.

Module StatusArgs.
Record t := {
  documentId : Id;
  status : docStatus;
  indexedAt : option Z
}.
End StatusArgs.

(** [updateDocumentStatus]; [now k] is the [k]-th reading of
    [Date.now()].  An [indexedAt] of [0] is falsy. *)
Definition updateDocumentStatus (now : nat -> Z) (args : StatusArgs.t) (s : Store.t)
  : result Store.t :=
  let truthy := match StatusArgs.indexedAt args with
                | Some t => negb (Z.eqb t 0)
                | None => false
                end in
  let updateData (d : DocumentRow.t) : DocumentRow.t :=
    {| DocumentRow._id := DocumentRow._id d;
       DocumentRow.airtableId := DocumentRow.airtableId d;
       DocumentRow.title := DocumentRow.title d;
       DocumentRow.content := DocumentRow.content d;
       DocumentRow.sourceUrl := DocumentRow.sourceUrl d;
       DocumentRow.docType := DocumentRow.docType d;
       DocumentRow.status := StatusArgs.status args;
       DocumentRow.fileSize := DocumentRow.fileSize d;
       DocumentRow.language := DocumentRow.language d;
       DocumentRow.createdAt := DocumentRow.createdAt d;
       DocumentRow.updatedAt := now 0%nat;
       DocumentRow.indexedAt :=
         if truthy then StatusArgs.indexedAt args
         else if docStatus_eqb (StatusArgs.status args) Indexed then Some (now 1%nat)
         else DocumentRow.indexedAt d;
       DocumentRow.searchText := DocumentRow.searchText d |} in
  documents' <- patchBy DocumentRow._id (documents s) (StatusArgs.documentId args) updateData ;;
  Ok (withDocuments s documents').

Record deletion := {
  deleted : bool;
  chunksDeleted : nat
}.

(** [deleteDocument]: the chunks of the document (the index [by_document]
    yields them in creation order), then the document. *)
Definition deleteDocument (id : Id) (s : Store.t) : result (deletion * Store.t) :=
  let chunks :=
    filter (fun c => String.eqb (ChunkRow.documentId c) id) (Store.chunks s) in
  s1 <- forEach
          (fun s chunk =>
             chunks' <- deleteBy ChunkRow._id (Store.chunks s) (ChunkRow._id chunk) ;;
             Ok (withChunks s chunks'))
          chunks s ;;
  documents' <- deleteBy DocumentRow._id (documents s1) id ;;
  Ok ({| deleted := true; chunksDeleted := List.length chunks |},
      withDocuments s1 documents').

End Documents.

(* ================================================================= *)
(** * The writes of [convex/functions/vectorSearch.ts] *)

Module MemoryWrites.
Import JS Convex Store.
Open Scope float_scope.

Module StoreArgs.
Record t := {
  memoryType : Convex.memoryType;
  content : string;
  embedding : list number;
  embeddingModel : string;
  magnitude : number;
  importanceScore : option number;
  agentId : option string
}.
End StoreArgs.

(** [storeVectorMemory]; [now k] is the [k]-th reading of [Date.now()].
    The magnitude is the one the caller passes. *)
Definition storeVectorMemory (now : nat -> Z) (newId : Id) (args : StoreArgs.t) (s : Store.t)
  : Id * Store.t :=
  let row :=
    {| MemoryRow._id := newId;
       MemoryRow.memoryType := StoreArgs.memoryType args;
       MemoryRow.content := StoreArgs.content args;
       MemoryRow.embedding := StoreArgs.embedding args;
       MemoryRow.embeddingModel := StoreArgs.embeddingModel args;
       MemoryRow.importanceScore := orDefault (StoreArgs.importanceScore args) 0.5;
       MemoryRow.accessCount := 0;
       MemoryRow.lastAccessedAt := now 0%nat;
       MemoryRow.createdAt := now 1%nat;
       MemoryRow.updatedAt := now 2%nat;
       MemoryRow.agentId := StoreArgs.agentId args;
       MemoryRow.confidenceScore := 0.5;
       MemoryRow.magnitude := StoreArgs.magnitude args |} in
  (newId, withVectorMemories s (vectorMemories s ++ [row])).

(** [updateAccessCounts]: [now] is read once; an id without a memory is
    skipped. *)
Definition updateAccessCounts (now : Z) (memoryIds : list Id) (s : Store.t)
  : result Store.t :=
  forEach
    (fun s id =>
       match getBy MemoryRow._id (vectorMemories s) id with
       | Some memory =>
           memories' <-
             patchBy MemoryRow._id (vectorMemories s) id
               (fun m =>
                  {| MemoryRow._id := MemoryRow._id m;
                     MemoryRow.memoryType := MemoryRow.memoryType m;
                     MemoryRow.content := MemoryRow.content m;
                     MemoryRow.embedding := MemoryRow.embedding m;
                     MemoryRow.embeddingModel := MemoryRow.embeddingModel m;
                     MemoryRow.importanceScore := MemoryRow.importanceScore m;
                     MemoryRow.accessCount := MemoryRow.accessCount memory + 1;
                     MemoryRow.lastAccessedAt := now;
                     MemoryRow.createdAt := MemoryRow.createdAt m;
                     MemoryRow.updatedAt := MemoryRow.updatedAt m;
                     MemoryRow.agentId := MemoryRow.agentId m;
                     MemoryRow.confidenceScore := MemoryRow.confidenceScore m;
                     MemoryRow.magnitude := MemoryRow.magnitude m |}) ;;
           Ok (withVectorMemories s memories')
       | None => Ok s
       end)
    memoryIds s.

Module ListArgs.
Record t := {
  memoryType : option Convex.memoryType;
  limit : option nat
}.
End ListArgs.

(** [listVectorMemories], for a limit that is a count. *)
Definition listVectorMemories (s : Store.t) (args : ListArgs.t) : list MemoryRow.t :=
  let limit := match ListArgs.limit args with Some (S n) => S n | _ => 50%nat end in
  match ListArgs.memoryType args with
  | Some mt =>
      take limit (filter (fun m => memoryType_eqb (MemoryRow.memoryType m) mt)
                         (vectorMemories s))
  | None => take limit (vectorMemories s)
  end.

Module ChunkArgs.
Record t := {
  documentId : Id;
  chunkIndex : number;
  content : string;
  embedding : list number;
  embeddingModel : string;
  tokens : option number;
  startChar : option number;
  endChar : option number
}.
End ChunkArgs.

(** [storeChunkWithEmbedding]: the magnitude is computed at storage. *)
Definition storeChunkWithEmbedding (now : Z) (newId : Id) (args : ChunkArgs.t) (s : Store.t)
  : Id * Store.t :=
  let magnitude := reducedMagnitude (ChunkArgs.embedding args) in
  let row :=
    {| ChunkRow._id := newId;
       ChunkRow.documentId := ChunkArgs.documentId args;
       ChunkRow.chunkIndex := ChunkArgs.chunkIndex args;
       ChunkRow.content := ChunkArgs.content args;
       ChunkRow.tokens := ChunkArgs.tokens args;
       ChunkRow.startChar := ChunkArgs.startChar args;
       ChunkRow.endChar := ChunkArgs.endChar args;
       ChunkRow.createdAt := now;
       ChunkRow.embedding := Some (ChunkArgs.embedding args);
       ChunkRow.embeddingModel := Some (ChunkArgs.embeddingModel args);
       ChunkRow.embeddingDimensions := Some (Vectors.lengthNumber (ChunkArgs.embedding args));
       ChunkRow.magnitude := Some magnitude |} in
  (newId, withChunks s (chunks s ++ [row])).

Module ActionArgs.
Record t := {
  embedding : list number;
  limit : option number;
  threshold : option number
}.
End ActionArgs.

(** [vectorSearchAction]: the query, run with the three arguments the
    action takes. *)
Definition vectorSearchAction (ctx : context) (args : ActionArgs.t)
  : result (list VectorSearch.MemoryResult.t) :=
  VectorSearch.vectorSearch ctx
    {| VectorSearch.Args.embedding := ActionArgs.embedding args;
       VectorSearch.Args.memoryType := None;
       VectorSearch.Args.limit := ActionArgs.limit args;
       VectorSearch.Args.threshold := ActionArgs.threshold args;
       VectorSearch.Args.agentId := None |}.

End MemoryWrites.

(* ================================================================= *)
(** * The rest of [convex/functions/vectorSearchV2.ts] *)

Module ChunkEmbeddings.
Import JS Convex VectorSearchV2.
Open Scope float_scope.

(** [batchStoreChunkEmbeddings]: the body of [storeChunkEmbedding], once
    per item; the [k]-th round reads [Date.now()] as [now k] and is
    allotted the id [newId k]. *)
Fixpoint batchLoop (now : nat -> Z) (newId : nat -> Id) (k : nat)
  (embeddings : list StoreArgs.t) (results : list Id) (d : database)
  : result (list Id * database) :=
  match embeddings with
  | [] => Ok (results, d)
  | item :: embeddings' =>
      let magnitude := reducedMagnitude (StoreArgs.embedding item) in
      let inserted :=
        insertChunkEmbedding d
          {| ChunkEmbedding._id := newId k;
             ChunkEmbedding.chunkId := StoreArgs.chunkId item;
             ChunkEmbedding.embedding := StoreArgs.embedding item;
             ChunkEmbedding.magnitude := magnitude;
             ChunkEmbedding.model := StoreArgs.model item;
             ChunkEmbedding.dimensions := StoreArgs.dimensions item;
             ChunkEmbedding.createdAt := now k |} in
      patched <-
        patchChunk inserted (StoreArgs.chunkId item)
          (fun c => {| Chunk._id := Chunk._id c;
                       Chunk.documentId := Chunk.documentId c;
                       Chunk.content := Chunk.content c;
                       Chunk.embedding := Chunk.embedding c;
                       Chunk.embeddingModel := Some (StoreArgs.model item);
                       Chunk.embeddingDimensions := Some (StoreArgs.dimensions item);
                       Chunk.magnitude := Some magnitude |}) ;;
      batchLoop now newId (S k) embeddings' (results ++ [newId k]) patched
  end.

Definition batchStoreChunkEmbeddings (now : nat -> Z) (newId : nat -> Id)
  (embeddings : list StoreArgs.t) (d : database) : result (list Id * database) :=
  batchLoop now newId 0 embeddings [] d.

Module SimilarArgs.
Record t := {
  chunkId : Id;
  limit : option number;
  threshold : option number
}.
End SimilarArgs.

Module Similar.
Record t := {
  results : list Entry.t;
  message : option string;
  sourceModel : option string;
  searchTimeMs : option Z
}.
End Similar.

(** [r.chunk?._id !== chunkId]. *)
Definition notTheChunk (chunkId : Id) (r : Entry.t) : bool :=
  match Entry.chunk r with
  | Some c => negb (String.eqb (Chunk._id c) chunkId)
  | None => true
  end.

(** [getSimilarChunks]: the first embedding of the chunk (the index
    [by_chunk] yields them in creation order), one page of [searchChunksV2]
    on its model, and the source chunk filtered out of that page. *)
Definition getSimilarChunks (ctx : context) (args : SimilarArgs.t) : result Similar.t :=
  let limit := orDefault (SimilarArgs.limit args) 5 in
  let threshold := orDefault (SimilarArgs.threshold args) 0.8 in
  let sourceEmbedding :=
    find (fun emb => String.eqb (ChunkEmbedding.chunkId emb) (SimilarArgs.chunkId args))
         (chunkEmbeddings (db ctx)) in
  match sourceEmbedding with
  | None =>
      Ok {| Similar.results := [];
            Similar.message := Some "No embedding found for this chunk"%string;
            Similar.sourceModel := None;
            Similar.searchTimeMs := None |}
  | Some sourceEmbedding =>
      searchResults <-
        searchChunksV2 ctx
          {| Args.embedding := ChunkEmbedding.embedding sourceEmbedding;
             Args.limit := Some limit;
             Args.threshold := Some threshold;
             Args.cursor := None;
             Args.model := Some (ChunkEmbedding.model sourceEmbedding) |} ;;
      let filtered :=
        filter (notTheChunk (SimilarArgs.chunkId args)) (results searchResults) in
      Ok {| Similar.results := filtered;
            Similar.message := None;
            Similar.sourceModel := Some (ChunkEmbedding.model sourceEmbedding);
            Similar.searchTimeMs := Some (searchTimeMs searchResults) |}
  end.

(** [searchChunksV2Action]: the query, run with the arguments of the
    action. *)
Definition searchChunksV2Action (ctx : context) (args : Args.t) : result page :=
  searchChunksV2 ctx args.

End ChunkEmbeddings.

(* ================================================================= *)
(** * [convex/functions/chunking.ts] *)

(** The numbers a loop counts with: an integer (below [2^53], where the
    arithmetic of numbers is exact), an infinity, or [NaN]. *)
Module Count.
Import JS.

Inductive t := NotANumber | MinusInfinity | Whole (z : Z) | PlusInfinity.

Definition add (a b : t) : t :=
  match a, b with
  | NotANumber, _ | _, NotANumber => NotANumber
  | MinusInfinity, PlusInfinity | PlusInfinity, MinusInfinity => NotANumber
  | MinusInfinity, _ | _, MinusInfinity => MinusInfinity
  | PlusInfinity, _ | _, PlusInfinity => PlusInfinity
  | Whole x, Whole y => Whole (x + y)
  end.

Definition opp (a : t) : t :=
  match a with
  | NotANumber => NotANumber
  | MinusInfinity => PlusInfinity
  | Whole x => Whole (- x)
  | PlusInfinity => MinusInfinity
  end.

Definition sub (a b : t) : t := add a (opp b).

(** [a < b]: false when either is [NaN]. *)
Definition ltb (a b : t) : bool :=
  match a, b with
  | NotANumber, _ | _, NotANumber => false
  | _, MinusInfinity => false
  | MinusInfinity, _ => true
  | PlusInfinity, _ => false
  | _, PlusInfinity => true
  | Whole x, Whole y => (x <? y)%Z
  end.

(** [Math.floor(x)]. *)
Definition floor (x : number) : t :=
  match Prim2SF x with
  | S754_nan => NotANumber
  | S754_infinity s => if s then MinusInfinity else PlusInfinity
  | S754_zero _ => Whole 0
  | S754_finite s m e => Whole (Z.shiftl (cond_Zopp s (Zpos m)) e)
  end.

(** The relative index of [slice]: [NaN] counts as [0]. *)
Definition relativeIndex (len : Z) (a : t) : Z :=
  match a with
  | NotANumber => 0
  | MinusInfinity => 0
  | Whole z => JSArray.relativeIndex len z
  | PlusInfinity => len
  end.

Definition slice {A} (l : list A) (start end_ : t) : list A :=
  let len := Z.of_nat (List.length l) in
  let k := relativeIndex len start in
  let final := relativeIndex len end_ in
  firstn (Z.to_nat (final - k)) (skipn (Z.to_nat k) l).

(** A count as a number. *)
Definition numberOfNat (n : nat) : number := of_uint63 (Uint63.of_Z (Z.of_nat n)).

(** [Math.floor(x)] as a number. *)
Definition floorNumber (x : number) : number :=
  match Prim2SF x with
  | S754_finite s m e =>
      if (e <? 0)%Z
      then SF2Prim (binary_normalize prec emax (Z.shiftl (cond_Zopp s (Zpos m)) e) 0 s)
      else x
  | _ => x
  end.

End Count.

(** The schema of the repository ([convex/schema.ts]) declares the fields
    of each table, and the platform checks every document against it when
    it is written: [ctx.db.insert] throws for a document that does not
    match.  The documents the handlers insert carry the declared fields
    with values of the declared types; the one field whose value is an
    object with fields of its own is [metadata], declared
    [v.optional(v.object({}))] in every table.  The other handlers pass on
    a [metadata] argument that their argument validator has checked
    against the same [v.object({})]; [chunkDocument] builds the object
    itself. *)
Module Schema.
Import JS.

(** A value of a field of such an object. *)
Inductive value :=
| Text (s : string)
| Number (x : number).

(** An object: its fields, as they are written. *)
Definition object := list (string * value).

(** [v.object(declared)] accepts no field it does not declare: the fields
    of [o] that are not declared. *)
Definition undeclared (declared : list string) (o : object) : list string :=
  filter (fun name => negb (existsb (String.eqb name) declared)) (map fst o).

(** [metadata: v.optional(v.object({}))]: no field is declared. *)
Definition metadataFields : list string := [].

(** The fields for which the check of an optional [metadata] fails;
    without a [metadata], and with the empty object, there is none. *)
Definition refusedMetadata (metadata : option object) : list string :=
  match metadata with
  | Some o => undeclared metadataFields o
  | None => []
  end.

End Schema.

Module Chunking.
Import JS Convex Store Count.
Open Scope float_scope.

Definition CHUNK_SIZE : number := 512.
Definition CHUNK_OVERLAP : number := 128.
Definition WORDS_PER_TOKEN : number := 0.75.

(** The white space of [\s] and of [trim] among the code units below
    256: tab, line feed, vertical tab, form feed, carriage return, space
    and no-break space. *)
Definition isSpace (c : ascii) : bool :=
  let n := nat_of_ascii c in
  ((9 <=? n) && (n <=? 13) || (n =? 32) || (n =? 160))%nat.

(** [s.split(/\s+/)]: the words between the runs of white space; a run
    at either end leaves an empty word there.  [inRun] says that the code
    unit before was white space. *)
Fixpoint splitRuns (inRun : bool) (s : string) : list string :=
  match s with
  | EmptyString => [EmptyString]
  | String c s' =>
      if isSpace c then
        if inRun then splitRuns true s' else EmptyString :: splitRuns true s'
      else
        match splitRuns false s' with
        | w :: ws => String c w :: ws
        | [] => [String c EmptyString]
        end
  end.

Definition splitWhitespace (s : string) : list string := splitRuns false s.

Fixpoint trimStart (s : string) : string :=
  match s with
  | String c s' => if isSpace c then trimStart s' else s
  | EmptyString => EmptyString
  end.

(** The end of a string, trimmed: what is left is empty or ends with a
    code unit that is not white space. *)
Fixpoint trimEnd (s : string) : string :=
  match s with
  | String c s' =>
      match trimEnd s' with
      | EmptyString => if isSpace c then EmptyString else String c EmptyString
      | rest => String c rest
      end
  | EmptyString => EmptyString
  end.

Definition trim (s : string) : string := trimEnd (trimStart s).

(** [words.join(" ")]. *)
Definition join (words : list string) : string := String.concat " " words.

Module Args.
Record t := {
  documentId : Id;
  chunkSize : option number;
  chunkOverlap : option number
}.
End Args.

Module Created.
Record t := {
  id : Id;
  index : number;
  tokens : number
}.
End Created.

Module Result.
Record t := {
  documentId : Id;
  chunksCreated : nat;
  chunks : list Created.t
}.
End Result.

(** What a call comes to: it returns, with the tables it leaves; it
    throws "Document not found or has no content"; an insert throws
    because the chunk does not match the schema ([fields] are the fields
    of its [metadata] that the schema does not declare; the message of
    the platform names one); the patch of the document throws; or its
    loop has not ended after the rounds it was given.  A mutation is a
    transaction: when it throws, nothing it wrote is stored. *)
Inductive outcome :=
| Returned (r : Result.t) (s : Store.t)
| NoContent
| SchemaMismatch (fields : list string)
| Failed (e : error)
| Running.

(** What the loop comes to when it ends. *)
Inductive looped :=
| Finished (chunkIndex : nat) (chunks : list Created.t) (s : Store.t)
| Refused (fields : list string).

(** [ctx.db.insert("chunks", {.., metadata})]: the chunk is checked
    against the schema of the table, and appended when it matches. *)
Definition insertChunk (row : ChunkRow.t) (metadata : option Schema.object) (s : Store.t)
  : list string + Store.t :=
  match Schema.refusedMetadata metadata with
  | [] => inr (withChunks s (Store.chunks s ++ [row]))
  | fields => inl fields
  end.

Section Loop.
Variables (now : nat -> Z) (newId : nat -> Id).
Variables (documentId : Id) (words : list string).
Variables (chunkSize chunkOverlap : number).
Variables (wordsPerChunk overlapWords : Count.t).

(** The [metadata] of every chunk. *)
Definition metadata : Schema.object :=
  [ ("chunkingMethod"%string, Schema.Text "word-based");
    ("chunkSize"%string, Schema.Number chunkSize);
    ("chunkOverlap"%string, Schema.Number chunkOverlap) ].

(** [for (let i = 0; i < words.length; i += wordsPerChunk - overlapWords)]:
    [chunkIndex] chunks were inserted so far, the [k]-th with the
    reading [now k] of the clock and under the id [newId k]. *)
Fixpoint chunkLoop (fuel : nat) (i : Count.t) (chunkIndex : nat)
  (chunks : list Created.t) (s : Store.t) : option looped :=
  match fuel with
  | O => None
  | S fuel' =>
      if Count.ltb i (Whole (Z.of_nat (List.length words))) then
        let next := Count.add i (Count.sub wordsPerChunk overlapWords) in
        let chunkWords := Count.slice words i (Count.add i wordsPerChunk) in
        let chunkContent := join chunkWords in
        if Nat.eqb (String.length (trim chunkContent)) 0
        then chunkLoop fuel' next chunkIndex chunks s
        else
          let startChar :=
            (String.length (join (Count.slice words (Whole 0) i))
             + (if Count.ltb (Whole 0) i then 1 else 0))%nat in
          let endChar := (startChar + String.length chunkContent)%nat in
          let tokens :=
            floorNumber (Vectors.lengthNumber chunkWords / WORDS_PER_TOKEN) in
          let row :=
            {| ChunkRow._id := newId chunkIndex;
               ChunkRow.documentId := documentId;
               ChunkRow.chunkIndex := numberOfNat chunkIndex;
               ChunkRow.content := chunkContent;
               ChunkRow.tokens := Some tokens;
               ChunkRow.startChar := Some (numberOfNat startChar);
               ChunkRow.endChar := Some (numberOfNat endChar);
               ChunkRow.createdAt := now chunkIndex;
               ChunkRow.embedding := None;
               ChunkRow.embeddingModel := None;
               ChunkRow.embeddingDimensions := None;
               ChunkRow.magnitude := None |} in
          match insertChunk row (Some metadata) s with
          | inr s' =>
              chunkLoop fuel' next (S chunkIndex)
                (chunks ++ [ {| Created.id := newId chunkIndex;
                                Created.index := numberOfNat chunkIndex;
                                Created.tokens := tokens |} ])
                s'
          | inl fields => Some (Refused fields)
          end
      else Some (Finished chunkIndex chunks s)
  end.
End Loop.

(** [chunkDocument], given [fuel] rounds of its loop.  The last reading
    of the clock stamps the document. *)
Definition chunkDocument (fuel : nat) (now : nat -> Z) (newId : nat -> Id)
  (args : Args.t) (s : Store.t) : outcome :=
  let chunkSize := orDefault (Args.chunkSize args) CHUNK_SIZE in
  let chunkOverlap := orDefault (Args.chunkOverlap args) CHUNK_OVERLAP in
  match getBy DocumentRow._id (documents s) (Args.documentId args) with
  | None => NoContent
  | Some document =>
      match DocumentRow.content document with
      | None | Some EmptyString => NoContent
      | Some content =>
          let words := splitWhitespace content in
          let wordsPerChunk := Count.floor (chunkSize * WORDS_PER_TOKEN) in
          let overlapWords := Count.floor (chunkOverlap * WORDS_PER_TOKEN) in
          match chunkLoop now newId (Args.documentId args) words
                  chunkSize chunkOverlap wordsPerChunk overlapWords
                  fuel (Whole 0) 0 [] s with
          | None => Running
          | Some (Refused fields) => SchemaMismatch fields
          | Some (Finished chunkIndex chunks s1) =>
              match patchBy DocumentRow._id (documents s1) (Args.documentId args)
                      (fun d =>
                         {| DocumentRow._id := DocumentRow._id d;
                            DocumentRow.airtableId := DocumentRow.airtableId d;
                            DocumentRow.title := DocumentRow.title d;
                            DocumentRow.content := DocumentRow.content d;
                            DocumentRow.sourceUrl := DocumentRow.sourceUrl d;
                            DocumentRow.docType := DocumentRow.docType d;
                            DocumentRow.status := Processing;
                            DocumentRow.fileSize := DocumentRow.fileSize d;
                            DocumentRow.language := DocumentRow.language d;
                            DocumentRow.createdAt := DocumentRow.createdAt d;
                            DocumentRow.updatedAt := now chunkIndex;
                            DocumentRow.indexedAt := DocumentRow.indexedAt d;
                            DocumentRow.searchText := DocumentRow.searchText d |}) with
              | Ok documents' =>
                  Returned {| Result.documentId := Args.documentId args;
                              Result.chunksCreated := List.length chunks;
                              Result.chunks := chunks |}
                           (withDocuments s1 documents')
              | Throw e => Failed e
              end
          end
      end
  end.

(** [deleteDocumentChunks]: the embeddings of the chunks of the document
    first, then the chunks. *)
Definition deleteDocumentChunks (documentId : Id) (s : Store.t) : result (nat * Store.t) :=
  let chunks :=
    filter (fun c => String.eqb (ChunkRow.documentId c) documentId) (Store.chunks s) in
  s1 <- forEach
          (fun s chunk =>
             let embeddings :=
               filter (fun e => String.eqb (ChunkEmbedding.chunkId e) (ChunkRow._id chunk))
                      (Store.chunkEmbeddings s) in
             forEach
               (fun s embedding =>
                  embeddings' <- deleteBy ChunkEmbedding._id (Store.chunkEmbeddings s)
                                   (ChunkEmbedding._id embedding) ;;
                  Ok (withChunkEmbeddings s embeddings'))
               embeddings s)
          chunks s ;;
  s2 <- forEach
          (fun s chunk =>
             chunks' <- deleteBy ChunkRow._id (Store.chunks s) (ChunkRow._id chunk) ;;
             Ok (withChunks s chunks'))
          chunks s1 ;;
  Ok (List.length chunks, s2).

End Chunking.

(* ================================================================= *)
(** * Vocabulary of the further properties *)

Module Notions.
Import JS Vectors Convex.
Open Scope list_scope.

(** The entry at [i] is [NaN]. *)
Definition nanAt (i : nat) (l : list number) : Prop :=
  exists x, nth_error l i = Some x /\ is_nan x = true.

(** [r] is the scanned document [doc] with the similarity the handlers
    compute for it from its stored magnitude. *)
Definition scoredAs {A} (embeddingOf : A -> vector) (magnitudeOf : A -> number)
  (query : vector) (doc : A) (r : Ranked.t A) : Prop :=
  Ranked.item r = doc
  /\ cosineSimilarityWithMagnitude query (embeddingOf doc)
       (reducedMagnitude query) (magnitudeOf doc)
     = Ok (Ranked.similarity r).

(** The entry of a ranked embedding, with its chunk and the document of
    that chunk looked up one by one. *)
Definition joined (d : database) (r : Ranked.t ChunkEmbedding.t) : VectorSearchV2.Entry.t :=
  let chunk := getChunk d (ChunkEmbedding.chunkId (Ranked.item r)) in
  {| VectorSearchV2.Entry.chunk := chunk;
     VectorSearchV2.Entry.similarity := Ranked.similarity r;
     VectorSearchV2.Entry.document :=
       match chunk with
       | Some c => getDocument d (Chunk.documentId c)
       | None => None
       end;
     VectorSearchV2.Entry.embeddingId := ChunkEmbedding._id (Ranked.item r) |}.

(** A chunk [searchChunks] scores: it has an embedding and a truthy
    magnitude. *)
Definition scorable (c : Chunk.t) : bool :=
  match Chunk.embedding c, Chunk.magnitude c with
  | Some _, Some m => ToBoolean m
  | _, _ => false
  end.

Definition embeddingOfChunk (c : Chunk.t) : vector :=
  match Chunk.embedding c with Some e => e | None => [] end.

Definition magnitudeOfChunk (c : Chunk.t) : number :=
  match Chunk.magnitude c with Some m => m | None => 0%float end.

(** The result of a ranked chunk, with its document looked up. *)
Definition joinedChunk (d : database) (r : Ranked.t Chunk.t) : VectorSearch.ChunkResult.t :=
  {| VectorSearch.ChunkResult.chunk := Ranked.item r;
     VectorSearch.ChunkResult.similarity := Ranked.similarity r;
     VectorSearch.ChunkResult.document := getDocument d (Chunk.documentId (Ranked.item r)) |}.

(** The single stores a batch stands for: [storeChunkEmbedding] once per
    item, the [k]-th with the reading [now k] and the id [newId k], each
    on the tables the one before left. *)
Fixpoint storeEach (now : nat -> Z) (newId : nat -> Id) (k : nat)
  (embeddings : list VectorSearchV2.StoreArgs.t) (d : database)
  : result (list Id * database) :=
  match embeddings with
  | [] => Ok ([], d)
  | item :: embeddings' =>
      stored <- VectorSearchV2.storeChunkEmbedding (now k) (newId k) item d ;;
      rest <- storeEach now newId (S k) embeddings' (snd stored) ;;
      Ok (fst stored :: fst rest, snd rest)
  end.

(** The chunk of an id exists. *)
Definition hasChunk (d : database) (id : Id) : bool :=
  existsb (fun c => String.eqb (Chunk._id c) id) (chunks d).

(** Referential integrity of the embeddings: every stored embedding is
    the embedding of a stored chunk. *)
Definition noOrphans (s : Store.t) : Prop :=
  Forall (fun emb => Store.hasId Store.ChunkRow._id (Store.chunks s)
                       (ChunkEmbedding.chunkId emb) = true)
         (Store.chunkEmbeddings s).

(** A memory after [n] accesses at [now]: untouched when [n = 0], else
    counted [n] times and stamped. *)
Definition accessed (now : Z) (n : nat) (m : Store.MemoryRow.t) : Store.MemoryRow.t :=
  match n with
  | O => m
  | S _ =>
      {| Store.MemoryRow._id := Store.MemoryRow._id m;
         Store.MemoryRow.memoryType := Store.MemoryRow.memoryType m;
         Store.MemoryRow.content := Store.MemoryRow.content m;
         Store.MemoryRow.embedding := Store.MemoryRow.embedding m;
         Store.MemoryRow.embeddingModel := Store.MemoryRow.embeddingModel m;
         Store.MemoryRow.importanceScore := Store.MemoryRow.importanceScore m;
         Store.MemoryRow.accessCount :=
           Nat.iter n (fun count => (count + 1)%float) (Store.MemoryRow.accessCount m);
         Store.MemoryRow.lastAccessedAt := now;
         Store.MemoryRow.createdAt := Store.MemoryRow.createdAt m;
         Store.MemoryRow.updatedAt := Store.MemoryRow.updatedAt m;
         Store.MemoryRow.agentId := Store.MemoryRow.agentId m;
         Store.MemoryRow.confidenceScore := Store.MemoryRow.confidenceScore m;
         Store.MemoryRow.magnitude := Store.MemoryRow.magnitude m |}
  end.

(** ** The chunks of a document *)

Section Windows.
Variables (words : list string) (wordsPerChunk : Z).

(** The words a chunk that starts at word [i] takes. *)
Definition windowAt (i : Z) : list string :=
  Count.slice words (Count.Whole i) (Count.Whole (i + wordsPerChunk)).

(** A chunk without content, which the loop skips. *)
Definition blank (chunkWords : list string) : bool :=
  Nat.eqb (String.length (Chunking.trim (Chunking.join chunkWords))) 0.

(** The first [n] starts of the loop from [i] on, [step] apart. *)
Fixpoint starts (n : nat) (i step : Z) : list Z :=
  match n with
  | O => []
  | S n' => i :: starts n' (i + step) step
  end.

(** The starts whose chunk has content. *)
Definition kept (n : nat) (i step : Z) : list Z :=
  filter (fun i => negb (blank (windowAt i))) (starts n i step).

(** The number of rounds of the loop from [i] on: [ceil((len - i) / step)]. *)
Definition rounds (i step : Z) : nat :=
  Z.to_nat ((Z.max (Z.of_nat (List.length words) - i) 0 + step - 1) / step).
End Windows.


(** The result of a ranked memory. *)
Definition memoryResult (r : Ranked.t VectorMemory.t) : VectorSearch.MemoryResult.t :=
  {| VectorSearch.MemoryResult.document := Ranked.item r;
     VectorSearch.MemoryResult.similarity := Ranked.similarity r;
     VectorSearch.MemoryResult.documentId := VectorMemory._id (Ranked.item r) |}.

End Notions.

(* ================================================================= *)
(** * More sample data *)

Module Cases.
Import JS Vectors Convex.
Open Scope float_scope.
Open Scope string_scope.

Definition document (id : Id) : Document.t :=
  {| Document._id := id; Document.title := "Vector search" |}.

Definition embeddedChunk (id documentId : Id) (e : list number) (m : option number)
  : Chunk.t :=
  {| Chunk._id := id;
     Chunk.documentId := documentId;
     Chunk.content := "text";
     Chunk.embedding := Some e;
     Chunk.embeddingModel := Some "voyage-3.5";
     Chunk.embeddingDimensions := Some (lengthNumber e);
     Chunk.magnitude := m |}.

(** A document with three chunks: one embedded with its magnitude, one
    with a zero embedding, one without an embedding; and the embedding of
    a chunk that no longer exists. *)
Definition library : context :=
  Samples.runningOn
    {| documents := [document "d1"];
       chunks := [ embeddedChunk "c1" "d1" [3; 4] (Some 5);
                   embeddedChunk "c2" "d1" [0; 0] (Some 0);
                   Samples.chunkNo 3;
                   embeddedChunk "c4" "d9" [4; 3] (Some 5) ];
       chunkEmbeddings := [ Samples.stored "e1" 5 [3; 4] 5;
                            Samples.stored "e2" 6 [4; 3] 5 ];
       vectorMemories := [] |}.

(** What a call of [storeChunkEmbedding] is given for the chunk [i] of
    [Samples.chunksOnly]. *)
Definition item (i : nat) (e : list number) : VectorSearchV2.StoreArgs.t :=
  {| VectorSearchV2.StoreArgs.chunkId := "ce" ++ numberToString (Z.of_nat i);
     VectorSearchV2.StoreArgs.embedding := e;
     VectorSearchV2.StoreArgs.model := "voyage-3.5";
     VectorSearchV2.StoreArgs.dimensions := lengthNumber e |}.

Definition twoItems : list VectorSearchV2.StoreArgs.t :=
  [item 1 [3; 4]; item 2 [1; 0]].

(** The readings of the clock and the ids the platform allots, round
    by round. *)
Definition clock (k : nat) : Z := 1000 + Z.of_nat k.

Definition allotted (k : nat) : Id := "e" ++ numberToString (Z.of_nat k).

(** A stored document with the given content. *)
Definition paper (id : Id) (content : string) : Store.DocumentRow.t :=
  {| Store.DocumentRow._id := id;
     Store.DocumentRow.airtableId := "rec1";
     Store.DocumentRow.title := "Vector search";
     Store.DocumentRow.content := Some content;
     Store.DocumentRow.sourceUrl := None;
     Store.DocumentRow.docType := Store.Text;
     Store.DocumentRow.status := Store.New;
     Store.DocumentRow.fileSize := None;
     Store.DocumentRow.language := "en";
     Store.DocumentRow.createdAt := 900;
     Store.DocumentRow.updatedAt := 900;
     Store.DocumentRow.indexedAt := None;
     Store.DocumentRow.searchText := None |}.

Definition piece (id documentId : Id) : Store.ChunkRow.t :=
  {| Store.ChunkRow._id := id;
     Store.ChunkRow.documentId := documentId;
     Store.ChunkRow.chunkIndex := 0;
     Store.ChunkRow.content := "text";
     Store.ChunkRow.tokens := None;
     Store.ChunkRow.startChar := None;
     Store.ChunkRow.endChar := None;
     Store.ChunkRow.createdAt := 950;
     Store.ChunkRow.embedding := None;
     Store.ChunkRow.embeddingModel := None;
     Store.ChunkRow.embeddingDimensions := None;
     Store.ChunkRow.magnitude := None |}.

Definition note (id : Id) (e : list number) (m : number) : Store.MemoryRow.t :=
  {| Store.MemoryRow._id := id;
     Store.MemoryRow.memoryType := semantic;
     Store.MemoryRow.content := "note";
     Store.MemoryRow.embedding := e;
     Store.MemoryRow.embeddingModel := "voyage-3.5";
     Store.MemoryRow.importanceScore := 0.5;
     Store.MemoryRow.accessCount := 0;
     Store.MemoryRow.lastAccessedAt := 900;
     Store.MemoryRow.createdAt := 900;
     Store.MemoryRow.updatedAt := 900;
     Store.MemoryRow.agentId := None;
     Store.MemoryRow.confidenceScore := 0.5;
     Store.MemoryRow.magnitude := m |}.

(** Two documents; the first has two chunks, each with an embedding, the
    second one chunk; and two memories. *)
Definition shelf : Store.t :=
  {| Store.documents := [paper "d1" "a b c d e"; paper "d2" "x y"];
     Store.chunks := [piece "ce1" "d1"; piece "ce2" "d1"; piece "ce3" "d2"];
     Store.chunkEmbeddings := [Samples.stored "e1" 960 [3; 4] 5;
                               Samples.stored "e2" 961 [4; 3] 5;
                               Samples.stored "e3" 962 [1; 0] 1];
     Store.vectorMemories := [note "m1" [1; 0] 1; note "m2" [0; 1] 1] |}.

(** A document whose content is white space only. *)
Definition margin : Store.t :=
  {| Store.documents := [paper "d3" "  "];
     Store.chunks := [piece "ce9" "d3"];
     Store.chunkEmbeddings := [];
     Store.vectorMemories := [] |}.

(** A document submitted without a language. *)
Definition submission : Documents.CreateArgs.t :=
  {| Documents.CreateArgs.airtableId := "rec9";
     Documents.CreateArgs.title := "Chunking";
     Documents.CreateArgs.content := Some "one two";
     Documents.CreateArgs.sourceUrl := None;
     Documents.CreateArgs.docType := Store.Markdown;
     Documents.CreateArgs.fileSize := None;
     Documents.CreateArgs.language := None |}.

(** A memory stored with a magnitude of [0]. *)
Definition flatMemory : MemoryWrites.StoreArgs.t :=
  {| MemoryWrites.StoreArgs.memoryType := semantic;
     MemoryWrites.StoreArgs.content := "note";
     MemoryWrites.StoreArgs.embedding := [1; 0];
     MemoryWrites.StoreArgs.embeddingModel := "voyage-3.5";
     MemoryWrites.StoreArgs.magnitude := 0;
     MemoryWrites.StoreArgs.importanceScore := Some 0;
     MemoryWrites.StoreArgs.agentId := None |}.

Definition chunkSearch (e : list number) : VectorSearch.ChunkArgs.t :=
  {| VectorSearch.ChunkArgs.embedding := e;
     VectorSearch.ChunkArgs.limit := None;
     VectorSearch.ChunkArgs.threshold := None |}.

End Cases.
(* ================================================================= *)
(** * The order of binary64 numbers

    The comparator of every ranking, [b.similarity - a.similarity], orders
    two numbers by the sign of a rounded difference.  This part shows
    from the [SpecFloat] specification that the sign is right: on numbers
    other than [NaN] the difference is positive exactly when the operands
    are strictly ordered, because rounding (gradual underflow included)
    never turns a non-zero difference into a zero. *)

Module SFOrder.
Import Spec.
Open Scope Z_scope.

Lemma prec_val : prec = 53. Proof. reflexivity. Qed.
Lemma emax_val : emax = 1024. Proof. reflexivity. Qed.
Lemma emin_val : SpecFloat.emin prec emax = -1074. Proof. reflexivity. Qed.

Lemma fexp_val k : fexp prec emax k = Z.max (k - 53) (-1074).
Proof. reflexivity. Qed.

Lemma digits2_size (m : positive) : digits2_pos m = Pos.size m.
Proof. induction m; simpl; congruence. Qed.

Lemma digits_bounds (m : positive) :
  2 ^ (Zpos (digits2_pos m) - 1) <= Zpos m < 2 ^ Zpos (digits2_pos m).
Proof.
  rewrite digits2_size.
  pose proof (Pos.size_gt m) as Hgt.
  pose proof (Pos.size_le m) as Hle.
  split.
  - assert (H : (2 ^ Pos.size m <= 2 * m)%positive) by exact Hle.
    apply Pos2Z.pos_le_pos in H. rewrite Pos2Z.inj_mul, Pos2Z.inj_pow in H.
    replace (Zpos (Pos.size m)) with (Zpos (Pos.size m) - 1 + 1) in H by lia.
    rewrite Z.pow_add_r in H by lia. lia.
  - apply Pos2Z.pos_lt_pos in Hgt. rewrite Pos2Z.inj_pow in Hgt. exact Hgt.
Qed.

(** What validity says of a finite binary64 value. *)
Lemma bounded_inv (m : positive) (e : Z) :
  bounded prec emax m e = true ->
  -1074 <= e <= 971 /\ Zpos m < 2 ^ 53 /\ (-1074 < e -> 2 ^ 52 <= Zpos m).
Proof.
  unfold bounded, canonical_mantissa. rewrite andb_true_iff, Z.eqb_eq, Z.leb_le, fexp_val.
  intros [Hc He]. change (emax - prec) with 971 in He.
  pose proof (digits_bounds m) as [Hlo Hhi].
  set (d := Zpos (digits2_pos m)) in *.
  assert (Hd : 0 < d) by (unfold d; lia).
  split; [lia|]. split.
  - assert (d <= 53) by lia.
    eapply Z.lt_le_trans; [exact Hhi|]. apply Z.pow_le_mono_r; lia.
  - intros Hgt. assert (d = 53) by lia.
    replace 52 with (d - 1) by lia. exact Hlo.
Qed.

Lemma finite_ordZ_bounds (m : positive) (e : Z) :
  bounded prec emax m e = true ->
  0 < Zpos m * 2 ^ (e + 1074) < 2 ^ 2098.
Proof.
  intros H. apply bounded_inv in H. destruct H as (He & Hm & _).
  assert (Hp : 0 < 2 ^ (e + 1074)) by (apply Z.pow_pos_nonneg; lia).
  split; [lia|].
  assert (Hq : 2 ^ (e + 1074) <= 2 ^ 2045) by (apply Z.pow_le_mono_r; lia).
  replace (2 ^ 2098) with (2 ^ 53 * 2 ^ 2045) by (rewrite <- Z.pow_add_r by lia; reflexivity).
  nia.
Qed.

Lemma lower_exponent_smaller (m1 m2 : positive) (e1 e2 : Z) :
  bounded prec emax m1 e1 = true -> bounded prec emax m2 e2 = true ->
  e1 < e2 -> Zpos m1 * 2 ^ (e1 + 1074) < Zpos m2 * 2 ^ (e2 + 1074).
Proof.
  intros H1 H2 Hlt.
  apply bounded_inv in H1. destruct H1 as (He1 & Hm1 & _).
  apply bounded_inv in H2. destruct H2 as (He2 & _ & Hm2).
  specialize (Hm2 ltac:(lia)).
  replace (e2 + 1074) with ((e1 + 1074) + (e2 - e1)) by lia.
  rewrite (Z.pow_add_r 2 (e1 + 1074) (e2 - e1)) by lia.
  assert (Hp : 0 < 2 ^ (e1 + 1074)) by (apply Z.pow_pos_nonneg; lia).
  assert (Hq : 2 ^ 1 <= 2 ^ (e2 - e1)) by (apply Z.pow_le_mono_r; lia).
  change (2 ^ 1) with 2 in Hq.
  change (2 ^ 53) with (2 * 2 ^ 52) in Hm1.
  generalize dependent (2 ^ (e1 + 1074)). generalize dependent (2 ^ (e2 - e1)).
  generalize dependent (2 ^ 52). intros K HK1 HK2 B HB A HA.
  apply Z.lt_le_trans with (2 * K * A); [nia|].
  apply Z.le_trans with (Zpos m2 * A * 2); [nia|].
  rewrite Z.mul_assoc. apply Z.mul_le_mono_nonneg_l; nia.
Qed.

Lemma compare_finite_pos (m1 m2 : positive) (e1 e2 : Z) :
  bounded prec emax m1 e1 = true -> bounded prec emax m2 e2 = true ->
  match e1 ?= e2 with
  | Lt => Lt
  | Gt => Gt
  | Eq => Pos.compare_cont Eq m1 m2
  end = (Zpos m1 * 2 ^ (e1 + 1074) ?= Zpos m2 * 2 ^ (e2 + 1074)).
Proof.
  intros H1 H2. symmetry.
  destruct (Z.compare_spec e1 e2) as [Heq|Hlt|Hgt].
  - subst e2. fold (Pos.compare m1 m2).
    assert (Hp : 0 < 2 ^ (e1 + 1074)).
    { apply Z.pow_pos_nonneg; [lia|]. pose proof (bounded_inv _ _ H1). lia. }
    destruct (Pos.compare_spec m1 m2) as [->|Hl|Hg].
    + apply Z.compare_refl.
    + apply Z.compare_lt_iff. apply Z.mul_lt_mono_pos_r; lia.
    + apply Z.compare_gt_iff. apply Z.mul_lt_mono_pos_r; lia.
  - apply Z.compare_lt_iff. now apply lower_exponent_smaller.
  - apply Z.compare_gt_iff. now apply lower_exponent_smaller.
Qed.

(** On valid values other than NaN, [SFcompare] is the comparison of the
    integer images. *)
Lemma SFcompare_ordZ (x y : spec_float) :
  valid_binary x = true -> valid_binary y = true -> notNaN x -> notNaN y ->
  SFcompare x y = Some (ordZ x ?= ordZ y).
Proof.
  intros Vx Vy Nx Ny.
  destruct x as [sx|sx| |sx mx ex]; try (exfalso; apply Nx; reflexivity);
  destruct y as [sy|sy| |sy my ey]; try (exfalso; apply Ny; reflexivity);
  simpl in Vx, Vy;
  try pose proof (finite_ordZ_bounds _ _ Vx) as Bx;
  try pose proof (finite_ordZ_bounds _ _ Vy) as By;
  cbn [SFcompare ordZ]; f_equal; symmetry.
  all: try (destruct sx; destruct sy; cbn [cond_Zopp];
            first [ reflexivity
                  | apply Z.compare_lt_iff; lia
                  | apply Z.compare_gt_iff; lia ]).
  all: try (destruct sx; cbn [cond_Zopp];
            first [ reflexivity
                  | apply Z.compare_lt_iff; lia
                  | apply Z.compare_gt_iff; lia ]).
  all: try (destruct sy; cbn [cond_Zopp];
            first [ reflexivity
                  | apply Z.compare_lt_iff; lia
                  | apply Z.compare_gt_iff; lia ]).
  (* two finite values of equal sign *)
  destruct sx, sy; cbn [cond_Zopp];
    try (apply Z.compare_lt_iff; lia); try (apply Z.compare_gt_iff; lia).
  - rewrite Z.compare_opp. rewrite <- (compare_finite_pos my mx ey ex Vy Vx).
    rewrite (Z.compare_antisym ex ey).
    destruct (ex ?= ey); simpl; try reflexivity.
    exact (Pos.compare_antisym mx my).
  - symmetry. now apply compare_finite_pos.
Qed.

(** ** Rounding never turns a non-zero value into a zero *)

Lemma shr_1_m (mrs : shr_record) :
  0 <= shr_m mrs -> shr_m (shr_1 mrs) = shr_m mrs / 2.
Proof.
  destruct mrs as [m r s]. simpl. intros Hm.
  destruct m as [|p|p]; try lia; [reflexivity|].
  destruct p as [p|p|]; simpl.
  - rewrite Pos2Z.inj_xI. apply Z.div_unique with 1; lia.
  - rewrite Pos2Z.inj_xO. apply Z.div_unique with 0; lia.
  - reflexivity.
Qed.

Lemma iter_shr_1_m (p : positive) : forall mrs : shr_record,
  0 <= shr_m mrs ->
  shr_m (iter_pos shr_1 p mrs) = shr_m mrs / 2 ^ Zpos p.
Proof.
  induction p as [p IH|p IH|]; intros mrs Hm; simpl iter_pos.
  - assert (H1 : 0 <= shr_m (shr_1 mrs)).
    { rewrite shr_1_m by assumption. apply Z.div_pos; lia. }
    assert (H2 : 0 <= shr_m (iter_pos shr_1 p (shr_1 mrs))).
    { rewrite IH by assumption. apply Z.div_pos; [assumption|]. apply Z.pow_pos_nonneg; lia. }
    rewrite IH, IH, shr_1_m by assumption.
    rewrite !Z.div_div by (try apply Z.pow_pos_nonneg; lia).
    f_equal. rewrite (Pos2Z.inj_xI p).
    replace (2 * Zpos p + 1) with (1 + Zpos p + Zpos p) by lia.
    rewrite !Z.pow_add_r by lia. lia.
  - assert (H2 : 0 <= shr_m (iter_pos shr_1 p mrs)).
    { rewrite IH by assumption. apply Z.div_pos; [assumption|]. apply Z.pow_pos_nonneg; lia. }
    rewrite IH, IH by assumption.
    rewrite !Z.div_div by (try apply Z.pow_pos_nonneg; lia).
    f_equal. rewrite (Pos2Z.inj_xO p).
    replace (2 * Zpos p) with (Zpos p + Zpos p) by lia.
    rewrite !Z.pow_add_r by lia. lia.
  - rewrite shr_1_m by assumption. reflexivity.
Qed.

Lemma shr_record_of_loc_m (m : Z) (l : location) : shr_m (shr_record_of_loc m l) = m.
Proof. destruct l as [|[]]; reflexivity. Qed.

(** The first rounding step keeps a positive mantissa positive, and the
    exponent above the least one. *)
Lemma shr_fexp_pos (m e : Z) (l : location) :
  0 < m -> -1074 <= e ->
  0 < shr_m (fst (shr_fexp prec emax m e l)) /\ -1074 <= snd (shr_fexp prec emax m e l).
Proof.
  intros Hm He. unfold shr_fexp, shr. rewrite fexp_val.
  destruct m as [|p|p]; try lia. cbn [Zdigits2].
  pose proof (digits_bounds p) as [Hlo _].
  set (d := Zpos (digits2_pos p)) in *.
  destruct (Z.max (d + e - 53) (-1074) - e) as [|n|n] eqn:En; cbn [fst snd];
    rewrite ?shr_record_of_loc_m; try (split; lia).
  assert (Hn : Zpos n = d - 53) by lia.
  rewrite iter_shr_1_m by (rewrite shr_record_of_loc_m; lia).
  rewrite shr_record_of_loc_m. split; [|lia].
  apply Z.lt_le_trans with (2 ^ 52); [reflexivity|].
  apply Z.div_le_lower_bound; [apply Z.pow_pos_nonneg; lia|].
  rewrite <- Z.pow_add_r by lia.
  replace (Zpos n + 52) with (d - 1) by lia. exact Hlo.
Qed.

Lemma round_nearest_even_ge (m : Z) (l : location) : m <= round_nearest_even m l.
Proof. destruct l as [|[]]; simpl; try lia. destruct (Z.even m); lia. Qed.

Lemma binary_round_aux_signed (s : bool) (m e : Z) (l : location) :
  0 < m -> -1074 <= e -> signedNonzero s (binary_round_aux prec emax s m e l).
Proof.
  intros Hm He. unfold binary_round_aux.
  pose proof (shr_fexp_pos m e l Hm He) as [H1 H2].
  destruct (shr_fexp prec emax m e l) as [mrs' e']. cbn [fst snd] in H1, H2.
  pose proof (round_nearest_even_ge (shr_m mrs') (loc_of_shr_record mrs')) as Hr.
  set (m1 := round_nearest_even (shr_m mrs') (loc_of_shr_record mrs')) in *.
  pose proof (shr_fexp_pos m1 e' loc_Exact ltac:(lia) H2) as [H3 _].
  destruct (shr_fexp prec emax m1 e' loc_Exact) as [mrs'' e'']. cbn [fst snd] in H3.
  destruct (shr_m mrs'') as [|q|q]; try lia.
  destruct (e'' <=? emax - prec); reflexivity.
Qed.

Lemma shl_align_fst (m : positive) (e ez : Z) :
  ez <= e -> Zpos (fst (shl_align m e ez)) = Zpos m * 2 ^ (e - ez).
Proof.
  intros Hle. unfold shl_align.
  destruct (ez - e) as [|d|d] eqn:Ed; cbn [fst]; try lia.
  - replace (e - ez) with 0 by lia. lia.
  - change (Pos.iter xO m d) with (shift_pos d m).
    rewrite shift_pos_correct. change (Z.pow_pos 2 d) with (2 ^ Zpos d).
    replace (e - ez) with (Zpos d) by lia. lia.
Qed.

Lemma shl_align_snd_ge (m : positive) (e ez : Z) :
  -1074 <= e -> -1074 <= ez -> -1074 <= snd (shl_align m e ez).
Proof.
  intros. unfold shl_align. destruct (ez - e); cbn [snd]; lia.
Qed.

Lemma binary_round_signed (s : bool) (m : positive) (e : Z) :
  -1074 <= e -> signedNonzero s (binary_round prec emax s m e).
Proof.
  intros He. unfold binary_round.
  pose proof (shl_align_snd_ge m e (fexp prec emax (Zpos (digits2_pos m) + e)) He) as Hs.
  rewrite fexp_val in *.
  destruct (shl_align m e _) as [mz ez]. cbn [snd] in Hs.
  apply binary_round_aux_signed; lia.
Qed.

(** [binary_normalize] of an integer [d] is a zero when [d = 0] and has
    the sign of [d] otherwise. *)
Lemma binary_normalize_sign (d e : Z) :
  -1074 <= e ->
  match d with
  | Z0 => binary_normalize prec emax d e false = S754_zero false
  | Zpos _ => signedNonzero false (binary_normalize prec emax d e false)
  | Zneg _ => signedNonzero true (binary_normalize prec emax d e false)
  end.
Proof.
  intros He. destruct d; cbn [binary_normalize]; auto using binary_round_signed.
Qed.

Lemma SFltb_zero_signed (s : bool) (r : spec_float) :
  signedNonzero s r -> SFltb (S754_zero false) r = negb s.
Proof.
  destruct r as [| s' | | s' m e]; simpl; try contradiction;
    intros ->; destruct s; reflexivity.
Qed.

Lemma cond_Zopp_mul (s : bool) (a b : Z) : cond_Zopp s a * b = cond_Zopp s (a * b).
Proof. destruct s; simpl; lia. Qed.

(** ** The sign of a difference is the order of its operands *)
Lemma SFsub_positive (x y : spec_float) :
  valid_binary x = true -> valid_binary y = true -> notNaN x -> notNaN y ->
  SFltb (S754_zero false) (SFsub prec emax y x) = (ordZ x <? ordZ y).
Proof.
  intros Vx Vy Nx Ny.
  destruct x as [sx|sx| |sx mx ex]; try (exfalso; apply Nx; reflexivity);
  destruct y as [sy|sy| |sy my ey]; try (exfalso; apply Ny; reflexivity);
  simpl in Vx, Vy;
  try pose proof (finite_ordZ_bounds _ _ Vx) as Bx;
  try pose proof (finite_ordZ_bounds _ _ Vy) as By.
  all: try (destruct sx; destruct sy; cbn [SFsub SFltb SFcompare ordZ cond_Zopp negb]; symmetry;
            first [ reflexivity | apply Z.ltb_lt; lia | apply Z.ltb_ge; lia ]).
  all: try (destruct sx; cbn [SFsub SFltb SFcompare ordZ cond_Zopp negb]; symmetry;
            first [ reflexivity | apply Z.ltb_lt; lia | apply Z.ltb_ge; lia ]).
  all: try (destruct sy; cbn [SFsub SFltb SFcompare ordZ cond_Zopp negb]; symmetry;
            first [ reflexivity | apply Z.ltb_lt; lia | apply Z.ltb_ge; lia ]).
  (* two finite values *)
  pose proof (bounded_inv _ _ Vx) as (Hex & _ & _).
  pose proof (bounded_inv _ _ Vy) as (Hey & _ & _).
  cbn [SFsub ordZ].
  set (ez := Z.min ey ex).
  rewrite (shl_align_fst my ey ez), (shl_align_fst mx ex ez) by (unfold ez; lia).
  set (d := cond_Zopp sy (Zpos my * 2 ^ (ey - ez)) - cond_Zopp sx (Zpos mx * 2 ^ (ex - ez))).
  assert (Hk : 0 < 2 ^ (ez + 1074)) by (apply Z.pow_pos_nonneg; unfold ez; lia).
  assert (Hd : cond_Zopp sy (Zpos my * 2 ^ (ey + 1074))
               - cond_Zopp sx (Zpos mx * 2 ^ (ex + 1074)) = d * 2 ^ (ez + 1074)).
  { unfold d. rewrite Z.mul_sub_distr_r, !cond_Zopp_mul, <- !Z.mul_assoc.
    rewrite <- !Z.pow_add_r by (unfold ez; lia).
    replace (ey - ez + (ez + 1074)) with (ey + 1074) by lia.
    replace (ex - ez + (ez + 1074)) with (ex + 1074) by lia. reflexivity. }
  pose proof (binary_normalize_sign d ez ltac:(unfold ez; lia)) as Hn.
  destruct d as [|p|p].
  - rewrite Hn. cbn [SFltb SFcompare]. symmetry. apply Z.ltb_ge. lia.
  - rewrite (SFltb_zero_signed _ _ Hn). cbn [negb]. symmetry. apply Z.ltb_lt. nia.
  - rewrite (SFltb_zero_signed _ _ Hn). cbn [negb]. symmetry. apply Z.ltb_ge. nia.
Qed.
End SFOrder.

(** The same facts on primitive floats. *)
Module NumberOrder.
Import JS Spec SFOrder.
Open Scope float_scope.

Lemma is_nan_false (x : number) : is_nan x = false <-> notNaN (Prim2SF x).
Proof.
  unfold is_nan, notNaN. rewrite eqb_spec. unfold SFeqb.
  pose proof (Prim2SF_valid x) as V.
  destruct (Prim2SF x) as [s|s| |s m e] eqn:E.
  1,2,4: rewrite (SFcompare_ordZ _ _ V V) by discriminate;
         rewrite Z.compare_refl; simpl; split; [discriminate | reflexivity].
  simpl. split; [discriminate | intros H; now contradiction H].
Qed.

Lemma is_nan_true (x : number) : is_nan x = true -> Prim2SF x = S754_nan.
Proof.
  intros H. destruct (Prim2SF x) as [s|s| |s m e] eqn:E; try reflexivity;
    assert (F : is_nan x = false) by (apply is_nan_false; rewrite E; discriminate);
    congruence.
Qed.

Section Comparisons.
Variables x y : number.
Hypothesis (Nx : is_nan x = false) (Ny : is_nan y = false).

Lemma compare_rank :
  SFcompare (Prim2SF x) (Prim2SF y) = Some (rank x ?= rank y)%Z.
Proof.
  apply SFcompare_ordZ; auto using Prim2SF_valid; now apply is_nan_false.
Qed.

Lemma ltb_rank : (x <? y) = (rank x <? rank y)%Z.
Proof.
  rewrite ltb_spec. unfold SFltb. rewrite compare_rank. unfold Z.ltb.
  destruct (rank x ?= rank y)%Z; reflexivity.
Qed.

Lemma leb_rank : (x <=? y) = (rank x <=? rank y)%Z.
Proof.
  rewrite leb_spec. unfold SFleb. rewrite compare_rank. unfold Z.leb.
  destruct (rank x ?= rank y)%Z; reflexivity.
Qed.

Lemma eqb_rank : (x =? y) = (rank x =? rank y)%Z.
Proof.
  rewrite eqb_spec. unfold SFeqb. rewrite compare_rank, Z.eqb_compare.
  reflexivity.
Qed.

(** The comparator's test: [y - x > 0] exactly when [x < y]. *)
Lemma sub_positive_rank : (0 <? y - x) = (rank x <? rank y)%Z.
Proof.
  rewrite ltb_spec, sub_spec.
  change (Prim2SF 0) with (S754_zero false).
  apply SFsub_positive; auto using Prim2SF_valid; now apply is_nan_false.
Qed.
End Comparisons.

(** A comparison that holds has no [NaN] operand. *)
Lemma leb_true_not_nan (x y : number) :
  (x <=? y) = true -> is_nan x = false /\ is_nan y = false.
Proof.
  rewrite leb_spec. intros H.
  split; apply is_nan_false; intros E; rewrite E in H;
    [| destruct (Prim2SF x)]; discriminate.
Qed.

Lemma eqb_true_not_nan (x y : number) :
  (x =? y) = true -> is_nan x = false /\ is_nan y = false.
Proof.
  rewrite eqb_spec. intros H.
  split; apply is_nan_false; intros E; rewrite E in H;
    [| destruct (Prim2SF x)]; discriminate.
Qed.

End NumberOrder.

(** ** Stable sorting by descending similarity *)

Module SortFacts.
Import JS Spec NumberOrder.
Open Scope float_scope.

Section BySimilarity.
Context {A : Type} (key : A -> number) (compareFn : A -> A -> number).
Hypothesis compareFn_def : forall a b, compareFn a b = key b - key a.

Lemma insert_perm (x : A) (l : list A) : Permutation (insert compareFn x l) (x :: l).
Proof.
  induction l as [|y l IH]; simpl; [reflexivity|].
  destruct (0 <? compareFn x y); [|reflexivity].
  rewrite IH. apply perm_swap.
Qed.

Lemma sort_perm (l : list A) : Permutation (sort compareFn l) l.
Proof.
  induction l as [|x l IH]; simpl; [reflexivity|].
  rewrite insert_perm. now constructor.
Qed.

Lemma keyed_perm (l l' : list A) : Permutation l l' -> keyed key l -> keyed key l'.
Proof. intros P. unfold keyed. now rewrite P. Qed.

Lemma insert_descending (x : A) (l : list A) :
  is_nan (key x) = false -> keyed key l -> descending key l ->
  descending key (insert compareFn x l).
Proof.
  intros Nx Kl Sl. induction Sl as [|y l Sl IH Hy]; simpl.
  - repeat constructor.
  - inversion Kl as [|? ? Ny Kl']; subst.
    rewrite compareFn_def, (sub_positive_rank _ _ Nx Ny).
    destruct (Z.ltb_spec (rank (key x)) (rank (key y))) as [Hlt|Hge].
    + constructor; [now apply IH|].
      rewrite (insert_perm x l). constructor; [|exact Hy].
      unfold geb. rewrite (leb_rank _ _ Nx Ny). apply Z.leb_le. lia.
    + constructor; [now constructor|].
      constructor.
      * unfold geb. rewrite (leb_rank _ _ Ny Nx). now apply Z.leb_le.
      * rewrite Forall_forall in Hy, Kl' |- *. intros z Hz.
        specialize (Hy z Hz). specialize (Kl' z Hz). unfold geb in *.
        rewrite (leb_rank _ _ Kl' Ny) in Hy. apply Z.leb_le in Hy.
        rewrite (leb_rank _ _ Kl' Nx). apply Z.leb_le. lia.
Qed.

Lemma sort_descending (l : list A) : keyed key l -> descending key (sort compareFn l).
Proof.
  induction 1 as [|x l Nx Kl IH]; simpl; [constructor|].
  apply insert_descending; auto.
  apply (keyed_perm l); [symmetry; apply sort_perm | exact Kl].
Qed.

(** Inserting [x] only moves it past elements of a strictly greater key,
    so no class of ties is reordered. *)
Lemma insert_ties (v : number) (x : A) (l : list A) :
  is_nan (key x) = false -> keyed key l ->
  filter (tiedWith key v) (insert compareFn x l) = filter (tiedWith key v) (x :: l).
Proof.
  intros Nx Kl. induction Kl as [|y l Ny Kl IH]; [reflexivity|].
  cbn [insert]. rewrite compareFn_def, (sub_positive_rank _ _ Nx Ny).
  destruct (Z.ltb_spec (rank (key x)) (rank (key y))) as [Hlt|Hge]; [|reflexivity].
  cbn [filter] in *. rewrite IH.
  destruct (tiedWith key v x) eqn:Tx, (tiedWith key v y) eqn:Ty; try reflexivity.
  exfalso. unfold tiedWith, strictEq in Tx, Ty.
  destruct (eqb_true_not_nan _ _ Tx) as [_ Nv].
  rewrite (eqb_rank _ _ Nx Nv) in Tx. rewrite (eqb_rank _ _ Ny Nv) in Ty.
  apply Z.eqb_eq in Tx, Ty. lia.
Qed.

Lemma sort_ties (l : list A) : keyed key l -> tiesInOrderOf key l (sort compareFn l).
Proof.
  intros K v. induction K as [|x l Nx Kl IH]; [reflexivity|].
  cbn [sort fold_right]. fold (sort compareFn l).
  rewrite insert_ties; auto.
  - cbn [filter]. now rewrite IH.
  - apply (keyed_perm l); [symmetry; apply sort_perm | exact Kl].
Qed.

(** What passes a threshold is not [NaN]. *)
Lemma filter_geb_keyed (t : number) (l : list A) :
  keyed key (filter (fun x => geb (key x) t) l).
Proof.
  apply Forall_forall. intros x Hx. apply filter_In in Hx. destruct Hx as [_ Hx].
  unfold geb in Hx. now apply leb_true_not_nan in Hx.
Qed.
End BySimilarity.

(** [slice(0, k)] for a count [k >= 0] keeps the first [k] elements
    (fractions dropped), and everything when [k] is [Infinity]. *)
Lemma slice0_truncated {A} (l : list A) (k : number) :
  (0 <=? k) = true -> slice0 l k = truncated k l.
Proof.
  rewrite leb_spec. change (Prim2SF 0) with (S754_zero false).
  unfold slice0, truncated, integerPart, ToIntegerOrInfinity.
  destruct (Prim2SF k) as [s|s| |s m e]; simpl; try discriminate.
  - intros _. now destruct l.
  - destruct s; [discriminate | reflexivity].
  - destruct s; [discriminate|]. intros _. cbn [cond_Zopp].
    assert (Hz : (0 <= Z.shiftl (Zpos m) e)%Z) by (apply Z.shiftl_nonneg; lia).
    set (z := Z.shiftl (Zpos m) e) in *.
    destruct (Z.ltb_spec z 0) as [Hneg|_]; [lia|].
    destruct (Z.le_gt_cases z (Z.of_nat (List.length l))) as [Hle|Hgt].
    + now rewrite Z.min_l.
    + rewrite Z.min_r by lia. rewrite Nat2Z.id.
      rewrite !firstn_all2; auto; lia.
Qed.
End SortFacts.

(* ================================================================= *)
(** * Properties of the vector library *)

Module VectorsFacts.
Import JS Vectors Spec.
Open Scope float_scope.

Lemma of_Prim2SF (x : float) (s : spec_float) : Prim2SF x = s -> x = SF2Prim s.
Proof. intros <-. symmetry. apply SF2Prim_Prim2SF. Qed.

(** [x === 0] holds of the two zeros only. *)
Lemma strictEq_zero (x : number) :
  strictEq x 0 = true -> x = 0 \/ x = neg_zero.
Proof.
  unfold strictEq. rewrite eqb_spec. change (Prim2SF 0) with (S754_zero false).
  destruct (Prim2SF x) as [s|s| |s m e] eqn:E; simpl; try discriminate.
  - intros _. apply of_Prim2SF in E. destruct s; simpl in E; auto.
  - destruct s; discriminate.
  - destruct s; discriminate.
Qed.

Lemma square_zero (x : number) : strictEq x 0 = true -> 0 + x * x = 0.
Proof.
  intros H. destruct (strictEq_zero x H) as [-> | ->]; reflexivity.
Qed.

Lemma checkDimensions_same (a b : vector) :
  List.length a = List.length b -> checkDimensions a b = Ok tt.
Proof.
  intros H. unfold checkDimensions. rewrite H, Nat.eqb_refl. reflexivity.
Qed.

Lemma checkDimensions_differ (a b : vector) :
  List.length a <> List.length b ->
  checkDimensions a b = Throw (DimensionMismatch (List.length a) (List.length b)).
Proof.
  intros H. unfold checkDimensions.
  destruct (Nat.eqb_spec (List.length a) (List.length b)); [contradiction | reflexivity].
Qed.

(** The fused loop of [cosineSimilarity] computes what the three separate
    loops compute. *)
Lemma cosineLoop_split (a : vector) : forall (b : vector) dot mA mB,
  List.length a = List.length b ->
  cosineLoop a b dot mA mB = (dotLoop a b dot, squareLoop a mA, squareLoop b mB).
Proof.
  induction a as [|x a IH]; intros [|y b] dot mA mB Hlen; simpl in *;
    try discriminate; auto.
Qed.

Lemma squareLoop_zeroVector (v : vector) : zeroVector v -> squareLoop v 0 = 0.
Proof.
  induction 1 as [|x v Hx Hv IH]; simpl; [reflexivity|].
  rewrite (square_zero x Hx). exact IH.
Qed.

Lemma calculateMagnitude_zeroVector (v : vector) :
  zeroVector v -> calculateMagnitude v = 0.
Proof.
  intros H. unfold calculateMagnitude.
  rewrite squareLoop_zeroVector by assumption. reflexivity.
Qed.

(** C2. With the magnitudes [calculateMagnitude] computes,
    [cosineSimilarityWithMagnitude] returns exactly what
    [cosineSimilarity] returns: the same number when the lengths agree,
    the zero-magnitude case included, and the same dimension-mismatch
    error when they do not. *)
Theorem magnitude_cache_equivalence (a b : vector) :
  cosineSimilarityWithMagnitude a b (calculateMagnitude a) (calculateMagnitude b)
  = cosineSimilarity a b.
Proof.
  unfold cosineSimilarityWithMagnitude, cosineSimilarity, checkDimensions.
  destruct (Nat.eqb_spec (List.length a) (List.length b)) as [Hlen|Hlen];
    simpl; [|reflexivity].
  rewrite (cosineLoop_split a b 0 0 0 Hlen). reflexivity.
Qed.

(** C8. For vectors of equal length of which one has magnitude 0, as
    [calculateMagnitude] computes it, or is an all-zero vector,
    [cosineSimilarity] returns exactly [0]: it does not throw and the
    result is not [NaN]. *)
Theorem cosineSimilarity_zero_magnitude (a b : vector) :
  List.length a = List.length b ->
  strictEq (calculateMagnitude a) 0 = true \/ strictEq (calculateMagnitude b) 0 = true
  \/ zeroVector a \/ zeroVector b ->
  cosineSimilarity a b = Ok 0.
Proof.
  intros Hlen H.
  assert (Hz : strictEq (calculateMagnitude a) 0 || strictEq (calculateMagnitude b) 0 = true).
  { apply orb_true_iff.
    destruct H as [H|[H|[H|H]]]; auto;
      [left|right]; rewrite (calculateMagnitude_zeroVector _ H); reflexivity. }
  unfold cosineSimilarity. rewrite (checkDimensions_same a b Hlen). simpl.
  rewrite (cosineLoop_split a b 0 0 0 Hlen).
  unfold calculateMagnitude in Hz. rewrite Hz. reflexivity.
Qed.

Lemma cosineSimilarity_zero_magnitude_witness :
  cosineSimilarity [0; neg_zero; 0] [1; nan; infinity] = Ok 0.
Proof.
  apply cosineSimilarity_zero_magnitude; [reflexivity|].
  right. right. left. repeat constructor.
Defined.

(** C9. On vectors of different lengths [cosineSimilarity], [dotProduct]
    and [euclideanDistance] each throw the dimension-mismatch error,
    which reports both lengths; none computes on a common prefix. *)
Theorem dimension_mismatch_throws (a b : vector) :
  List.length a <> List.length b ->
  cosineSimilarity a b = Throw (DimensionMismatch (List.length a) (List.length b))
  /\ dotProduct a b = Throw (DimensionMismatch (List.length a) (List.length b))
  /\ euclideanDistance a b = Throw (DimensionMismatch (List.length a) (List.length b)).
Proof.
  intros H. unfold cosineSimilarity, dotProduct, euclideanDistance.
  rewrite (checkDimensions_differ a b H). auto.
Qed.

Lemma dimension_mismatch_throws_witness :
  cosineSimilarity [1; 2] [1; 2; 3] = Throw (DimensionMismatch 2 3)
  /\ dotProduct [1; 2] [1; 2; 3] = Throw (DimensionMismatch 2 3)
  /\ euclideanDistance [1; 2] [1; 2; 3] = Throw (DimensionMismatch 2 3).
Proof.
  apply (dimension_mismatch_throws [1; 2] [1; 2; 3]). simpl. lia.
Defined.

End VectorsFacts.

Module TopKFacts.
Import JS Vectors Spec SortFacts VectorsFacts.
Open Scope float_scope.











(** The end-to-end scenario of the specification: the first and the
    third candidate are returned, in that order. *)
Example topKSimilar_three_candidates :
  topKSimilar [1; 0; 0] Samples.threeCandidates 10 (Some 0.5)
  = Ok [ {| Scored.id := "c1"; Scored.similarity := 1 |};
         {| Scored.id := "c3"; Scored.similarity := 0.9938837346736189 |} ].
Proof. vm_compute. reflexivity. Qed.

(** Ties stay in the order of the candidates: [y] before [w], and [x]
    before [z], which the count of 3 cuts off. *)
Example topKSimilar_ties_in_candidate_order :
  topKSimilar [1; 0] Samples.tiedCandidates 3 None
  = Ok [ {| Scored.id := "y"; Scored.similarity := 1 |};
         {| Scored.id := "w"; Scored.similarity := 1 |};
         {| Scored.id := "x"; Scored.similarity := 0.70710678118654746 |} ].
Proof. vm_compute. reflexivity. Qed.

(** A similarity equal to the threshold passes. *)
Example topKSimilar_threshold_included :
  topKSimilar [1; 0; 0] Samples.threeCandidates 10 (Some 1)
  = Ok [ {| Scored.id := "c1"; Scored.similarity := 1 |} ].
Proof. vm_compute. reflexivity. Qed.
End TopKFacts.

(* ================================================================= *)
(** * Properties of the search handlers *)

Module SearchFacts.
Import JS Vectors Convex Spec.
Open Scope float_scope.


(** C7. Two calls of [searchChunksV2] on the same database with the same
    query embedding, cursor and model filter, whatever their limits and
    thresholds, agree on [nextCursor] and [hasMore] (and fail alike when
    a scanned embedding has another dimension): both are read off the
    scanned window, not off the ranked results. *)
Theorem continuation_ignores_ranking
  (ctx : context) (embedding : list number) (cursor model : option string)
  (limit threshold limit' threshold' : option number) :
  continuation
    (VectorSearchV2.searchChunksV2 ctx
       {| VectorSearchV2.Args.embedding := embedding;
          VectorSearchV2.Args.limit := limit;
          VectorSearchV2.Args.threshold := threshold;
          VectorSearchV2.Args.cursor := cursor;
          VectorSearchV2.Args.model := model |})
  = continuation
      (VectorSearchV2.searchChunksV2 ctx
         {| VectorSearchV2.Args.embedding := embedding;
            VectorSearchV2.Args.limit := limit';
            VectorSearchV2.Args.threshold := threshold';
            VectorSearchV2.Args.cursor := cursor;
            VectorSearchV2.Args.model := model |}).
Proof.
  unfold VectorSearchV2.searchChunksV2, VectorSearchV2.scanWindow. cbn [VectorSearchV2.Args.embedding
    VectorSearchV2.Args.cursor VectorSearchV2.Args.model].
  match goal with |- context [mapM ?f ?l] => destruct (mapM f l) end; reflexivity.
Qed.

(** ** Queries with a [NaN] or an infinite entry *)

Lemma invalidEntry_wild (x : number) : invalidEntry x = true -> wild x.
Proof.
  unfold invalidEntry, wild. intros H. apply orb_true_iff in H.
  destruct H as [H|H].
  - now rewrite (NumberOrder.is_nan_true _ H).
  - unfold is_infinity in H. rewrite eqb_spec, abs_spec in H.
    change (Prim2SF infinity) with (S754_infinity false) in H.
    destruct (Prim2SF x) as [s|s| |s m e]; simpl; auto; discriminate.
Qed.

Lemma wild_mul_l (x y : number) : wild x -> wild (x * y).
Proof.
  unfold wild. rewrite mul_spec.
  destruct (Prim2SF x), (Prim2SF y); simpl; tauto.
Qed.

Lemma wild_add_l (x y : number) : wild x -> wild (x + y).
Proof.
  unfold wild. rewrite add_spec.
  destruct (Prim2SF x) as [| [] | |], (Prim2SF y) as [| [] | |]; simpl; tauto.
Qed.

Lemma wild_add_r (x y : number) : wild y -> wild (x + y).
Proof.
  unfold wild. rewrite add_spec.
  destruct (Prim2SF x) as [[] | [] | |], (Prim2SF y) as [| [] | |]; simpl; tauto.
Qed.

Lemma wild_sqrt (x : number) : wild x -> wild (sqrt x).
Proof.
  unfold wild. rewrite sqrt_spec.
  destruct (Prim2SF x) as [| [] | |]; simpl; tauto.
Qed.

Lemma wild_mul_nonzero (x y : number) : wild x -> strictEq y 0 = false -> wild (x * y).
Proof.
  unfold wild, strictEq. rewrite mul_spec, eqb_spec.
  change (Prim2SF 0) with (S754_zero false).
  destruct (Prim2SF x), (Prim2SF y); simpl; try tauto; discriminate.
Qed.

Lemma wild_div (x y : number) : wild x -> wild y -> is_nan (x / y) = true.
Proof.
  unfold wild, is_nan. rewrite eqb_spec, div_spec.
  destruct (Prim2SF x), (Prim2SF y); simpl; tauto.
Qed.

Lemma nan_fails_threshold (s t : number) : is_nan s = true -> geb s t = false.
Proof.
  intros H. apply NumberOrder.is_nan_true in H.
  unfold geb. rewrite leb_spec, H. now destruct (Prim2SF t).
Qed.

Lemma dotLoop_wild_acc (a : vector) : forall (b : vector) acc,
  wild acc -> wild (dotLoop a b acc).
Proof.
  induction a as [|x a IH]; intros [|y b] acc H; simpl; auto using wild_add_l.
Qed.

Lemma dotLoop_wild (a : vector) : forall (b : vector) acc,
  hasInvalidEntry a -> List.length a = List.length b -> wild (dotLoop a b acc).
Proof.
  unfold hasInvalidEntry.
  induction a as [|x a IH]; intros [|y b] acc H Hlen; simpl in *; try discriminate.
  apply orb_true_iff in H. destruct H as [H|H].
  - apply dotLoop_wild_acc, wild_add_r, wild_mul_l, invalidEntry_wild, H.
  - apply IH; auto.
Qed.

Lemma squares_wild_acc (v : vector) : forall acc,
  wild acc -> wild (fold_left (fun sum val => sum + val * val) v acc).
Proof.
  induction v as [|x v IH]; intros acc H; simpl; auto using wild_add_l.
Qed.

Lemma reducedMagnitude_wild (v : vector) : hasInvalidEntry v -> wild (reducedMagnitude v).
Proof.
  unfold reducedMagnitude, hasInvalidEntry. intros H. apply wild_sqrt.
  generalize 0. induction v as [|x v IH]; intros acc; simpl in *; [discriminate|].
  apply orb_true_iff in H. destruct H as [H|H].
  - apply squares_wild_acc, wild_add_r, wild_mul_l, invalidEntry_wild, H.
  - apply IH, H.
Qed.

(** Against a query with an invalid entry a candidate of the query's
    dimension scores [0] (a zero magnitude) or [NaN]. *)
Lemma invalid_query_similarity (query e : vector) (m : number) :
  hasInvalidEntry query -> List.length e = List.length query ->
  exists s, cosineSimilarityWithMagnitude query e (reducedMagnitude query) m = Ok s
            /\ (s = 0 \/ is_nan s = true).
Proof.
  intros Hq Hlen. symmetry in Hlen.
  unfold cosineSimilarityWithMagnitude.
  rewrite (VectorsFacts.checkDimensions_same _ _ Hlen). simpl.
  destruct (strictEq (reducedMagnitude query) 0 || strictEq m 0) eqn:Hz.
  - exists 0. auto.
  - eexists. split; [reflexivity|]. right.
    apply orb_false_iff in Hz. destruct Hz as [_ Hm].
    apply wild_div.
    + now apply dotLoop_wild.
    + apply wild_mul_nonzero; [now apply reducedMagnitude_wild | exact Hm].
Qed.

Lemma Forall_firstn {A} (P : A -> Prop) (n : nat) : forall l : list A,
  Forall P l -> Forall P (firstn n l).
Proof.
  induction n as [|n IH]; intros l H; simpl; [constructor|].
  destruct H; constructor; auto.
Qed.

Lemma Forall_slice0 {A} (P : A -> Prop) (l : list A) (k : number) :
  Forall P l -> Forall P (slice0 l k).
Proof.
  intros H. unfold slice0.
  destruct (ToIntegerOrInfinity k) as [|z|]; auto.
  destruct (z <? 0)%Z; now apply Forall_firstn.
Qed.

Lemma Forall_sort {A} (P : A -> Prop) (compareFn : A -> A -> number) (l : list A) :
  Forall P l -> Forall P (sort compareFn l).
Proof.
  induction 1 as [|x l Hx Hl IH]; simpl; [constructor|].
  fold (sort compareFn l).
  induction IH as [|y s Hy Hs IHs]; simpl; [repeat constructor; auto|].
  destruct (0 <? compareFn x y); repeat constructor; auto.
Qed.

Lemma positive_threshold_excludes_zero (t : number) :
  (0 <? t) = true -> geb 0 t = false.
Proof.
  intros H. unfold geb.
  assert (N : is_nan 0 = false /\ is_nan t = false).
  { split; [reflexivity|]. apply NumberOrder.is_nan_false. intros E.
    rewrite ltb_spec, E in H. discriminate. }
  destruct N as [N0 Nt].
  rewrite (NumberOrder.ltb_rank _ _ N0 Nt) in H.
  rewrite (NumberOrder.leb_rank _ _ Nt N0).
  apply Z.ltb_lt in H. apply Z.leb_gt. exact H.
Qed.

(** The ranking of scores that are all [0] or [NaN]: what is returned
    scored [0], and nothing is returned under a positive threshold. *)
Lemma ranking_of_degenerate_scores {A} (scoredDocs : list (Ranked.t A)) (t limit : number) :
  Forall (fun r => Ranked.similarity r = 0 \/ is_nan (Ranked.similarity r) = true) scoredDocs ->
  let results :=
    slice0 (sort Ranked.bySimilarityDesc
              (filter (fun r => geb (Ranked.similarity r) t) scoredDocs)) limit in
  Forall (fun r => Ranked.similarity r = 0) results
  /\ ((0 <? t) = true -> results = []).
Proof.
  intros H results. split.
  - apply Forall_slice0, Forall_sort, Forall_forall.
    intros r Hr. apply filter_In in Hr. destruct Hr as [Hin Hg].
    rewrite Forall_forall in H. destruct (H r Hin) as [E|E]; [exact E|].
    rewrite (nan_fails_threshold _ t E) in Hg. discriminate.
  - intros Ht. subst results.
    replace (filter (fun r => geb (Ranked.similarity r) t) scoredDocs) with (@nil (Ranked.t A)).
    + simpl. unfold slice0. destruct (ToIntegerOrInfinity limit) as [|z|]; auto.
      destruct (z <? 0)%Z; now rewrite firstn_nil.
    + symmetry. induction H as [|r l Hr Hl IH]; simpl; [reflexivity|].
      rewrite IH. destruct Hr as [E|E].
      * rewrite E, (positive_threshold_excludes_zero t Ht). reflexivity.
      * rewrite (nan_fails_threshold _ t E). reflexivity.
Qed.

Lemma lastElement_none {A} (l : list A) : lastElement l = None <-> l = [].
Proof.
  unfold lastElement. split; [|intros ->; reflexivity].
  intros H. apply nth_error_None in H. destruct l; [reflexivity|simpl in H; lia].
Qed.

(** What a returned page says about the continuation. *)
Lemma searchChunksV2_continuation (ctx : context) (args : VectorSearchV2.Args.t)
  (p : VectorSearchV2.page) :
  VectorSearchV2.searchChunksV2 ctx args = Ok p ->
  VectorSearchV2.hasMore p
  = Nat.eqb (List.length (VectorSearchV2.scanWindow (db ctx) args)) 1000
  /\ VectorSearchV2.nextCursor p
     = option_map VectorSearchV2.cursorOf
         (lastElement (VectorSearchV2.scanWindow (db ctx) args)).
Proof.
  unfold VectorSearchV2.searchChunksV2.
  match goal with |- context [mapM ?f ?l] => destruct (mapM f l) end;
    simpl; [|discriminate].
  intros H. injection H as <-. simpl. split; [reflexivity|].
  now destruct (lastElement _).
Qed.

Lemma cosineSimilarityWithMagnitude_ok (a b : vector) (mA mB : number) :
  List.length a = List.length b ->
  exists s, cosineSimilarityWithMagnitude a b mA mB = Ok s.
Proof.
  intros H. unfold cosineSimilarityWithMagnitude.
  rewrite (VectorsFacts.checkDimensions_same _ _ H). simpl.
  destruct (_ || _); eauto.
Qed.

(** The scan succeeds when every scanned embedding has the query's
    dimension. *)
Lemma scan_scores {A} (embeddingOf : A -> vector) (magnitudeOf : A -> number)
  (query : vector) (l : list A) :
  sameDimension embeddingOf query l ->
  exists scoredDocs,
    mapM (fun doc =>
            similarity <- cosineSimilarityWithMagnitude query (embeddingOf doc)
                            (reducedMagnitude query) (magnitudeOf doc) ;;
            Ok {| Ranked.item := doc; Ranked.similarity := similarity |}) l
    = Ok scoredDocs
    /\ Forall2 (fun doc r =>
                  Ranked.item r = doc
                  /\ cosineSimilarityWithMagnitude query (embeddingOf doc)
                       (reducedMagnitude query) (magnitudeOf doc)
                     = Ok (Ranked.similarity r)) l scoredDocs.
Proof.
  induction 1 as [|doc l Hd Hl [rs [IH1 IH2]]]; simpl.
  - exists []. split; [reflexivity | constructor].
  - symmetry in Hd.
    destruct (cosineSimilarityWithMagnitude_ok query (embeddingOf doc)
                (reducedMagnitude query) (magnitudeOf doc) Hd) as [s Hs].
    rewrite Hs. simpl. rewrite IH1. simpl.
    eexists. split; [reflexivity|].
    constructor; [|exact IH2]. simpl. auto.
Qed.

Lemma degenerate_scores {A} (embeddingOf : A -> vector) (magnitudeOf : A -> number)
  (query : vector) (l : list A) (scoredDocs : list (Ranked.t A)) :
  hasInvalidEntry query -> sameDimension embeddingOf query l ->
  Forall2 (fun doc r =>
             Ranked.item r = doc
             /\ cosineSimilarityWithMagnitude query (embeddingOf doc)
                  (reducedMagnitude query) (magnitudeOf doc)
                = Ok (Ranked.similarity r)) l scoredDocs ->
  Forall (fun r => Ranked.similarity r = 0 \/ is_nan (Ranked.similarity r) = true)
         scoredDocs.
Proof.
  intros Hq Hdim H. induction H as [|doc r l rs [_ Hr] Hrs IH]; constructor.
  - inversion Hdim as [|? ? Hd _]; subst.
    destruct (invalid_query_similarity query (embeddingOf doc) (magnitudeOf doc) Hq Hd)
      as [s [Hs Hcase]].
    rewrite Hs in Hr. injection Hr as <-. exact Hcase.
  - apply IH. now inversion Hdim.
Qed.

(** C3, as the code has it.  The handlers validate nothing: a query with
    a [NaN] or infinite entry is scanned like any other, and when every
    scanned candidate has the query's dimension the call returns
    successfully.  Every similarity is then [0] (a zero magnitude) or
    [NaN], so each returned entry scored exactly [0], and under a positive
    effective threshold (the default 0.7 is one) the result is empty. *)
Theorem invalid_query_is_scanned
  (ctx : context) (margs : VectorSearch.Args.t) (cargs : VectorSearchV2.Args.t) :
  hasInvalidEntry (VectorSearch.Args.embedding margs) ->
  hasInvalidEntry (VectorSearchV2.Args.embedding cargs) ->
  sameDimension VectorMemory.embedding (VectorSearch.Args.embedding margs)
    (VectorSearch.candidatesOf (db ctx) margs) ->
  sameDimension ChunkEmbedding.embedding (VectorSearchV2.Args.embedding cargs)
    (VectorSearchV2.scanWindow (db ctx) cargs) ->
  (exists results,
      VectorSearch.vectorSearch ctx margs = Ok results
      /\ Forall (fun r => VectorSearch.MemoryResult.similarity r = 0) results
      /\ ((0 <? orDefault (VectorSearch.Args.threshold margs) 0.7) = true -> results = []))
  /\ (exists p,
        VectorSearchV2.searchChunksV2 ctx cargs = Ok p
        /\ Forall (fun e => VectorSearchV2.Entry.similarity e = 0) (VectorSearchV2.results p)
        /\ ((0 <? orDefault (VectorSearchV2.Args.threshold cargs) 0.7) = true ->
            VectorSearchV2.results p = [])).
Proof.
  intros Hm Hc Dm Dc. split.
  - destruct (scan_scores VectorMemory.embedding VectorMemory.magnitude _ _ Dm)
      as [scoredDocs [Hscan Hscores]].
    pose proof (degenerate_scores _ _ _ _ _ Hm Dm Hscores) as Hdeg.
    destruct (ranking_of_degenerate_scores scoredDocs
                (orDefault (VectorSearch.Args.threshold margs) 0.7)
                (orDefault (VectorSearch.Args.limit margs) 10) Hdeg) as [Hzero Hempty].
    unfold VectorSearch.vectorSearch. rewrite Hscan. simpl.
    eexists. split; [reflexivity|]. split.
    + apply Forall_map. simpl. exact Hzero.
    + intros Ht. now rewrite (Hempty Ht).
  - destruct (scan_scores ChunkEmbedding.embedding ChunkEmbedding.magnitude _ _ Dc)
      as [scoredDocs [Hscan Hscores]].
    pose proof (degenerate_scores _ _ _ _ _ Hc Dc Hscores) as Hdeg.
    destruct (ranking_of_degenerate_scores scoredDocs
                (orDefault (VectorSearchV2.Args.threshold cargs) 0.7)
                (orDefault (VectorSearchV2.Args.limit cargs) 10) Hdeg) as [Hzero Hempty].
    unfold VectorSearchV2.searchChunksV2. rewrite Hscan. simpl.
    eexists. split; [reflexivity|]. simpl. split.
    + apply Forall_map, Forall_forall. intros [r c] Hin. simpl.
      apply in_combine_l in Hin. rewrite Forall_forall in Hzero. now apply Hzero.
    + intros Ht. now rewrite (Hempty Ht).
Qed.

Lemma invalid_query_is_scanned_witness :
  (exists results,
      VectorSearch.vectorSearch Samples.oneEach (Samples.memoryQuery [nan; 0]) = Ok results
      /\ Forall (fun r => VectorSearch.MemoryResult.similarity r = 0) results
      /\ ((0 <? orDefault (VectorSearch.Args.threshold (Samples.memoryQuery [nan; 0])) 0.7) = true
          -> results = []))
  /\ (exists p,
        VectorSearchV2.searchChunksV2 Samples.oneEach (Samples.chunkQuery [infinity; 0] None) = Ok p
        /\ Forall (fun e => VectorSearchV2.Entry.similarity e = 0) (VectorSearchV2.results p)
        /\ ((0 <? orDefault
                    (VectorSearchV2.Args.threshold (Samples.chunkQuery [infinity; 0] None)) 0.7)
            = true -> VectorSearchV2.results p = [])).
Proof.
  apply (invalid_query_is_scanned Samples.oneEach
           (Samples.memoryQuery [nan; 0]) (Samples.chunkQuery [infinity; 0] None)).
  - reflexivity.
  - reflexivity.
  - repeat constructor.
  - repeat constructor.
Defined.

(** C3 fails as stated: a query whose first entry is [NaN], which
    [validateVector] rejects, is answered by both handlers with a
    successful (empty) result, after the candidates were scanned. *)
Lemma nan_query_is_not_rejected :
  hasInvalidEntry [nan; 0]
  /\ validateVector [nan; 0] None = false
  /\ VectorSearch.vectorSearch Samples.oneEach (Samples.memoryQuery [nan; 0]) = Ok []
  /\ VectorSearchV2.searchChunksV2 Samples.oneEach (Samples.chunkQuery [nan; 0] None)
     = Ok {| VectorSearchV2.results := [];
             VectorSearchV2.nextCursor := Some "5:e1"%string;
             VectorSearchV2.hasMore := false;
             VectorSearchV2.searchTimeMs := 3 |}.
Proof. repeat split; vm_compute; reflexivity. Qed.

(** C4, as the code has it.  When the scan window holds fewer than 1000
    candidates (all of the query's dimension) the page has
    [hasMore = false], and [nextCursor] is the cursor of the last scanned
    candidate: it is [null] only when the window is empty. *)
Theorem short_window_page (ctx : context) (args : VectorSearchV2.Args.t) :
  sameDimension ChunkEmbedding.embedding (VectorSearchV2.Args.embedding args)
    (VectorSearchV2.scanWindow (db ctx) args) ->
  (List.length (VectorSearchV2.scanWindow (db ctx) args) < 1000)%nat ->
  exists p,
    VectorSearchV2.searchChunksV2 ctx args = Ok p
    /\ VectorSearchV2.hasMore p = false
    /\ VectorSearchV2.nextCursor p
       = option_map VectorSearchV2.cursorOf
           (lastElement (VectorSearchV2.scanWindow (db ctx) args))
    /\ (VectorSearchV2.nextCursor p = None
        <-> VectorSearchV2.scanWindow (db ctx) args = []).
Proof.
  intros Hdim Hlen.
  destruct (scan_scores ChunkEmbedding.embedding ChunkEmbedding.magnitude _ _ Hdim)
    as [scoredDocs [Hscan _]].
  assert (Hok : exists p, VectorSearchV2.searchChunksV2 ctx args = Ok p).
  { unfold VectorSearchV2.searchChunksV2. rewrite Hscan. simpl. eauto. }
  destruct Hok as [p Hp]. exists p. split; [exact Hp|].
  destruct (searchChunksV2_continuation ctx args p Hp) as [Hmore Hnext].
  split; [|split; [exact Hnext|]].
  - rewrite Hmore. apply Nat.eqb_neq. lia.
  - rewrite Hnext, <- lastElement_none.
    destruct (lastElement _); simpl; split; congruence.
Qed.

Lemma short_window_page_witness :
  exists p,
    VectorSearchV2.searchChunksV2 Samples.oneEach (Samples.chunkQuery [1; 0] None) = Ok p
    /\ VectorSearchV2.hasMore p = false
    /\ VectorSearchV2.nextCursor p
       = option_map VectorSearchV2.cursorOf
           (lastElement (VectorSearchV2.scanWindow (db Samples.oneEach)
                           (Samples.chunkQuery [1; 0] None)))
    /\ (VectorSearchV2.nextCursor p = None
        <-> VectorSearchV2.scanWindow (db Samples.oneEach)
              (Samples.chunkQuery [1; 0] None) = []).
Proof.
  apply (short_window_page Samples.oneEach (Samples.chunkQuery [1; 0] None)).
  - repeat constructor.
  - simpl. lia.
Defined.

(** C4 fails as stated: a window of one candidate is below the cap, the
    page says [hasMore = false], and [nextCursor] is not [null]. *)
Lemma short_window_cursor_not_null :
  (List.length (VectorSearchV2.scanWindow (db Samples.oneEach)
                  (Samples.chunkQuery [1; 0]%float None)) < 1000)%nat
  /\ exists p,
       VectorSearchV2.searchChunksV2 Samples.oneEach (Samples.chunkQuery [1; 0] None) = Ok p
       /\ VectorSearchV2.hasMore p = false
       /\ VectorSearchV2.nextCursor p = Some "5:e1"%string
       /\ VectorSearchV2.nextCursor p <> None.
Proof.
  split; [simpl; lia|].
  eexists. split; [vm_compute; reflexivity|]. simpl. repeat split. discriminate.
Qed.
End SearchFacts.

(* ================================================================= *)
(** * Cursors *)

Module CursorFacts.
Import JS Convex Spec.
Open Scope string_scope.

(** ** A minted cursor is read back as it was written *)

Lemma string_of_uint_digits (d : Decimal.uint) :
  allDigits (NilEmpty.string_of_uint d) = true.
Proof. induction d; simpl; auto. Qed.

Lemma digitPrefix_allDigits (s : string) : allDigits s = true -> digitPrefix s = s.
Proof.
  induction s as [|c s IH]; simpl; [reflexivity|].
  intros H. apply andb_true_iff in H. destruct H as [Hc Hs].
  rewrite Hc, IH; auto.
Qed.

Lemma digit_not_sign (c : ascii) :
  isDigit c = true ->
  Ascii.eqb c "-" = false /\ Ascii.eqb c "+" = false /\ Ascii.eqb c ":" = false.
Proof.
  destruct c as [[] [] [] [] [] [] [] []]; intros H; try discriminate H;
    repeat split; reflexivity.
Qed.

Lemma allDigits_colonFree (s : string) : allDigits s = true -> colonFree s = true.
Proof.
  induction s as [|c s IH]; simpl; [reflexivity|].
  intros H. apply andb_true_iff in H. destruct H as [Hc Hs].
  destruct (digit_not_sign c Hc) as (_ & _ & ->). simpl. auto.
Qed.

Lemma parseInt_digits (d : Decimal.uint) :
  d <> Decimal.Nil ->
  parseInt (NilEmpty.string_of_uint d) = Some (Z.of_uint d).
Proof.
  intros Hd. pose proof (string_of_uint_digits d) as Hall.
  pose proof (NilEmpty.usu d) as Hu.
  unfold parseInt.
  destruct (NilEmpty.string_of_uint d) as [|c r] eqn:E.
  - destruct d; simpl in E; try discriminate; now contradiction Hd.
  - simpl in Hall. apply andb_true_iff in Hall. destruct Hall as [Hc Hr].
    destruct (digit_not_sign c Hc) as (-> & -> & _).
    rewrite (digitPrefix_allDigits (String c r)) by (simpl; now rewrite Hc, Hr).
    rewrite Hu. reflexivity.
Qed.

Lemma numberToString_shape (z : Z) :
  exists d, d <> Decimal.Nil
    /\ ((numberToString z = NilEmpty.string_of_uint d /\ Z.of_uint d = z)
        \/ (numberToString z = String "-" (NilEmpty.string_of_uint d)
            /\ (- Z.of_uint d)%Z = z)).
Proof.
  pose proof (DecimalZ.of_to z) as Hz. unfold numberToString.
  destruct z as [|p|p]; simpl in *.
  - exists (Decimal.D0 Decimal.Nil). split; [discriminate|]. left. auto.
  - exists (Pos.to_uint p). split; [apply Unsigned.to_uint_nonnil|]. left.
    split; [|exact Hz].
    destruct (Pos.to_uint p) eqn:E; try reflexivity.
    now apply Unsigned.to_uint_nonnil in E.
  - exists (Pos.to_uint p). split; [apply Unsigned.to_uint_nonnil|]. right.
    split; [|exact Hz].
    destruct (Pos.to_uint p) eqn:E; try reflexivity.
    now apply Unsigned.to_uint_nonnil in E.
Qed.

Lemma parseInt_numberToString (z : Z) : parseInt (numberToString z) = Some z.
Proof.
  destruct (numberToString_shape z) as (d & Hd & [[-> <-] | [-> <-]]).
  - now apply parseInt_digits.
  - pose proof (parseInt_digits d Hd) as H. unfold parseInt in *.
    cbn [Ascii.eqb Bool.eqb].
    pose proof (string_of_uint_digits d) as Hall.
    destruct (NilEmpty.string_of_uint d) as [|c r] eqn:E.
    + destruct d; simpl in E; try discriminate; now contradiction Hd.
    + simpl in Hall. apply andb_true_iff in Hall. destruct Hall as [Hc Hr].
      destruct (digit_not_sign c Hc) as (Hm & Hp & _).
      rewrite Hm, Hp in H.
      destruct (digitPrefix (String c r)); [discriminate|].
      destruct (NilEmpty.uint_of_string _); [|discriminate].
      injection H as <-. reflexivity.
Qed.

Lemma numberToString_colonFree (z : Z) : colonFree (numberToString z) = true.
Proof.
  destruct (numberToString_shape z) as (d & _ & [[-> _] | [-> _]]); simpl;
    apply allDigits_colonFree, string_of_uint_digits.
Qed.

Lemma numberToString_nonempty (z : Z) : numberToString z <> EmptyString.
Proof.
  destruct (numberToString_shape z) as (d & Hd & [[-> _] | [-> _]]); [|discriminate].
  destruct d; simpl; try discriminate. now contradiction Hd.
Qed.

Lemma split_colonFree (s : string) : colonFree s = true -> split ":" s = [s].
Proof.
  induction s as [|c s IH]; simpl; [reflexivity|].
  intros H. apply andb_true_iff in H. destruct H as [Hc Hs].
  apply negb_true_iff in Hc. rewrite Hc, (IH Hs). reflexivity.
Qed.

Lemma split_append (a b : string) :
  colonFree a = true -> split ":" (a ++ ":" ++ b) = a :: split ":" b.
Proof.
  induction a as [|c a IH]; simpl; [reflexivity|].
  intros H. apply andb_true_iff in H. destruct H as [Hc Ha].
  apply negb_true_iff in Hc. rewrite Hc. simpl in IH. rewrite (IH Ha). reflexivity.
Qed.

(** Splitting and parsing the cursor of [(t, id)] gives back [t] and
    [id], for an id without [":"]. *)
Lemma cursorEncoding_decoded (t : Z) (id : Id) :
  colonFree id = true ->
  truthyString (Some (cursorEncoding t id)) = true
  /\ parseInt (nth 0 (split ":" (cursorEncoding t id)) EmptyString) = Some t
  /\ nth_error (split ":" (cursorEncoding t id)) 1 = Some id.
Proof.
  intros Hid. unfold cursorEncoding.
  rewrite (split_append _ _ (numberToString_colonFree t)), (split_colonFree _ Hid).
  simpl. split; [|split; [apply parseInt_numberToString | reflexivity]].
  pose proof (numberToString_nonempty t) as H.
  destruct (numberToString t); [now contradiction H | reflexivity].
Qed.

(** ** The window a cursor selects *)

Lemma scanWindow_decoded
  (d : database) (embedding : list number) (limit threshold : option number)
  (model : option string) (t : Z) (id : Id) :
  colonFree id = true ->
  VectorSearchV2.scanWindow d
    {| VectorSearchV2.Args.embedding := embedding;
       VectorSearchV2.Args.limit := limit;
       VectorSearchV2.Args.threshold := threshold;
       VectorSearchV2.Args.cursor := Some (cursorEncoding t id);
       VectorSearchV2.Args.model := model |}
  = firstn 1000 (filter (strictlyBefore t id) (pool d model)).
Proof.
  intros Hid.
  destruct (cursorEncoding_decoded t id Hid) as (Htruthy & Htime & Hidstr).
  unfold VectorSearchV2.scanWindow.
  cbn [VectorSearchV2.Args.cursor VectorSearchV2.Args.model].
  rewrite Htruthy, Htime, Hidstr. reflexivity.
Qed.

(** C5. Given the cursor that encodes [(t, id)] (an id without [":"],
    as Convex ids are), [searchChunksV2] scans the first 1000, in the
    order the table yields them, of the candidates of the requested
    model that are strictly before [(t, id)]: every scanned candidate
    has [createdAt < t], or [createdAt = t] and [_id < id], and when at
    most 1000 candidates are strictly before [(t, id)] the window holds
    exactly those. *)
Theorem cursor_window
  (d : database) (embedding : list number) (limit threshold : option number)
  (model : option string) (t : Z) (id : Id) :
  colonFree id = true ->
  let args := {| VectorSearchV2.Args.embedding := embedding;
                 VectorSearchV2.Args.limit := limit;
                 VectorSearchV2.Args.threshold := threshold;
                 VectorSearchV2.Args.cursor := Some (cursorEncoding t id);
                 VectorSearchV2.Args.model := model |} in
  let before := filter (strictlyBefore t id) (pool d model) in
  VectorSearchV2.scanWindow d args = firstn 1000 before
  /\ Forall (fun emb => strictlyBefore t id emb = true) (VectorSearchV2.scanWindow d args)
  /\ ((List.length before <= 1000)%nat -> VectorSearchV2.scanWindow d args = before).
Proof.
  intros Hid args before.
  assert (Hw : VectorSearchV2.scanWindow d args = firstn 1000 before)
    by now apply scanWindow_decoded.
  split; [exact Hw|]. split.
  - rewrite Hw. apply SearchFacts.Forall_firstn, Forall_forall.
    intros emb Hin. now apply filter_In in Hin.
  - intros Hle. rewrite Hw. now apply firstn_all2.
Qed.

Lemma cursor_window_witness :
  let d := db (Samples.contextOf (Samples.insertedInTurn 3) []) in
  let args := Samples.chunkQuery [1%float] (Some (cursorEncoding 3 "e3")) in
  let before := filter (strictlyBefore 3 "e3") (pool d None) in
  VectorSearchV2.scanWindow d args = firstn 1000 before
  /\ Forall (fun emb => strictlyBefore 3 "e3" emb = true) (VectorSearchV2.scanWindow d args)
  /\ ((List.length before <= 1000)%nat -> VectorSearchV2.scanWindow d args = before).
Proof.
  apply (cursor_window (db (Samples.contextOf (Samples.insertedInTurn 3) []))
           [1%float] None None None 3 "e3").
  reflexivity.
Defined.
End CursorFacts.

(* ================================================================= *)
(** * Pagination sessions *)

Module PaginationFacts.
Import JS Convex Spec Pagination.

(** ** The cursor order *)

Lemma string_ltb_irrefl (s : string) : String.ltb s s = false.
Proof.
  unfold String.ltb. pose proof (String.compare_antisym s s) as H.
  destruct (String.compare s s); simpl in H; congruence.
Qed.

Lemma string_ltb_asym (a b : string) : String.ltb a b = true -> String.ltb b a = false.
Proof.
  unfold String.ltb. rewrite (String.compare_antisym a b).
  destruct (String.compare b a); simpl; congruence.
Qed.

Lemma strictlyBefore_irrefl (emb : ChunkEmbedding.t) :
  strictlyBefore (ChunkEmbedding.createdAt emb) (ChunkEmbedding._id emb) emb = false.
Proof.
  unfold strictlyBefore. now rewrite Z.ltb_irrefl, string_ltb_irrefl, andb_false_r.
Qed.

Lemma strictlyBefore_asym (a b : ChunkEmbedding.t) :
  strictlyBefore (ChunkEmbedding.createdAt a) (ChunkEmbedding._id a) b = true ->
  strictlyBefore (ChunkEmbedding.createdAt b) (ChunkEmbedding._id b) a = false.
Proof.
  unfold strictlyBefore. intros H.
  apply orb_true_iff in H. apply orb_false_iff.
  destruct H as [H|H].
  - apply Z.ltb_lt in H. split; [apply Z.ltb_ge; lia|].
    apply andb_false_iff. left. apply Z.eqb_neq. lia.
  - apply andb_true_iff in H. destruct H as [Ht Hi]. apply Z.eqb_eq in Ht.
    split; [apply Z.ltb_ge; lia|].
    apply andb_false_iff. right. now apply string_ltb_asym.
Qed.

Lemma StronglySorted_app_inv {A} (R : A -> A -> Prop) (l1 : list A) (x : A) (l2 : list A) :
  StronglySorted R (l1 ++ x :: l2) ->
  Forall (fun y => R y x) l1 /\ Forall (R x) l2.
Proof.
  induction l1 as [|y l1 IH]; simpl; intros H; inversion H as [|? ? Hs Hf]; subst.
  - split; [constructor | assumption].
  - destruct (IH Hs) as [H1 H2]. split; [|exact H2].
    constructor; [|exact H1].
    rewrite Forall_forall in Hf. apply Hf, in_elt.
Qed.

Lemma filter_all {A} (f : A -> bool) (l : list A) :
  Forall (fun x => f x = true) l -> filter f l = l.
Proof. induction 1 as [|x l Hx Hl IH]; simpl; [|rewrite Hx, IH]; reflexivity. Qed.

Lemma filter_none {A} (f : A -> bool) (l : list A) :
  Forall (fun x => f x = false) l -> filter f l = [].
Proof. induction 1 as [|x l Hx Hl IH]; simpl; [|rewrite Hx, IH]; reflexivity. Qed.

(** In a pool yielded newest first, the candidates strictly before one of
    its candidates are those yielded after it. *)
Lemma filter_before_pivot (pre : list ChunkEmbedding.t) (x : ChunkEmbedding.t)
  (post : list ChunkEmbedding.t) :
  newestFirst (pre ++ x :: post) ->
  filter (strictlyBefore (ChunkEmbedding.createdAt x) (ChunkEmbedding._id x))
         (pre ++ x :: post) = post.
Proof.
  intros H. apply StronglySorted_app_inv in H. destruct H as [Hpre Hpost].
  rewrite filter_app. cbn [filter]. rewrite strictlyBefore_irrefl.
  rewrite (filter_all _ post Hpost), filter_none; [reflexivity|].
  eapply Forall_impl; [|exact Hpre]. intros y Hy. now apply strictlyBefore_asym.
Qed.

Lemma lastElement_app {A} (l : list A) (x : A) : lastElement (l ++ [x]) = Some x.
Proof.
  unfold lastElement. rewrite length_app. simpl.
  replace (List.length l + 1 - 1)%nat with (List.length l) by lia.
  now rewrite nth_error_app2, Nat.sub_diag by lia.
Qed.

(** A window of 1000 ends with its last candidate. *)
Lemma full_window_split {A} (rest : list A) :
  (1000 <= List.length rest)%nat ->
  exists w x, firstn 1000 rest = w ++ [x] /\ rest = w ++ x :: skipn 1000 rest.
Proof.
  intros Hlen.
  assert (Hw : List.length (firstn 1000 rest) = 1000%nat) by (rewrite length_firstn; lia).
  destruct (exists_last (l := firstn 1000 rest)) as (w & x & E).
  { intros E. rewrite E in Hw. discriminate. }
  exists w, x. split; [exact E|].
  rewrite <- (firstn_skipn 1000 rest) at 1. rewrite E, <- app_assoc. reflexivity.
Qed.

Lemma sameDimension_incl {A} (embeddingOf : A -> Vectors.vector) (query : Vectors.vector)
  (l l' : list A) :
  incl l' l -> sameDimension embeddingOf query l -> sameDimension embeddingOf query l'.
Proof.
  unfold sameDimension. rewrite !Forall_forall. auto.
Qed.

Lemma searchChunksV2_ok (ctx : context) (args : VectorSearchV2.Args.t) :
  sameDimension ChunkEmbedding.embedding (VectorSearchV2.Args.embedding args)
    (VectorSearchV2.scanWindow (db ctx) args) ->
  exists p, VectorSearchV2.searchChunksV2 ctx args = Ok p.
Proof.
  intros Hdim.
  destruct (SearchFacts.scan_scores ChunkEmbedding.embedding ChunkEmbedding.magnitude _ _ Hdim)
    as [scoredDocs [Hscan _]].
  unfold VectorSearchV2.searchChunksV2. rewrite Hscan. simpl. eauto.
Qed.

Lemma in_firstn {A} (n : nat) : forall (l : list A) (x : A),
  In x (firstn n l) -> In x l.
Proof.
  induction n as [|n IH]; intros [|y l] x H; simpl in *; try contradiction.
  destruct H as [H|H]; auto.
Qed.

(** ** Sessions over a pool yielded newest first *)

Section NewestFirst.
Variables (ctx : context) (args0 : VectorSearchV2.Args.t).
Variable candidates : list ChunkEmbedding.t.

Hypothesis candidates_def :
  candidates = pool (db ctx) (VectorSearchV2.Args.model args0).
Hypothesis dimensions :
  sameDimension ChunkEmbedding.embedding (VectorSearchV2.Args.embedding args0) candidates.
Hypothesis ids :
  Forall (fun emb => colonFree (ChunkEmbedding._id emb) = true) candidates.
Hypothesis order : newestFirst candidates.

(** Each call scans the next (up to) 1000 candidates of what is left, and
    [calls] calls are enough for what is left when it is shorter than
    [1000 * calls]. *)
Lemma session_scans_rest (calls : nat) :
  forall (pre rest : list ChunkEmbedding.t) (cursor : option string),
    candidates = pre ++ rest ->
    VectorSearchV2.scanWindow (db ctx) (withCursor cursor args0) = firstn 1000 rest ->
    (List.length rest < 1000 * calls)%nat ->
    exists pages,
      session calls ctx (withCursor cursor args0) = Completed pages
      /\ scannedBy pages = rest.
Proof.
  induction calls as [|calls IH]; intros pre rest cursor Hsplit Hwin Hlen; [lia|].
  assert (Hdim : sameDimension ChunkEmbedding.embedding
                   (VectorSearchV2.Args.embedding (withCursor cursor args0))
                   (VectorSearchV2.scanWindow (db ctx) (withCursor cursor args0))).
  { rewrite Hwin. apply (sameDimension_incl _ _ candidates); [|exact dimensions].
    rewrite Hsplit. intros e He. apply in_or_app. right.
    exact (in_firstn 1000 rest e He). }
  destruct (searchChunksV2_ok ctx _ Hdim) as [p Hp].
  destruct (SearchFacts.searchChunksV2_continuation ctx _ p Hp) as [Hmore Hnext].
  cbn [session]. rewrite Hp, Hmore, Hwin.
  destruct (Nat.lt_ge_cases (List.length rest) 1000) as [Hshort|Hfull].
  - (* the last page *)
    rewrite firstn_all2 by lia.
    destruct (Nat.eqb_spec (List.length rest) 1000); [lia|].
    eexists. split; [reflexivity|]. unfold scannedBy. cbn [map fst List.concat].
    apply app_nil_r.
  - (* a full page: the session goes on behind its last candidate *)
    destruct (full_window_split rest Hfull) as (w & x & Hw & Hrest).
    assert (Hl : List.length (firstn 1000 rest) = 1000%nat) by (rewrite length_firstn; lia).
    rewrite Hl, Nat.eqb_refl.
    rewrite Hwin, Hw, lastElement_app in Hnext. simpl in Hnext.
    assert (Hx : In x candidates).
    { rewrite Hsplit, Hrest. apply in_or_app. right. apply in_elt. }
    assert (Hid : colonFree (ChunkEmbedding._id x) = true).
    { rewrite Forall_forall in ids. now apply ids. }
    assert (Hnextwin :
              VectorSearchV2.scanWindow (db ctx)
                (withCursor (VectorSearchV2.nextCursor p) args0)
              = firstn 1000 (skipn 1000 rest)).
    { rewrite Hnext. unfold withCursor, VectorSearchV2.cursorOf.
      fold (cursorEncoding (ChunkEmbedding.createdAt x) (ChunkEmbedding._id x)).
      rewrite (CursorFacts.scanWindow_decoded _ _ _ _ _ _ _ Hid).
      rewrite <- candidates_def. f_equal.
      assert (Hc : candidates = (pre ++ w) ++ x :: skipn 1000 rest).
      { rewrite Hsplit, Hrest at 1. now rewrite <- app_assoc. }
      rewrite Hc. apply filter_before_pivot. rewrite <- Hc. exact order. }
    destruct (IH (pre ++ w ++ [x]) (skipn 1000 rest) (VectorSearchV2.nextCursor p))
      as (pages & Hpages & Hscanned).
    + rewrite Hsplit, Hrest at 1. now rewrite <- !app_assoc.
    + exact Hnextwin.
    + rewrite length_skipn. lia.
    + change (withCursor (VectorSearchV2.nextCursor p) (withCursor cursor args0))
        with (withCursor (VectorSearchV2.nextCursor p) args0).
      rewrite Hpages. eexists. split; [reflexivity|].
      unfold scannedBy in *. rewrite map_cons, concat_cons. cbn [fst].
      rewrite Hscanned. apply firstn_skipn.
Qed.
End NewestFirst.

(** ** A session over a table in insertion order *)

Lemma rescan_evaluated :
  match Samples.afterStores 1001 with
  | Ok d =>
      match session 3 (Samples.runningOn d) (Samples.chunkQuery [1%float] None) with
      | Completed [(w1, p1); (w2, p2)] =>
          chunkEmbeddings d = Samples.insertedInTurn 1001
          /\ w1 = Samples.insertedInTurn 1000
          /\ w2 = Samples.insertedInTurn 999
          /\ VectorSearchV2.hasMore p1 = true
          /\ VectorSearchV2.nextCursor p1 = Some "1000:e1000"%string
          /\ VectorSearchV2.hasMore p2 = false
      | _ => False
      end
  | Throw _ => False
  end.
Proof. vm_compute. repeat split; reflexivity. Qed.

Lemma old_ids (emb : ChunkEmbedding.t) (n : nat) :
  (n <= 1000)%nat -> In emb (Samples.insertedInTurn n) ->
  ChunkEmbedding._id emb <> "e1001"%string.
Proof.
  intros Hn Hi. unfold Samples.insertedInTurn in Hi.
  apply in_map_iff in Hi. destruct Hi as (i & <- & Hi). apply in_seq in Hi.
  simpl. intros E. injection E as E.
  assert (Hp : parseInt (numberToString (Z.of_nat i)) = Some 1001%Z)
    by now rewrite E.
  rewrite CursorFacts.parseInt_numberToString in Hp.
  injection Hp as Hp. lia.
Qed.

(** C6 on the table as Convex yields it.  1001 embeddings are stored by
    [storeChunkEmbedding] one millisecond apart, and a query yields them
    in insertion order.  The first page scans the 1000 oldest and
    returns the cursor of the 1000th with [hasMore = true]; the second
    page scans the 999 candidates before that cursor again and says
    [hasMore = false].  The newest embedding is never scanned, and the
    oldest is scanned twice. *)
Theorem insertion_order_session_rescans :
  exists d p1 p2,
    Samples.afterStores 1001 = Ok d
    /\ chunkEmbeddings d = Samples.insertedInTurn 1001
    /\ session 3 (Samples.runningOn d) (Samples.chunkQuery [1%float] None)
       = Completed [ (Samples.insertedInTurn 1000, p1); (Samples.insertedInTurn 999, p2) ]
    /\ VectorSearchV2.hasMore p1 = true
    /\ VectorSearchV2.nextCursor p1 = Some "1000:e1000"%string
    /\ VectorSearchV2.hasMore p2 = false
    /\ ~ In "e1001"%string
          (map ChunkEmbedding._id
               (Samples.insertedInTurn 1000 ++ Samples.insertedInTurn 999))
    /\ count_occ string_dec
          (map ChunkEmbedding._id
               (Samples.insertedInTurn 1000 ++ Samples.insertedInTurn 999))
          "e1"%string = 2%nat.
Proof.
  pose proof rescan_evaluated as H.
  destruct (Samples.afterStores 1001) as [d|]; [|contradiction].
  destruct (session 3 _ _) as [[|[w1 p1] [|[w2 p2] [|]]]| |] eqn:E; try contradiction.
  destruct H as (Hd & Hw1 & Hw2 & H1 & H2 & H3). subst w1 w2.
  exists d, p1, p2.
  split; [reflexivity|]. split; [exact Hd|]. split; [exact E|].
  split; [exact H1|]. split; [exact H2|]. split; [exact H3|].
  split; [|vm_compute; reflexivity].
  intros Hin. apply in_map_iff in Hin. destruct Hin as (emb & Hid & Hin).
  apply in_app_or in Hin.
  destruct Hin as [Hin|Hin];
    [apply (old_ids emb 1000) in Hin | apply (old_ids emb 999) in Hin]; auto; lia.
Qed.
End PaginationFacts.

(* ================================================================= *)
(** * Further properties of the specification *)

Module CacheFacts.
Import JS Vectors Convex Spec.
Open Scope float_scope.

Lemma mul_comm (x y : number) : x * y = y * x.
Proof.
  apply Prim2SF_inj. rewrite !mul_spec. unfold SF64mul.
  destruct (Prim2SF x) as [sx|sx| |sx mx ex], (Prim2SF y) as [sy|sy| |sy my ey];
    simpl; rewrite ?(xorb_comm sx sy), ?(Pos.mul_comm mx my), ?(Z.add_comm ex ey);
    reflexivity.
Qed.

Lemma dotLoop_comm (a : vector) : forall (b : vector) acc,
  dotLoop a b acc = dotLoop b a acc.
Proof.
  induction a as [|x a IH]; intros [|y b] acc; simpl; try reflexivity.
  now rewrite (mul_comm x y), IH.
Qed.

(** Symmetry: on vectors of equal length [cosineSimilarity(a, b)] and
    [cosineSimilarity(b, a)] are the same number, rounding included. *)
Theorem cosineSimilarity_symmetric (a b : vector) :
  List.length a = List.length b -> cosineSimilarity a b = cosineSimilarity b a.
Proof.
  intros H. unfold cosineSimilarity.
  rewrite (VectorsFacts.checkDimensions_same a b H),
          (VectorsFacts.checkDimensions_same b a (eq_sym H)). simpl.
  rewrite (VectorsFacts.cosineLoop_split a b 0 0 0 H),
          (VectorsFacts.cosineLoop_split b a 0 0 0 (eq_sym H)).
  rewrite (dotLoop_comm a b), (mul_comm (sqrt (squareLoop a 0))), (orb_comm (strictEq _ _)).
  reflexivity.
Qed.

Lemma cosineSimilarity_symmetric_witness :
  cosineSimilarity [0.9; 0.1; 0] [1; 0; 0] = cosineSimilarity [1; 0; 0] [0.9; 0.1; 0].
Proof. apply cosineSimilarity_symmetric. reflexivity. Defined.

(** [reduce((sum, val) => sum + val * val, 0)] runs the loop of
    [calculateMagnitude]. *)
Lemma reducedMagnitude_calculateMagnitude (v : vector) :
  reducedMagnitude v = calculateMagnitude v.
Proof. reflexivity. Qed.

Lemma norms_agree (a b : vector) :
  cosineSimilarityWithMagnitude a b (reducedMagnitude a) (reducedMagnitude b)
  = cosineSimilarity a b.
Proof.
  unfold cosineSimilarityWithMagnitude, cosineSimilarity.
  destruct (Nat.eq_dec (List.length a) (List.length b)) as [Hlen|Hlen].
  - rewrite (VectorsFacts.checkDimensions_same a b Hlen). simpl.
    now rewrite (VectorsFacts.cosineLoop_split a b 0 0 0 Hlen).
  - now rewrite (VectorsFacts.checkDimensions_differ a b Hlen).
Qed.

(** The magnitude cache: when the chunk exists, [storeChunkEmbedding]
    appends one document, whose [magnitude] is the norm
    [calculateMagnitude] computes of its embedding; against such a
    document the similarity the search computes from the cached
    magnitude is [cosineSimilarity]. *)
Theorem stored_magnitude_is_the_norm
  (now : Z) (newId : Id) (args : VectorSearchV2.StoreArgs.t) (d : database) :
  existsb (fun c => String.eqb (Chunk._id c) (VectorSearchV2.StoreArgs.chunkId args))
          (chunks d) = true ->
  exists d' emb,
    VectorSearchV2.storeChunkEmbedding now newId args d = Ok (newId, d')
    /\ chunkEmbeddings d' = chunkEmbeddings d ++ [emb]
    /\ ChunkEmbedding._id emb = newId
    /\ ChunkEmbedding.createdAt emb = now
    /\ ChunkEmbedding.embedding emb = VectorSearchV2.StoreArgs.embedding args
    /\ ChunkEmbedding.magnitude emb = calculateMagnitude (ChunkEmbedding.embedding emb)
    /\ forall query,
         cosineSimilarityWithMagnitude query (ChunkEmbedding.embedding emb)
           (reducedMagnitude query) (ChunkEmbedding.magnitude emb)
         = cosineSimilarity query (ChunkEmbedding.embedding emb).
Proof.
  intros Hchunk.
  unfold VectorSearchV2.storeChunkEmbedding, patchChunk.
  cbn [chunks insertChunkEmbedding]. rewrite Hchunk. simpl.
  eexists. eexists. split; [reflexivity|]. simpl. repeat split.
  intros query. apply norms_agree.
Qed.

Lemma stored_magnitude_is_the_norm_witness :
  exists d' emb,
    VectorSearchV2.storeChunkEmbedding 1 "e1"%string
      {| VectorSearchV2.StoreArgs.chunkId := "ce1"%string;
         VectorSearchV2.StoreArgs.embedding := [1];
         VectorSearchV2.StoreArgs.model := "voyage-3.5"%string;
         VectorSearchV2.StoreArgs.dimensions := 1 |}
      (Samples.chunksOnly 1) = Ok ("e1"%string, d')
    /\ chunkEmbeddings d' = chunkEmbeddings (Samples.chunksOnly 1) ++ [emb]
    /\ ChunkEmbedding._id emb = "e1"%string
    /\ ChunkEmbedding.createdAt emb = 1%Z
    /\ ChunkEmbedding.embedding emb = [1]
    /\ ChunkEmbedding.magnitude emb = calculateMagnitude (ChunkEmbedding.embedding emb)
    /\ forall query,
         cosineSimilarityWithMagnitude query (ChunkEmbedding.embedding emb)
           (reducedMagnitude query) (ChunkEmbedding.magnitude emb)
         = cosineSimilarity query (ChunkEmbedding.embedding emb).
Proof.
  apply (stored_magnitude_is_the_norm 1 "e1"%string
           {| VectorSearchV2.StoreArgs.chunkId := "ce1"%string;
              VectorSearchV2.StoreArgs.embedding := [1];
              VectorSearchV2.StoreArgs.model := "voyage-3.5"%string;
              VectorSearchV2.StoreArgs.dimensions := 1 |}
           (Samples.chunksOnly 1)).
  reflexivity.
Defined.
End CacheFacts.

(* ================================================================= *)
(** * Properties of the rest of the vector library *)

Module VectorOpsFacts.
Import JS Vectors Spec JSArray VectorOps Notions.
Open Scope float_scope.

(** ** Batches *)

Lemma mapIndexed_cache (query : vector) (magnitudes : option (list number)) :
  forall (vectors : list vector) (index : nat),
    (forall i v m,
        nth_error vectors i = Some v ->
        cachedMagnitude magnitudes (index + i) = Some m ->
        m = calculateMagnitude v) ->
    mapIndexed
      (fun vector index =>
         match cachedMagnitude magnitudes index with
         | Some m => cosineSimilarityWithMagnitude query vector (calculateMagnitude query) m
         | None => cosineSimilarity query vector
         end)
      vectors index
    = mapM (cosineSimilarity query) vectors.
Proof.
  induction vectors as [|v vectors IH]; intros index H; simpl; [reflexivity|].
  rewrite (IH (S index)).
  - destruct (cachedMagnitude magnitudes index) as [m|] eqn:E; [|reflexivity].
    rewrite (H 0%nat v m eq_refl) by now rewrite Nat.add_0_r.
    now rewrite <- (CacheFacts.norms_agree query v).
  - intros i v' m Hv Hm. apply (H (S i) v' m Hv).
    now rewrite Nat.add_succ_r.
Qed.

(** The magnitude cache of [batchCosineSimilarity] is transparent:
    when every truthy cached magnitude that is used is the magnitude
    [calculateMagnitude] computes of its vector, the batch returns what
    [cosineSimilarity] returns vector by vector, in order, and it throws
    the dimension-mismatch error of the first vector of another length.
    A missing array, an array that is too short and cached zeros fall
    back to [cosineSimilarity]. *)
Theorem batchCosineSimilarity_cache
  (query : vector) (vectors : list vector) (magnitudes : option (list number)) :
  (forall index v m,
      nth_error vectors index = Some v ->
      cachedMagnitude magnitudes index = Some m ->
      m = calculateMagnitude v) ->
  batchCosineSimilarity query vectors magnitudes = mapM (cosineSimilarity query) vectors.
Proof.
  intros H. unfold batchCosineSimilarity. now apply mapIndexed_cache.
Qed.

Lemma batchCosineSimilarity_cache_witness :
  batchCosineSimilarity [1; 0] [[3; 4]; [0; 0]; [0; 2]] (Some [5; 0])
  = mapM (cosineSimilarity [1; 0]) [[3; 4]; [0; 0]; [0; 2]].
Proof.
  apply batchCosineSimilarity_cache.
  intros [|[|[|index]]] v m Hv Hm; simpl in Hv, Hm; try discriminate.
  injection Hv as <-. injection Hm as <-. reflexivity.
Defined.

(** ** Normalisation *)

Lemma wild_not_zero (m : number) : wild m -> strictEq m 0 = false.
Proof.
  unfold wild, strictEq. rewrite eqb_spec. change (Prim2SF 0) with (S754_zero false).
  destruct (Prim2SF m) as [s|[]| |s q e]; simpl; tauto.
Qed.

Lemma div_by_wild (x m : number) :
  wild m -> strictEq (x / m) 0 = true \/ is_nan (x / m) = true.
Proof.
  unfold wild, strictEq, is_nan. rewrite !eqb_spec, div_spec.
  change (Prim2SF 0) with (S754_zero false).
  destruct (Prim2SF x) as [sx|sx| |sx mx ex], (Prim2SF m) as [sm|sm| |sm mm em];
    simpl; try tauto; destruct (xorb sx sm); auto.
Qed.

Lemma infinity_wild (x : number) : x = infinity -> wild x.
Proof. intros ->. exact I. Qed.

(** [normalizeVector] does not always return a unit vector.  A
    vector whose magnitude is computed as [0] (all entries zero, or so
    small that their squares vanish) is returned as it is.  A vector with
    a [NaN] or infinite entry, or whose sum of squares overflows to
    [Infinity], is mapped to a vector of the same length in which every
    entry is a zero or [NaN]. *)
Theorem normalizeVector_degenerate (v : vector) :
  (strictEq (calculateMagnitude v) 0 = true -> normalizeVector v = v)
  /\ (hasInvalidEntry v \/ calculateMagnitude v = infinity ->
      List.length (normalizeVector v) = List.length v
      /\ Forall (fun x => strictEq x 0 = true \/ is_nan x = true) (normalizeVector v)).
Proof.
  split.
  - intros H. unfold normalizeVector. now rewrite H.
  - intros H.
    assert (W : wild (calculateMagnitude v)).
    { destruct H as [H|H]; [|now apply infinity_wild].
      exact (SearchFacts.reducedMagnitude_wild v H). }
    unfold normalizeVector. rewrite (wild_not_zero _ W).
    split; [apply length_map|].
    apply Forall_map, Forall_forall. intros x _. now apply div_by_wild.
Qed.

Lemma normalizeVector_degenerate_witness :
  normalizeVector [1e-200; 0] = [1e-200; 0]
  /\ List.length (normalizeVector [1e200; 3]) = List.length [1e200; 3]
  /\ Forall (fun x => strictEq x 0 = true \/ is_nan x = true) (normalizeVector [1e200; 3]).
Proof.
  split.
  - apply (proj1 (normalizeVector_degenerate [1e-200; 0])). reflexivity.
  - apply (proj2 (normalizeVector_degenerate [1e200; 3])). right. reflexivity.
Defined.

(** ** Centroids *)

Lemma addVector_length (centroid : list number) : forall vector,
  List.length (addVector centroid vector) = List.length centroid.
Proof.
  induction centroid as [|c centroid IH]; intros [|x vector]; simpl; auto.
Qed.

Lemma fold_addVector_length (vectors : list vector) : forall centroid,
  List.length (fold_left addVector vectors centroid) = List.length centroid.
Proof.
  induction vectors as [|v vectors IH]; intros centroid; simpl; [reflexivity|].
  now rewrite IH, addVector_length.
Qed.

Lemma nan_add_l (c x : number) : is_nan c = true -> is_nan (c + x) = true.
Proof.
  intros H. apply NumberOrder.is_nan_true in H.
  unfold is_nan. rewrite eqb_spec, add_spec, H. reflexivity.
Qed.

Lemma nan_add_r (c x : number) : is_nan x = true -> is_nan (c + x) = true.
Proof.
  intros H. apply NumberOrder.is_nan_true in H.
  unfold is_nan. rewrite eqb_spec, add_spec, H. now destruct (Prim2SF c).
Qed.

Lemma nan_div_l (x y : number) : is_nan x = true -> is_nan (x / y) = true.
Proof.
  intros H. apply NumberOrder.is_nan_true in H.
  unfold is_nan. rewrite eqb_spec, div_spec, H. reflexivity.
Qed.

Lemma addVector_keeps_nan (i : nat) : forall centroid vector,
  nanAt i centroid -> nanAt i (addVector centroid vector).
Proof.
  induction i as [|i IH]; intros [|c centroid] vector [x [Hx Hn]]; simpl in Hx;
    try discriminate.
  - injection Hx as ->.
    destruct vector; simpl; eexists; (split; [reflexivity | now apply nan_add_l]).
  - assert (H : nanAt i centroid) by (exists x; auto).
    destruct vector as [|y vector]; simpl; exact (IH centroid _ H).
Qed.

Lemma addVector_makes_nan (i : nat) : forall centroid vector,
  (List.length vector <= i < List.length centroid)%nat ->
  nanAt i (addVector centroid vector).
Proof.
  induction i as [|i IH]; intros [|c centroid] [|y vector] H; simpl in *; try lia.
  - exists (c + nan). split; [reflexivity | now apply nan_add_r].
  - apply (IH centroid []). simpl. lia.
  - apply (IH centroid vector). lia.
Qed.

Lemma fold_addVector_nan (i : nat) (vectors : list vector) : forall centroid,
  nanAt i centroid
  \/ (exists v, In v vectors /\ (List.length v <= i < List.length centroid)%nat) ->
  nanAt i (fold_left addVector vectors centroid).
Proof.
  induction vectors as [|w vectors IH]; intros centroid H; simpl.
  - destruct H as [H | [v [[] _]]]. exact H.
  - apply IH. destruct H as [H | [v [[<- | Hin] Hv]]].
    + left. now apply addVector_keeps_nan.
    + left. now apply addVector_makes_nan.
    + right. exists v. rewrite addVector_length. auto.
Qed.

Lemma nanAt_divided (i : nat) (l : list number) (n : number) :
  nanAt i l -> nanAt i (map (fun val => val / n) l).
Proof.
  intros [x [Hx Hn]]. exists (x / n). split.
  - now apply (map_nth_error (fun val => val / n)).
  - now apply nan_div_l.
Qed.

Lemma addVector_firstn (centroid : list number) : forall vector,
  addVector centroid (firstn (List.length centroid) vector) = addVector centroid vector.
Proof.
  induction centroid as [|c centroid IH]; intros [|x vector]; simpl; auto.
  now rewrite IH.
Qed.

Lemma fold_addVector_firstn (vectors : list vector) : forall centroid,
  fold_left addVector (map (firstn (List.length centroid)) vectors) centroid
  = fold_left addVector vectors centroid.
Proof.
  induction vectors as [|v vectors IH]; intros centroid; simpl; [reflexivity|].
  rewrite addVector_firstn.
  rewrite <- (addVector_length centroid v) at 1. apply IH.
Qed.

(** [calculateCentroid] throws on the empty set only: it never
    checks dimensions.  The centroid has the length of the first vector;
    a vector that is shorter makes every coordinate it lacks [NaN], and
    what a vector holds beyond that length is ignored. *)
Theorem calculateCentroid_first_dimension (first : vector) (rest : list vector) :
  calculateCentroid [] = None
  /\ exists centroid,
       calculateCentroid (first :: rest) = Some centroid
       /\ List.length centroid = List.length first
       /\ (forall v i, In v rest ->
                       (List.length v <= i < List.length first)%nat -> nanAt i centroid)
       /\ calculateCentroid (first :: map (firstn (List.length first)) rest)
          = Some centroid.
Proof.
  split; [reflexivity|].
  eexists. split; [reflexivity|]. split; [|split].
  - now rewrite length_map, fold_addVector_length, repeat_length.
  - intros v i Hin Hi. apply nanAt_divided, fold_addVector_nan. right.
    exists v. rewrite repeat_length. split; [now right | exact Hi].
  - unfold calculateCentroid. f_equal.
    unfold lengthNumber. cbn [List.length]. rewrite length_map.
    f_equal. cbn [fold_left].
    rewrite <- (fold_addVector_firstn rest).
    now rewrite addVector_length, repeat_length.
Qed.

(** ** Validation *)

Lemma valid_entries (v : vector) :
  forallb (fun val => negb (is_nan val) && is_finite val) v = negb (existsb invalidEntry v).
Proof.
  induction v as [|x v IH]; simpl; [reflexivity|].
  rewrite IH. unfold invalidEntry, is_finite.
  destruct (is_nan x), (is_infinity x); reflexivity.
Qed.

(** [validateVector] accepts exactly the vectors without a [NaN]
    or infinite entry whose length is the expected one; an expected
    dimension of [0] is falsy and checks nothing, so that
    [validateVector(v, 0)] is [validateVector(v)], and the empty vector
    is valid. *)
Theorem validateVector_accepts (v : vector) (expectedDimensions : option number) :
  validateVector v None = negb (existsb invalidEntry v)
  /\ validateVector v (Some 0) = validateVector v None
  /\ validateVector [] None = true
  /\ (validateVector v expectedDimensions = true <->
      ~ hasInvalidEntry v
      /\ forall n, expectedDimensions = Some n -> ToBoolean n = true ->
                   strictEq (lengthNumber v) n = true).
Proof.
  unfold validateVector, hasInvalidEntry. rewrite !valid_entries.
  split; [reflexivity|]. split; [reflexivity|]. split; [reflexivity|].
  destruct (existsb invalidEntry v); simpl.
  - split; [|intros [H _]; now contradiction H].
    destruct expectedDimensions as [n|]; [|discriminate].
    destruct (ToBoolean n && negb (strictEq (lengthNumber v) n)); discriminate.
  - destruct expectedDimensions as [n|].
    + destruct (ToBoolean n) eqn:T; simpl.
      * destruct (strictEq (lengthNumber v) n) eqn:E; simpl.
        -- split; [|reflexivity]. intros _. split; [discriminate|].
           intros n' H _. now injection H as <-.
        -- split; [discriminate|]. intros [_ H].
           specialize (H n eq_refl T). congruence.
      * split; [|reflexivity]. intros _. split; [discriminate|].
        intros n' H Hn. injection H as <-. congruence.
    + split; [|reflexivity]. intros _. split; [discriminate|]. discriminate.
Qed.

(** ** Chunking an array *)

Lemma slice_chunk {T} (array : list T) (i c : Z) :
  (0 <= i < Z.of_nat (List.length array))%Z -> (0 < c)%Z ->
  slice array i (i + c)
  = firstn (Z.to_nat (Z.min (i + c) (Z.of_nat (List.length array)) - i))
           (skipn (Z.to_nat i) array).
Proof.
  intros Hi Hc. unfold slice, relativeIndex.
  destruct (Z.ltb_spec i 0); [lia|].
  destruct (Z.ltb_spec (i + c) 0); [lia|].
  now rewrite (Z.min_l i) by lia.
Qed.

Lemma chunkLoop_positive {T} (array : list T) (c : Z) (fuel : nat) :
  (0 < c)%Z ->
  forall (i : Z) (chunks : list (list T)),
    (0 <= i)%Z ->
    (Z.to_nat (Z.of_nat (List.length array) - i) < fuel)%nat ->
    exists rest,
      chunkLoop fuel array c i chunks = Some (chunks ++ rest)
      /\ List.concat rest = skipn (Z.to_nat i) array
      /\ Forall (fun ch => (1 <= Z.of_nat (List.length ch) <= c)%Z) rest
      /\ Forall (fun ch => Z.of_nat (List.length ch) = c) (removelast rest)
      /\ Z.of_nat (List.length rest)
         = ((Z.max (Z.of_nat (List.length array) - i) 0 + c - 1) / c)%Z.
Proof.
  intros Hc. set (n := Z.of_nat (List.length array)).
  induction fuel as [|fuel IH]; intros i chunks Hi Hfuel; [lia|].
  cbn [chunkLoop]. fold n.
  destruct (Z.ltb_spec i n) as [Hlt|Hge].
  - assert (Hfuel' : (Z.to_nat (n - (i + c)) < fuel)%nat) by lia.
    destruct (IH (i + c)%Z (chunks ++ [slice array i (i + c)]) ltac:(lia) Hfuel')
      as (rest & Hrun & Hcat & Hsize & Hfull & Hcount).
    rewrite slice_chunk in * by (fold n; lia). fold n in Hrun |- *.
    set (chunk := firstn (Z.to_nat (Z.min (i + c) n - i)) (skipn (Z.to_nat i) array)) in *.
    assert (Hlen : Z.of_nat (List.length chunk) = (Z.min (i + c) n - i)%Z).
    { unfold chunk. rewrite length_firstn, length_skipn. unfold n. lia. }
    exists (chunk :: rest). split; [|split; [|split; [|split]]].
    + now rewrite Hrun, <- app_assoc.
    + cbn [List.concat]. rewrite Hcat. unfold chunk.
      destruct (Z.le_gt_cases (i + c) n) as [Hin|Hout].
      * rewrite Z.min_l by lia.
        replace (Z.to_nat (i + c)) with (Z.to_nat (i + c - i) + Z.to_nat i)%nat by lia.
        rewrite <- skipn_skipn. apply firstn_skipn.
      * rewrite (skipn_all2 (n := Z.to_nat (i + c))) by (unfold n in Hout; lia).
        rewrite app_nil_r. apply firstn_all2. rewrite length_skipn. unfold n. lia.
    + constructor; [lia | exact Hsize].
    + destruct rest as [|ch rest]; [constructor|].
      cbn [removelast]. constructor; [|exact Hfull].
      cbn [List.length] in Hcount.
      destruct (Z.le_gt_cases n (i + c)) as [Hout|Hin]; [|lia].
      rewrite Z.max_r, Z.div_small in Hcount by lia. lia.
    + cbn [List.length]. rewrite Nat2Z.inj_succ, Hcount.
      rewrite (Z.max_l (n - i)) by lia.
      destruct (Z.le_gt_cases n (i + c)) as [Hout|Hin].
      * rewrite Z.max_r, Z.div_small by lia.
        change (Z.succ 0) with 1%Z. apply (Z.div_unique_pos _ _ 1 (n - i - 1)); lia.
      * rewrite Z.max_l by lia.
        replace (n - i + c - 1)%Z with (n - (i + c) + c - 1 + 1 * c)%Z by lia.
        rewrite Z.div_add by lia. lia.
  - exists []. rewrite app_nil_r. split; [reflexivity|]. split; [|split; [|split]].
    + symmetry. apply skipn_all2. unfold n in Hge. lia.
    + constructor.
    + constructor.
    + rewrite Z.max_r, Z.div_small by lia. reflexivity.
Qed.

(** For a positive integral chunk size [chunkArray] ends (after at
    most [array.length] rounds) and partitions the array: the chunks,
    concatenated, are the array; every chunk holds between 1 and
    [chunkSize] elements, every chunk but the last exactly [chunkSize];
    and there are [ceil(array.length / chunkSize)] chunks. *)
Theorem chunkArray_partitions {T} (array : list T) (chunkSize : Z) (fuel : nat) :
  (0 < chunkSize)%Z -> (List.length array < fuel)%nat ->
  exists chunks,
    chunkArray fuel array chunkSize = Some chunks
    /\ List.concat chunks = array
    /\ Forall (fun ch => (1 <= Z.of_nat (List.length ch) <= chunkSize)%Z) chunks
    /\ Forall (fun ch => Z.of_nat (List.length ch) = chunkSize) (removelast chunks)
    /\ Z.of_nat (List.length chunks)
       = ((Z.of_nat (List.length array) + chunkSize - 1) / chunkSize)%Z.
Proof.
  intros Hc Hfuel.
  destruct (chunkLoop_positive array chunkSize fuel Hc 0%Z [] ltac:(lia) ltac:(lia))
    as (chunks & Hrun & Hcat & Hsize & Hfull & Hcount).
  exists chunks. repeat split; auto.
  rewrite Hcount. f_equal. lia.
Qed.

Lemma chunkArray_partitions_witness :
  exists chunks,
    chunkArray 8 [1; 2; 3; 4; 5; 6; 7]%nat 3 = Some chunks
    /\ List.concat chunks = [1; 2; 3; 4; 5; 6; 7]%nat
    /\ Forall (fun ch => (1 <= Z.of_nat (List.length ch) <= 3)%Z) chunks
    /\ Forall (fun ch => Z.of_nat (List.length ch) = 3%Z) (removelast chunks)
    /\ Z.of_nat (List.length chunks)
       = ((Z.of_nat (List.length [1; 2; 3; 4; 5; 6; 7]%nat) + 3 - 1) / 3)%Z.
Proof.
  apply (chunkArray_partitions [1; 2; 3; 4; 5; 6; 7]%nat 3 8); [lia | simpl; lia].
Defined.

Lemma chunkLoop_stuck {T} (array : list T) (c : Z) (fuel : nat) :
  (c <= 0)%Z -> array <> [] ->
  forall (i : Z) (chunks : list (list T)),
    (i <= 0)%Z -> chunkLoop fuel array c i chunks = None.
Proof.
  intros Hc Ha. induction fuel as [|fuel IH]; intros i chunks Hi; [reflexivity|].
  cbn [chunkLoop].
  destruct (Z.ltb_spec i (Z.of_nat (List.length array))) as [_|Hge].
  - apply IH. lia.
  - destruct array; [now contradiction Ha | simpl in Hge; lia].
Qed.

(** With a chunk size of [0] or a negative one, [chunkArray] on a
    non-empty array never returns: the index never passes the end of the
    array, whatever the number of rounds. *)
Theorem chunkArray_nonpositive_size_never_returns {T} (array : list T) (chunkSize : Z) :
  (chunkSize <= 0)%Z -> array <> [] ->
  forall fuel, chunkArray fuel array chunkSize = None.
Proof.
  intros Hc Ha fuel. unfold chunkArray. apply chunkLoop_stuck; auto; lia.
Qed.

Lemma chunkArray_nonpositive_size_never_returns_witness :
  chunkArray 1000 [1; 2; 3]%nat 0 = None.
Proof.
  apply (chunkArray_nonpositive_size_never_returns [1; 2; 3]%nat 0); [lia | discriminate].
Defined.

(** ** Distances *)

Lemma binary_round_aux_opp (s : bool) (m e : Z) (l : location) :
  binary_round_aux prec emax (negb s) m e l = SFopp (binary_round_aux prec emax s m e l).
Proof.
  unfold binary_round_aux.
  destruct (shr_fexp prec emax m e l) as [mrs' e'].
  destruct (shr_fexp prec emax _ e' loc_Exact) as [mrs'' e''].
  destruct (shr_m mrs''); [reflexivity | | reflexivity].
  destruct (e'' <=? emax - prec)%Z; reflexivity.
Qed.

Lemma binary_normalize_opp (d e : Z) :
  d <> 0%Z ->
  binary_normalize prec emax (- d) e false = SFopp (binary_normalize prec emax d e false).
Proof.
  intros Hd. destruct d as [|p|p]; [now contradiction Hd | |];
    cbn [Z.opp binary_normalize]; unfold binary_round;
    destruct (shl_align p e _) as [mz ez].
  - exact (binary_round_aux_opp false (Zpos mz) ez loc_Exact).
  - exact (binary_round_aux_opp true (Zpos mz) ez loc_Exact).
Qed.

Lemma SFmul_opp_opp (r : spec_float) :
  SFmul prec emax (SFopp r) (SFopp r) = SFmul prec emax r r.
Proof. destruct r as [[]|[]| |[] m e]; reflexivity. Qed.

Lemma SFsub_square_swap (x y : spec_float) :
  SFmul prec emax (SFsub prec emax x y) (SFsub prec emax x y)
  = SFmul prec emax (SFsub prec emax y x) (SFsub prec emax y x).
Proof.
  destruct x as [sx|sx| |sx mx ex], y as [sy|sy| |sy my ey];
    try (destruct sx, sy; reflexivity); try (destruct sx; reflexivity);
    try (destruct sy; reflexivity); try reflexivity.
  cbn [SFsub]. rewrite (Z.min_comm ey ex).
  set (ez := Z.min ex ey).
  set (a := cond_Zopp sx (Zpos (fst (shl_align mx ex ez)))).
  set (b := cond_Zopp sy (Zpos (fst (shl_align my ey ez)))).
  destruct (Z.eq_dec (a - b) 0) as [E|E].
  - replace (b - a)%Z with 0%Z by lia. now rewrite E.
  - replace (b - a)%Z with (- (a - b))%Z by lia.
    rewrite (binary_normalize_opp _ _ E). apply eq_sym, SFmul_opp_opp.
Qed.

Lemma sub_square_swap (x y : number) : (x - y) * (x - y) = (y - x) * (y - x).
Proof.
  apply Prim2SF_inj. rewrite !mul_spec, !sub_spec. apply SFsub_square_swap.
Qed.

Lemma distanceLoop_swap (a : vector) : forall (b : vector) sum,
  distanceLoop a b sum = distanceLoop b a sum.
Proof.
  induction a as [|x a IH]; intros [|y b] sum; simpl; try reflexivity.
  now rewrite (sub_square_swap x y), IH.
Qed.

(** On vectors of equal length [euclideanDistance] and
    [dotProduct] are symmetric: the two orders of the arguments give the
    same number, rounding included. *)
Theorem distance_and_product_symmetric (a b : vector) :
  List.length a = List.length b ->
  euclideanDistance a b = euclideanDistance b a
  /\ dotProduct a b = dotProduct b a.
Proof.
  intros H. unfold euclideanDistance, dotProduct.
  rewrite (VectorsFacts.checkDimensions_same a b H),
          (VectorsFacts.checkDimensions_same b a (eq_sym H)). simpl.
  now rewrite (distanceLoop_swap a b), (CacheFacts.dotLoop_comm a b).
Qed.

Lemma distance_and_product_symmetric_witness :
  euclideanDistance [0.1; 2] [3; 0.7] = euclideanDistance [3; 0.7] [0.1; 2]
  /\ dotProduct [0.1; 2] [3; 0.7] = dotProduct [3; 0.7] [0.1; 2].
Proof. apply distance_and_product_symmetric. reflexivity. Defined.

Lemma finite_spec (x : number) :
  is_finite x = true ->
  match Prim2SF x with
  | S754_zero _ | S754_finite _ _ _ => True
  | _ => False
  end.
Proof.
  unfold is_finite. intros H. apply negb_true_iff, orb_false_iff in H.
  destruct H as [Hn Hi]. apply NumberOrder.is_nan_false in Hn.
  unfold is_infinity in Hi. rewrite eqb_spec, abs_spec in Hi.
  change (Prim2SF infinity) with (S754_infinity false) in Hi.
  destruct (Prim2SF x) as [s|s| |s m e]; simpl in *; auto; try discriminate.
Qed.

Lemma sub_self (x : number) : is_finite x = true -> x - x = 0.
Proof.
  intros H. apply finite_spec in H. apply Prim2SF_inj. rewrite sub_spec.
  change (Prim2SF 0) with (S754_zero false).
  destruct (Prim2SF x) as [s|s| |s m e]; try contradiction.
  - now destruct s.
  - unfold SF64sub. cbn [SFsub].
    match goal with
    | |- binary_normalize _ _ ?d _ _ = _ => replace d with 0%Z by lia
    end.
    reflexivity.
Qed.

Lemma sub_zero (x : number) : x - 0 = x.
Proof.
  apply Prim2SF_inj. rewrite sub_spec. change (Prim2SF 0) with (S754_zero false).
  now destruct (Prim2SF x) as [[]|[]| |s m e].
Qed.

Lemma distanceLoop_self (a : vector) :
  Forall (fun x => is_finite x = true) a -> distanceLoop a a 0 = 0.
Proof.
  induction 1 as [|x a Hx Ha IH]; simpl; [reflexivity|].
  rewrite (sub_self x Hx). exact IH.
Qed.

Lemma distanceLoop_origin (v : vector) : forall sum,
  distanceLoop v (repeat 0 (List.length v)) sum = squareLoop v sum.
Proof.
  induction v as [|x v IH]; intros sum; simpl; [reflexivity|].
  now rewrite sub_zero, IH.
Qed.

(** The distance of a vector of finite entries to itself is
    exactly [0], and the distance of any vector to the origin is its
    magnitude, as [calculateMagnitude] computes it. *)
Theorem euclideanDistance_to_itself_and_origin (v : vector) :
  (Forall (fun x => is_finite x = true) v -> euclideanDistance v v = Ok 0)
  /\ euclideanDistance v (repeat 0 (List.length v)) = Ok (calculateMagnitude v).
Proof.
  split.
  - intros H. unfold euclideanDistance.
    rewrite (VectorsFacts.checkDimensions_same v v eq_refl). simpl.
    now rewrite (distanceLoop_self v H).
  - unfold euclideanDistance.
    rewrite VectorsFacts.checkDimensions_same by now rewrite repeat_length.
    simpl. now rewrite distanceLoop_origin.
Qed.

Lemma euclideanDistance_to_itself_and_origin_witness :
  euclideanDistance [0.3; -2; 0] [0.3; -2; 0] = Ok 0
  /\ euclideanDistance [0.3; -2; 0] (repeat 0 (List.length [0.3; -2; 0]))
     = Ok (calculateMagnitude [0.3; -2; 0]).
Proof.
  split.
  - apply (proj1 (euclideanDistance_to_itself_and_origin [0.3; -2; 0])).
    repeat constructor.
  - apply (proj2 (euclideanDistance_to_itself_and_origin [0.3; -2; 0])).
Defined.

End VectorOpsFacts.

(* ================================================================= *)
(** * What the search handlers return *)

Module HandlerFacts.
Import JS Vectors Convex Spec Notions.
Open Scope float_scope.

(** The ranking every handler runs on its scored documents. *)
Lemma ranking_sorted {A} (scoredDocs : list (Ranked.t A)) (t : number) :
  let passing := filter (fun r => geb (Ranked.similarity r) t) scoredDocs in
  let ranked := sort Ranked.bySimilarityDesc passing in
  Permutation ranked passing
  /\ descending Ranked.similarity ranked
  /\ tiesInOrderOf Ranked.similarity passing ranked.
Proof.
  intros passing ranked.
  assert (K : keyed Ranked.similarity passing)
    by apply (SortFacts.filter_geb_keyed Ranked.similarity).
  split; [apply SortFacts.sort_perm|]. split.
  - apply SortFacts.sort_descending; [reflexivity | exact K].
  - apply SortFacts.sort_ties; [reflexivity | exact K].
Qed.

(** [vectorSearch] on candidates of the query's dimension returns,
    as [{document, similarity, documentId}], the first [limit] entries
    ([slice(0, limit)], the integral part of a [limit >= 0]) of a list
    [ranked] that holds exactly the candidates whose similarity, computed
    from the stored magnitude, is [>=] the threshold, in descending order
    of similarity, equal similarities in the order of the candidates. *)
Theorem vectorSearch_ranks (ctx : context) (args : VectorSearch.Args.t) :
  sameDimension VectorMemory.embedding (VectorSearch.Args.embedding args)
    (VectorSearch.candidatesOf (db ctx) args) ->
  let threshold := orDefault (VectorSearch.Args.threshold args) 0.7 in
  let limit := orDefault (VectorSearch.Args.limit args) 10 in
  exists scoredDocs passing ranked,
    Forall2 (scoredAs VectorMemory.embedding VectorMemory.magnitude
               (VectorSearch.Args.embedding args))
            (VectorSearch.candidatesOf (db ctx) args) scoredDocs
    /\ passing = filter (fun r => geb (Ranked.similarity r) threshold) scoredDocs
    /\ Permutation ranked passing
    /\ descending Ranked.similarity ranked
    /\ tiesInOrderOf Ranked.similarity passing ranked
    /\ VectorSearch.vectorSearch ctx args = Ok (map memoryResult (slice0 ranked limit))
    /\ ((0 <=? limit) = true -> slice0 ranked limit = truncated limit ranked).
Proof.
  intros Hdim threshold limit.
  destruct (SearchFacts.scan_scores VectorMemory.embedding VectorMemory.magnitude _ _ Hdim)
    as [scoredDocs [Hscan Hscores]].
  destruct (ranking_sorted scoredDocs threshold) as (Hperm & Hdesc & Hties).
  exists scoredDocs. eexists. eexists.
  split; [exact Hscores|]. split; [reflexivity|].
  split; [exact Hperm|]. split; [exact Hdesc|]. split; [exact Hties|]. split.
  - unfold VectorSearch.vectorSearch. rewrite Hscan. reflexivity.
  - apply SortFacts.slice0_truncated.
Qed.

Lemma vectorSearch_ranks_witness :
  let args := Samples.memoryQuery [1; 0] in
  let threshold := orDefault (VectorSearch.Args.threshold args) 0.7 in
  let limit := orDefault (VectorSearch.Args.limit args) 10 in
  exists scoredDocs passing ranked,
    Forall2 (scoredAs VectorMemory.embedding VectorMemory.magnitude
               (VectorSearch.Args.embedding args))
            (VectorSearch.candidatesOf (db Samples.oneEach) args) scoredDocs
    /\ passing = filter (fun r => geb (Ranked.similarity r) threshold) scoredDocs
    /\ Permutation ranked passing
    /\ descending Ranked.similarity ranked
    /\ tiesInOrderOf Ranked.similarity passing ranked
    /\ VectorSearch.vectorSearch Samples.oneEach args
       = Ok (map memoryResult (slice0 ranked limit))
    /\ ((0 <=? limit) = true -> slice0 ranked limit = truncated limit ranked).
Proof.
  apply (vectorSearch_ranks Samples.oneEach (Samples.memoryQuery [1; 0])).
  repeat constructor.
Defined.

(** ** The join of chunks and documents *)

Lemma getDocument_id (d : database) (id : Id) (doc : Document.t) :
  getDocument d id = Some doc -> Document._id doc = id.
Proof.
  unfold getDocument. intros H. apply find_some in H.
  now apply String.eqb_eq.
Qed.

Lemma existsb_eqb_In (k : Id) (ids : list Id) :
  existsb (String.eqb k) ids = true <-> In k ids.
Proof.
  rewrite existsb_exists. split.
  - intros [x [Hin Hx]]. apply String.eqb_eq in Hx. now subst.
  - intros H. exists k. split; [exact H | apply String.eqb_refl].
Qed.

Lemma unique_In (k : Id) (ids : list Id) : forall seen,
  In k ids -> ~ In k seen -> In k (unique seen ids).
Proof.
  induction ids as [|i ids IH]; intros seen Hin Hseen; simpl in *; [contradiction|].
  destruct (existsb (String.eqb i) seen) eqn:E.
  - apply IH; [|exact Hseen].
    destruct Hin as [<- | Hin]; [|exact Hin].
    apply existsb_eqb_In in E. contradiction.
  - destruct Hin as [-> | Hin]; [now left|].
    destruct (String.eqb_spec i k) as [-> | Hne]; [now left|].
    right. apply IH; [exact Hin|]. intros [H | H]; auto.
Qed.

(** The map built from the looked-up documents answers like the lookup
    itself, on the ids it was built from. *)
Lemma mapGet_documents (d : database) (k : Id) (ids : list Id) :
  mapGet (map (fun doc => (Document._id doc, doc)) (somes (map (getDocument d) ids))) k
  = if existsb (String.eqb k) ids then getDocument d k else None.
Proof.
  induction ids as [|i ids IH]; [reflexivity|].
  cbn [map somes existsb].
  destruct (getDocument d i) as [doc|] eqn:Ei.
  - cbn [map mapGet]. rewrite IH. rewrite (getDocument_id d i doc Ei).
    rewrite (String.eqb_sym i k).
    destruct (String.eqb_spec k i) as [-> | Hne]; simpl.
    + rewrite Ei. now destruct (existsb (String.eqb i) ids).
    + now destruct (existsb (String.eqb k) ids); [destruct (getDocument d k)|].
  - rewrite IH.
    destruct (String.eqb_spec k i) as [-> | Hne]; simpl; [|reflexivity].
    rewrite Ei. now destruct (existsb (String.eqb i) ids).
Qed.

Lemma mapGet_unique (d : database) (k : Id) (ids : list Id) :
  In k ids ->
  mapGet (map (fun doc => (Document._id doc, doc))
              (somes (map (getDocument d) (unique [] ids)))) k
  = getDocument d k.
Proof.
  intros H. rewrite mapGet_documents.
  replace (existsb (String.eqb k) (unique [] ids)) with true; [reflexivity|].
  symmetry. apply existsb_eqb_In, unique_In; auto.
Qed.

Lemma combine_map {A B} (f : A -> B) (l : list A) :
  combine l (map f l) = map (fun x => (x, f x)) l.
Proof. induction l as [|x l IH]; simpl; [|rewrite IH]; reflexivity. Qed.

Lemma in_somes {A} (x : A) (l : list (option A)) : In (Some x) l -> In x (somes l).
Proof.
  induction l as [|[y|] l IH]; simpl; intros H; auto.
  - destruct H as [H|H]; [injection H as ->; now left | right; auto].
  - destruct H as [H|H]; [discriminate | auto].
Qed.

(** The page [searchChunksV2] builds from the scores of its window. *)
Lemma searchChunksV2_page (ctx : context) (args : VectorSearchV2.Args.t)
  (scoredDocs : list (Ranked.t ChunkEmbedding.t)) :
  mapM (fun emb =>
          similarity <- cosineSimilarityWithMagnitude
                          (VectorSearchV2.Args.embedding args) (ChunkEmbedding.embedding emb)
                          (reducedMagnitude (VectorSearchV2.Args.embedding args))
                          (ChunkEmbedding.magnitude emb) ;;
          Ok {| Ranked.item := emb; Ranked.similarity := similarity |})
       (VectorSearchV2.scanWindow (db ctx) args)
  = Ok scoredDocs ->
  exists p,
    VectorSearchV2.searchChunksV2 ctx args = Ok p
    /\ VectorSearchV2.results p
       = map (joined (db ctx))
             (slice0 (sort Ranked.bySimilarityDesc
                        (filter (fun r => geb (Ranked.similarity r)
                                              (orDefault (VectorSearchV2.Args.threshold args) 0.7))
                                scoredDocs))
                     (orDefault (VectorSearchV2.Args.limit args) 10))
    /\ VectorSearchV2.searchTimeMs p = (endNow ctx - startNow ctx)%Z.
Proof.
  intros Hscan. unfold VectorSearchV2.searchChunksV2. rewrite Hscan. cbn [bind].
  eexists. split; [reflexivity|]. split; [|reflexivity].
  cbn [VectorSearchV2.results].
  set (results := slice0 _ _).
  rewrite (map_map (fun r => ChunkEmbedding.chunkId (Ranked.item r))
                   (getChunk (db ctx))).
  rewrite combine_map, map_map.
  apply map_ext_in. intros r Hr. unfold joined. cbv zeta.
  destruct (getChunk (db ctx) (ChunkEmbedding.chunkId (Ranked.item r))) as [c|] eqn:Ec;
    [|reflexivity].
  f_equal. apply mapGet_unique.
  apply (in_map Chunk.documentId), in_somes. rewrite <- Ec.
  apply (in_map (fun r => getChunk (db ctx) (ChunkEmbedding.chunkId (Ranked.item r)))).
  exact Hr.
Qed.

(** [searchChunksV2] on a window of the query's dimension returns,
    as its [results], the first [limit] entries of the ranking of the
    window (the embeddings with similarity [>=] the threshold, in
    descending order, ties in scan order), each with its chunk and with
    the document of that chunk as [ctx.db.get] finds them, [null] when
    either is missing: the [Set] of ids and the [Map] the handler goes
    through lose and mix up nothing. *)
Theorem searchChunksV2_results (ctx : context) (args : VectorSearchV2.Args.t) :
  sameDimension ChunkEmbedding.embedding (VectorSearchV2.Args.embedding args)
    (VectorSearchV2.scanWindow (db ctx) args) ->
  let threshold := orDefault (VectorSearchV2.Args.threshold args) 0.7 in
  let limit := orDefault (VectorSearchV2.Args.limit args) 10 in
  exists scoredDocs passing ranked p,
    Forall2 (scoredAs ChunkEmbedding.embedding ChunkEmbedding.magnitude
               (VectorSearchV2.Args.embedding args))
            (VectorSearchV2.scanWindow (db ctx) args) scoredDocs
    /\ passing = filter (fun r => geb (Ranked.similarity r) threshold) scoredDocs
    /\ Permutation ranked passing
    /\ descending Ranked.similarity ranked
    /\ tiesInOrderOf Ranked.similarity passing ranked
    /\ VectorSearchV2.searchChunksV2 ctx args = Ok p
    /\ VectorSearchV2.results p = map (joined (db ctx)) (slice0 ranked limit)
    /\ ((0 <=? limit) = true -> slice0 ranked limit = truncated limit ranked).
Proof.
  intros Hdim threshold limit.
  destruct (SearchFacts.scan_scores ChunkEmbedding.embedding ChunkEmbedding.magnitude _ _ Hdim)
    as [scoredDocs [Hscan Hscores]].
  destruct (ranking_sorted scoredDocs threshold) as (Hperm & Hdesc & Hties).
  destruct (searchChunksV2_page ctx args scoredDocs Hscan) as (p & Hp & Hres & _).
  exists scoredDocs. eexists. eexists. exists p.
  split; [exact Hscores|]. split; [reflexivity|].
  split; [exact Hperm|]. split; [exact Hdesc|]. split; [exact Hties|].
  split; [exact Hp|]. split; [exact Hres|].
  apply SortFacts.slice0_truncated.
Qed.

Lemma searchChunksV2_results_witness :
  let args := Samples.chunkQuery [3; 4] None in
  let threshold := orDefault (VectorSearchV2.Args.threshold args) 0.7 in
  let limit := orDefault (VectorSearchV2.Args.limit args) 10 in
  exists scoredDocs passing ranked p,
    Forall2 (scoredAs ChunkEmbedding.embedding ChunkEmbedding.magnitude
               (VectorSearchV2.Args.embedding args))
            (VectorSearchV2.scanWindow (db Cases.library) args) scoredDocs
    /\ passing = filter (fun r => geb (Ranked.similarity r) threshold) scoredDocs
    /\ Permutation ranked passing
    /\ descending Ranked.similarity ranked
    /\ tiesInOrderOf Ranked.similarity passing ranked
    /\ VectorSearchV2.searchChunksV2 Cases.library args = Ok p
    /\ VectorSearchV2.results p = map (joined (db Cases.library)) (slice0 ranked limit)
    /\ ((0 <=? limit) = true -> slice0 ranked limit = truncated limit ranked).
Proof.
  apply (searchChunksV2_results Cases.library (Samples.chunkQuery [3; 4] None)).
  repeat constructor.
Defined.

(** ** [searchChunks] *)

Lemma scan_chunks (query : vector) (l : list Chunk.t) :
  sameDimension embeddingOfChunk query (filter scorable l) ->
  exists scoredChunks,
    mapM (fun chunk =>
            match Chunk.embedding chunk, Chunk.magnitude chunk with
            | Some embedding, Some magnitude =>
                if ToBoolean magnitude then
                  similarity <- cosineSimilarityWithMagnitude
                                  query embedding (reducedMagnitude query) magnitude ;;
                  Ok (Some {| Ranked.item := chunk; Ranked.similarity := similarity |})
                else Ok None
            | _, _ => Ok None
            end) l
    = Ok scoredChunks
    /\ Forall2 (scoredAs embeddingOfChunk magnitudeOfChunk query)
               (filter scorable l) (somes scoredChunks).
Proof.
  induction l as [|c l IH]; intros Hdim.
  - exists []. split; [reflexivity | constructor].
  - cbn [filter] in Hdim. cbn [mapM filter].
    unfold scorable in Hdim |- *.
    unfold scoredAs, embeddingOfChunk, magnitudeOfChunk in *.
    destruct (Chunk.embedding c) as [e|] eqn:Ee; [destruct (Chunk.magnitude c) as [m|] eqn:Em|].
    + destruct (ToBoolean m) eqn:T.
      * inversion Hdim as [|? ? Hc Hl]; subst.
        destruct (IH Hl) as [scs [H1 H2]]. rewrite Ee in Hc.
        destruct (SearchFacts.cosineSimilarityWithMagnitude_ok query e
                    (reducedMagnitude query) m (eq_sym Hc)) as [sim Hs].
        rewrite Hs. cbn [bind]. rewrite H1. cbn [bind].
        eexists. split; [reflexivity|]. cbn [somes].
        constructor; [|exact H2]. cbn [Ranked.item Ranked.similarity].
        rewrite Ee, Em. auto.
      * destruct (IH Hdim) as [scs [H1 H2]]. cbn [bind]. rewrite H1. cbn [bind].
        eexists. split; [reflexivity | exact H2].
    + destruct (IH Hdim) as [scs [H1 H2]]. cbn [bind]. rewrite H1. cbn [bind].
      eexists. split; [reflexivity | exact H2].
    + destruct (IH Hdim) as [scs [H1 H2]]. cbn [bind]. rewrite H1. cbn [bind].
      eexists. split; [reflexivity | exact H2].
Qed.

Lemma somes_filter {A} (f : A -> bool) (l : list (option A)) :
  somes (filter (fun o => match o with Some x => f x | None => false end) l)
  = filter f (somes l).
Proof.
  induction l as [|[x|] l IH]; simpl; auto.
  destruct (f x); simpl; now rewrite IH.
Qed.

(** [searchChunks] scans the first 1000 chunks that have an
    embedding and a magnitude, skips those whose magnitude is falsy ([0]
    or [NaN]), and, when the others have the query's dimension, returns
    the first [limit] entries of their ranking (similarity [>=] the
    threshold, descending, ties in scan order), each with the document
    [ctx.db.get] finds for it. *)
Theorem searchChunks_results (ctx : context) (args : VectorSearch.ChunkArgs.t) :
  let scanned :=
    take 1000 (filter (fun c => VectorSearch.isSome (Chunk.embedding c)
                                && VectorSearch.isSome (Chunk.magnitude c))
                      (chunks (db ctx))) in
  let threshold := orDefault (VectorSearch.ChunkArgs.threshold args) 0.7 in
  let limit := orDefault (VectorSearch.ChunkArgs.limit args) 10 in
  sameDimension embeddingOfChunk (VectorSearch.ChunkArgs.embedding args)
    (filter scorable scanned) ->
  exists scoredDocs passing ranked,
    Forall2 (scoredAs embeddingOfChunk magnitudeOfChunk
               (VectorSearch.ChunkArgs.embedding args))
            (filter scorable scanned) scoredDocs
    /\ passing = filter (fun r => geb (Ranked.similarity r) threshold) scoredDocs
    /\ Permutation ranked passing
    /\ descending Ranked.similarity ranked
    /\ tiesInOrderOf Ranked.similarity passing ranked
    /\ VectorSearch.searchChunks ctx args
       = Ok (map (joinedChunk (db ctx)) (slice0 ranked limit))
    /\ ((0 <=? limit) = true -> slice0 ranked limit = truncated limit ranked).
Proof.
  intros scanned threshold limit Hdim.
  destruct (scan_chunks _ _ Hdim) as [scoredChunks [Hscan Hscores]].
  destruct (ranking_sorted (somes scoredChunks) threshold) as (Hperm & Hdesc & Hties).
  exists (somes scoredChunks). eexists. eexists.
  split; [exact Hscores|]. split; [reflexivity|].
  split; [exact Hperm|]. split; [exact Hdesc|]. split; [exact Hties|]. split.
  - unfold VectorSearch.searchChunks. fold scanned. rewrite Hscan. cbn [bind].
    fold threshold limit. rewrite somes_filter.
    set (results := slice0 _ limit).
    f_equal. apply map_ext_in. intros r Hr. unfold joinedChunk. f_equal.
    apply mapGet_unique.
    apply (in_map (fun r => Chunk.documentId (Ranked.item r))). exact Hr.
  - apply SortFacts.slice0_truncated.
Qed.

Lemma searchChunks_results_witness :
  let args := Cases.chunkSearch [3; 4] in
  let scanned :=
    take 1000 (filter (fun c => VectorSearch.isSome (Chunk.embedding c)
                                && VectorSearch.isSome (Chunk.magnitude c))
                      (chunks (db Cases.library))) in
  let threshold := orDefault (VectorSearch.ChunkArgs.threshold args) 0.7 in
  let limit := orDefault (VectorSearch.ChunkArgs.limit args) 10 in
  exists scoredDocs passing ranked,
    Forall2 (scoredAs embeddingOfChunk magnitudeOfChunk
               (VectorSearch.ChunkArgs.embedding args))
            (filter scorable scanned) scoredDocs
    /\ passing = filter (fun r => geb (Ranked.similarity r) threshold) scoredDocs
    /\ Permutation ranked passing
    /\ descending Ranked.similarity ranked
    /\ tiesInOrderOf Ranked.similarity passing ranked
    /\ VectorSearch.searchChunks Cases.library args
       = Ok (map (joinedChunk (db Cases.library)) (slice0 ranked limit))
    /\ ((0 <=? limit) = true -> slice0 ranked limit = truncated limit ranked).
Proof.
  apply (searchChunks_results Cases.library (Cases.chunkSearch [3; 4])).
  repeat constructor.
Defined.

(** ** What a returned entry is *)

Lemma mapM_Forall2 {A B} (f : A -> result B) (l : list A) : forall ys,
  mapM f l = Ok ys -> Forall2 (fun x y => f x = Ok y) l ys.
Proof.
  induction l as [|x l IH]; simpl; intros ys H.
  - injection H as <-. constructor.
  - destruct (f x) as [y|e] eqn:Ex; [|discriminate]. simpl in H.
    destruct (mapM f l) as [ys'|e]; [|discriminate]. simpl in H.
    injection H as <-. constructor; auto.
Qed.

Lemma Forall2_from {A B} (R : A -> B -> Prop) (l : list A) (ys : list B) :
  Forall2 R l ys -> Forall (fun y => exists x, In x l /\ R x y) ys.
Proof.
  induction 1 as [|x y l ys Hxy H IH]; constructor.
  - exists x. split; [now left | exact Hxy].
  - eapply Forall_impl; [|exact IH]. intros y' [x' [Hin Hr]].
    exists x'. split; [now right | exact Hr].
Qed.

Lemma Forall_ranking {A} (P : Ranked.t A -> Prop) (scoredDocs : list (Ranked.t A))
  (t limit : number) :
  Forall P scoredDocs ->
  Forall (fun r => P r /\ geb (Ranked.similarity r) t = true)
         (slice0 (sort Ranked.bySimilarityDesc
                    (filter (fun r => geb (Ranked.similarity r) t) scoredDocs))
                 limit).
Proof.
  intros H. apply SearchFacts.Forall_slice0, SearchFacts.Forall_sort, Forall_forall.
  intros r Hr. apply filter_In in Hr. destruct Hr as [Hin Hg].
  rewrite Forall_forall in H. auto.
Qed.

(** Every entry of a page is the entry of a scanned embedding whose
    similarity passed the threshold. *)
Lemma searchChunksV2_sound (ctx : context) (args : VectorSearchV2.Args.t)
  (p : VectorSearchV2.page) :
  VectorSearchV2.searchChunksV2 ctx args = Ok p ->
  Forall (fun e =>
            exists emb,
              In emb (VectorSearchV2.scanWindow (db ctx) args)
              /\ VectorSearchV2.Entry.embeddingId e = ChunkEmbedding._id emb
              /\ VectorSearchV2.Entry.chunk e = getChunk (db ctx) (ChunkEmbedding.chunkId emb)
              /\ geb (VectorSearchV2.Entry.similarity e)
                     (orDefault (VectorSearchV2.Args.threshold args) 0.7) = true)
         (VectorSearchV2.results p).
Proof.
  intros H.
  destruct (mapM (fun emb =>
                    similarity <- cosineSimilarityWithMagnitude
                                    (VectorSearchV2.Args.embedding args)
                                    (ChunkEmbedding.embedding emb)
                                    (reducedMagnitude (VectorSearchV2.Args.embedding args))
                                    (ChunkEmbedding.magnitude emb) ;;
                    Ok {| Ranked.item := emb; Ranked.similarity := similarity |})
                 (VectorSearchV2.scanWindow (db ctx) args)) as [scoredDocs|e] eqn:Hscan.
  - destruct (searchChunksV2_page ctx args scoredDocs Hscan) as (p' & Hp & Hres & _).
    rewrite Hp in H. injection H as <-. rewrite Hres.
    apply Forall_map.
    apply mapM_Forall2, Forall2_from in Hscan.
    eapply Forall_impl; [|apply (Forall_ranking _ _ _ _ Hscan)].
    intros r [[emb [Hin Hr]] Hg]. exists emb. cbv beta in Hr.
    destruct (cosineSimilarityWithMagnitude _ _ _ _); [|discriminate].
    simpl in Hr. injection Hr as <-. simpl. auto.
  - unfold VectorSearchV2.searchChunksV2 in H. rewrite Hscan in H. discriminate.
Qed.

Lemma candidatesOf_stored (d : database) (args : VectorSearch.Args.t) (doc : VectorMemory.t) :
  In doc (VectorSearch.candidatesOf d args) -> In doc (vectorMemories d).
Proof.
  unfold VectorSearch.candidatesOf, take.
  destruct (VectorSearch.Args.memoryType args), (truthyString (VectorSearch.Args.agentId args));
    intros H; apply PaginationFacts.in_firstn in H;
    repeat (apply filter_In in H; destruct H as [H _]); exact H.
Qed.

(** Every result of [vectorSearch] is a stored memory with the
    similarity computed from its stored magnitude, which passed the
    threshold. *)
Lemma vectorSearch_sound (ctx : context) (args : VectorSearch.Args.t)
  (results : list VectorSearch.MemoryResult.t) :
  VectorSearch.vectorSearch ctx args = Ok results ->
  Forall (fun r =>
            In (VectorSearch.MemoryResult.document r) (vectorMemories (db ctx))
            /\ VectorSearch.MemoryResult.documentId r
               = VectorMemory._id (VectorSearch.MemoryResult.document r)
            /\ cosineSimilarityWithMagnitude (VectorSearch.Args.embedding args)
                 (VectorMemory.embedding (VectorSearch.MemoryResult.document r))
                 (reducedMagnitude (VectorSearch.Args.embedding args))
                 (VectorMemory.magnitude (VectorSearch.MemoryResult.document r))
               = Ok (VectorSearch.MemoryResult.similarity r)
            /\ geb (VectorSearch.MemoryResult.similarity r)
                   (orDefault (VectorSearch.Args.threshold args) 0.7) = true)
         results.
Proof.
  unfold VectorSearch.vectorSearch.
  match goal with |- context [mapM ?f ?l] => destruct (mapM f l) as [scs|e] eqn:Hscan end;
    [|discriminate].
  cbn [bind]. intros H. injection H as <-.
  apply Forall_map.
  apply mapM_Forall2, Forall2_from in Hscan.
  eapply Forall_impl; [|apply (Forall_ranking _ _ _ _ Hscan)].
  intros r [[doc [Hin Hr]] Hg]. cbv beta in Hr.
  destruct (cosineSimilarityWithMagnitude _ _ _ _) as [sim|] eqn:Es; [|discriminate].
  simpl in Hr. injection Hr as <-. simpl in *.
  split; [now apply (candidatesOf_stored _ args)|]. auto.
Qed.

(** Every result of [searchChunks] is a stored chunk that has an
    embedding and a truthy magnitude. *)
Lemma searchChunks_sound (ctx : context) (args : VectorSearch.ChunkArgs.t)
  (results : list VectorSearch.ChunkResult.t) :
  VectorSearch.searchChunks ctx args = Ok results ->
  Forall (fun r => In (VectorSearch.ChunkResult.chunk r) (chunks (db ctx))
                   /\ scorable (VectorSearch.ChunkResult.chunk r) = true)
         results.
Proof.
  unfold VectorSearch.searchChunks.
  match goal with |- context [mapM ?f ?l] => destruct (mapM f l) as [scs|e] eqn:Hscan end;
    [|discriminate].
  cbn [bind]. intros H. injection H as <-.
  apply Forall_map. rewrite somes_filter.
  apply mapM_Forall2, Forall2_from in Hscan.
  assert (Hs : Forall (fun r : Ranked.t Chunk.t =>
                         In (Ranked.item r) (chunks (db ctx))
                         /\ scorable (Ranked.item r) = true) (somes scs)).
  { clear -Hscan. induction Hscan as [|o scs [c [Hin Ho]] _ IH]; [constructor|].
    destruct o as [r|]; cbn [somes]; [|exact IH].
    constructor; [|exact IH]. unfold scorable.
    apply PaginationFacts.in_firstn, filter_In in Hin. destruct Hin as [Hin _].
    cbv beta in Ho.
    destruct (Chunk.embedding c) as [e|] eqn:Ee;
      [destruct (Chunk.magnitude c) as [m|] eqn:Em|]; try discriminate.
    destruct (ToBoolean m) eqn:T; [|discriminate].
    destruct (cosineSimilarityWithMagnitude _ _ _ _); [|discriminate].
    simpl in Ho. injection Ho as <-. simpl. rewrite Ee, Em. auto. }
  eapply Forall_impl; [|apply (Forall_ranking _ _ _ _ Hs)].
  intros r [Hr _]. exact Hr.
Qed.

End HandlerFacts.

(* ================================================================= *)
(** * Storing embeddings *)

Module EmbeddingFacts.
Import JS Vectors Convex Spec Notions VectorSearchV2 ChunkEmbeddings.
Open Scope float_scope.

Lemma batchLoop_storeEach (now : nat -> Z) (newId : nat -> Id)
  (embeddings : list StoreArgs.t) : forall k results d,
  batchLoop now newId k embeddings results d
  = (r <- storeEach now newId k embeddings d ;; Ok (results ++ fst r, snd r)).
Proof.
  induction embeddings as [|item embeddings IH]; intros k results d.
  - cbn. now rewrite app_nil_r.
  - cbn [batchLoop storeEach]. unfold storeChunkEmbedding.
    destruct (patchChunk _ _ _) as [patched|e]; [|reflexivity].
    cbn [bind snd fst]. rewrite IH.
    destruct (storeEach now newId (S k) embeddings patched) as [[ids d']|e];
      [|reflexivity].
    cbn [bind fst snd]. now rewrite <- app_assoc.
Qed.

Lemma patchChunk_hasChunk (d d' : database) (id : Id) (patch : Chunk.t -> Chunk.t) :
  patchChunk d id patch = Ok d' ->
  (forall c, Chunk._id (patch c) = Chunk._id c) ->
  forall id', hasChunk d' id' = hasChunk d id'.
Proof.
  unfold patchChunk, hasChunk. intros H Hid id'.
  destruct (existsb _ (chunks d)); [|discriminate].
  injection H as <-. cbn [chunks].
  induction (chunks d) as [|c l IH]; [reflexivity|].
  cbn [map existsb]. rewrite IH. f_equal.
  destruct (String.eqb (Chunk._id c) id); [now rewrite Hid | reflexivity].
Qed.

Lemma storeChunkEmbedding_ok (now : Z) (newId : Id) (item : StoreArgs.t) (d : database) :
  hasChunk d (StoreArgs.chunkId item) = true ->
  exists d',
    storeChunkEmbedding now newId item d = Ok (newId, d')
    /\ chunkEmbeddings d'
       = chunkEmbeddings d
         ++ [ {| ChunkEmbedding._id := newId;
                 ChunkEmbedding.chunkId := StoreArgs.chunkId item;
                 ChunkEmbedding.embedding := StoreArgs.embedding item;
                 ChunkEmbedding.magnitude := calculateMagnitude (StoreArgs.embedding item);
                 ChunkEmbedding.model := StoreArgs.model item;
                 ChunkEmbedding.dimensions := StoreArgs.dimensions item;
                 ChunkEmbedding.createdAt := now |} ]
    /\ (forall id, hasChunk d' id = hasChunk d id).
Proof.
  intros H. unfold storeChunkEmbedding.
  destruct (patchChunk _ _ _) as [patched|e] eqn:E.
  - exists patched. split; [reflexivity|]. split.
    + unfold patchChunk in E. cbn [chunks insertChunkEmbedding] in E.
      unfold hasChunk in H. rewrite H in E. injection E as <-. reflexivity.
    + intros id. now rewrite (patchChunk_hasChunk _ _ _ _ E).
  - unfold patchChunk in E. cbn [chunks insertChunkEmbedding] in E.
    unfold hasChunk in H. rewrite H in E. discriminate.
Qed.

(** The rows a batch appends: item [k] with the reading [now k] and the
    id [newId k]. *)
Lemma storeEach_ok (now : nat -> Z) (newId : nat -> Id) (embeddings : list StoreArgs.t) :
  forall k d,
    Forall (fun item => hasChunk d (StoreArgs.chunkId item) = true) embeddings ->
    exists d',
      storeEach now newId k embeddings d
      = Ok (map newId (seq k (List.length embeddings)), d')
      /\ List.length (chunkEmbeddings d')
         = (List.length (chunkEmbeddings d) + List.length embeddings)%nat
      /\ Forall (fun emb => In emb (chunkEmbeddings d)
                            \/ ChunkEmbedding.magnitude emb
                               = calculateMagnitude (ChunkEmbedding.embedding emb))
                (chunkEmbeddings d').
Proof.
  induction embeddings as [|item embeddings IH]; intros k d H.
  - exists d. split; [reflexivity|]. split; [simpl; lia|].
    apply Forall_forall. auto.
  - inversion H as [|? ? Hitem Hrest]; subst.
    destruct (storeChunkEmbedding_ok (now k) (newId k) item d Hitem)
      as (d1 & Hstore & Hemb & Hchunks).
    destruct (IH (S k) d1) as (d' & Hrun & Hlen & Hmag).
    { eapply Forall_impl; [|exact Hrest]. intros it. now rewrite Hchunks. }
    exists d'. cbn [storeEach]. rewrite Hstore. cbn [bind snd fst]. rewrite Hrun.
    split; [reflexivity|]. split.
    + rewrite Hlen, Hemb, length_app. simpl. lia.
    + eapply Forall_impl; [|exact Hmag]. intros emb [Hin | Hm]; [|now right].
      rewrite Hemb in Hin. apply in_app_or in Hin.
      destruct Hin as [Hin | [<- | []]]; [now left | now right].
Qed.

Lemma storeEach_missing (now : nat -> Z) (newId : nat -> Id)
  (pre : list StoreArgs.t) (item : StoreArgs.t) (post : list StoreArgs.t) :
  forall k d,
    Forall (fun item => hasChunk d (StoreArgs.chunkId item) = true) pre ->
    hasChunk d (StoreArgs.chunkId item) = false ->
    storeEach now newId k (pre ++ item :: post) d
    = Throw (NonexistentDocument (StoreArgs.chunkId item)).
Proof.
  induction pre as [|first pre IH]; intros k d Hpre Hitem.
  - cbn [app storeEach]. unfold storeChunkEmbedding, patchChunk.
    cbn [chunks insertChunkEmbedding]. unfold hasChunk in Hitem. now rewrite Hitem.
  - inversion Hpre as [|? ? Hfirst Hrest]; subst.
    destruct (storeChunkEmbedding_ok (now k) (newId k) first d Hfirst)
      as (d1 & Hstore & _ & Hchunks).
    cbn [app storeEach]. rewrite Hstore. cbn [bind snd].
    rewrite (IH (S k) d1); [reflexivity | | now rewrite Hchunks].
    eapply Forall_impl; [|exact Hrest]. intros it. now rewrite Hchunks.
Qed.

(** [batchStoreChunkEmbeddings] is [storeChunkEmbedding] item by
    item, in one transaction: it returns what the single stores return,
    one after the other.  When the chunk of every item exists it returns
    the allotted ids in the order of the items, the table grows by one
    embedding per item, and every embedding it added has the magnitude
    [calculateMagnitude] computes of it.  At the first item whose chunk
    does not exist it throws, and nothing of the batch is stored. *)
Theorem batch_is_store_by_store (now : nat -> Z) (newId : nat -> Id)
  (embeddings : list StoreArgs.t) (d : database) :
  batchStoreChunkEmbeddings now newId embeddings d = storeEach now newId 0 embeddings d
  /\ (Forall (fun item => hasChunk d (StoreArgs.chunkId item) = true) embeddings ->
      exists d',
        batchStoreChunkEmbeddings now newId embeddings d
        = Ok (map newId (seq 0 (List.length embeddings)), d')
        /\ List.length (chunkEmbeddings d')
           = (List.length (chunkEmbeddings d) + List.length embeddings)%nat
        /\ Forall (fun emb => In emb (chunkEmbeddings d)
                              \/ ChunkEmbedding.magnitude emb
                                 = calculateMagnitude (ChunkEmbedding.embedding emb))
                  (chunkEmbeddings d'))
  /\ (forall pre item post,
        embeddings = pre ++ item :: post ->
        Forall (fun item => hasChunk d (StoreArgs.chunkId item) = true) pre ->
        hasChunk d (StoreArgs.chunkId item) = false ->
        batchStoreChunkEmbeddings now newId embeddings d
        = Throw (NonexistentDocument (StoreArgs.chunkId item))).
Proof.
  assert (E : batchStoreChunkEmbeddings now newId embeddings d
              = storeEach now newId 0 embeddings d).
  { unfold batchStoreChunkEmbeddings. rewrite batchLoop_storeEach.
    now destruct (storeEach now newId 0 embeddings d) as [[ids d']|e]. }
  split; [exact E|]. split.
  - intros H. rewrite E. now apply storeEach_ok.
  - intros pre item post -> Hpre Hitem. rewrite E. now apply storeEach_missing.
Qed.

Lemma batch_is_store_by_store_witness :
  exists d',
    batchStoreChunkEmbeddings Cases.clock Cases.allotted
      Cases.twoItems (Samples.chunksOnly 2)
    = Ok (map Cases.allotted (seq 0 (List.length Cases.twoItems)),
          d')
    /\ List.length (chunkEmbeddings d')
       = (List.length (chunkEmbeddings (Samples.chunksOnly 2))
          + List.length Cases.twoItems)%nat
    /\ Forall (fun emb => In emb (chunkEmbeddings (Samples.chunksOnly 2))
                          \/ ChunkEmbedding.magnitude emb
                             = calculateMagnitude (ChunkEmbedding.embedding emb))
              (chunkEmbeddings d').
Proof.
  apply (proj1 (proj2 (batch_is_store_by_store Cases.clock Cases.allotted
                         Cases.twoItems (Samples.chunksOnly 2)))).
  repeat constructor.
Defined.

(** ** The two ways to embed a chunk *)

Lemma patched_chunks (d d' : database) (id : Id) (patch : Chunk.t -> Chunk.t) :
  patchChunk d id patch = Ok d' ->
  chunks d' = map (fun c => if String.eqb (Chunk._id c) id then patch c else c) (chunks d).
Proof.
  unfold patchChunk. destruct (existsb _ _); [|discriminate].
  intros H. now injection H as <-.
Qed.

Lemma firstn_room {A} (n : nat) (l : list A) :
  (List.length (firstn n l) < n)%nat ->
  firstn n l = l /\ forall x, firstn n (l ++ [x]) = l ++ [x].
Proof.
  intros H. rewrite length_firstn in H.
  split; [|intros x]; apply firstn_all2; [|rewrite length_app; simpl]; lia.
Qed.

(** When the chunk exists, [storeChunkEmbedding] appends the
    embedding to [chunkEmbeddings] and patches the chunk with the model,
    the dimensions and the magnitude, not with the embedding: no chunk
    gains an [embedding] field.  [searchChunksV2] scans the new embedding
    (in a window without a cursor that has room for it, whose model
    filter it passes), while [searchChunks], which reads the field of
    the chunk, returns after the store only chunks that had an embedding
    before it: a chunk embedded this way only is never found by
    [searchChunks]. *)
Theorem reference_embedding_is_not_searched
  (now : Z) (newId : Id) (item : StoreArgs.t) (d : database) :
  hasChunk d (StoreArgs.chunkId item) = true ->
  exists d' emb,
    storeChunkEmbedding now newId item d = Ok (newId, d')
    /\ chunkEmbeddings d' = chunkEmbeddings d ++ [emb]
    /\ ChunkEmbedding._id emb = newId
    /\ ChunkEmbedding.chunkId emb = StoreArgs.chunkId item
    /\ ChunkEmbedding.embedding emb = StoreArgs.embedding item
    /\ ChunkEmbedding.model emb = StoreArgs.model item
    /\ Forall2
         (fun c c' =>
            Chunk._id c' = Chunk._id c
            /\ Chunk.embedding c' = Chunk.embedding c
            /\ if String.eqb (Chunk._id c) (StoreArgs.chunkId item)
               then Chunk.embeddingModel c' = Some (StoreArgs.model item)
                    /\ Chunk.embeddingDimensions c' = Some (StoreArgs.dimensions item)
                    /\ Chunk.magnitude c'
                       = Some (calculateMagnitude (StoreArgs.embedding item))
               else c' = c)
         (chunks d) (chunks d')
    /\ (forall args,
          Args.cursor args = None ->
          Args.model args = None \/ Args.model args = Some (StoreArgs.model item) ->
          (List.length (scanWindow d args) < 1000)%nat ->
          scanWindow d' args = scanWindow d args ++ [emb])
    /\ (forall ctx args results,
          db ctx = d' ->
          VectorSearch.searchChunks ctx args = Ok results ->
          Forall (fun r =>
                    exists c, In c (chunks d)
                              /\ Chunk._id c = Chunk._id (VectorSearch.ChunkResult.chunk r)
                              /\ Chunk.embedding c <> None)
                 results).
Proof.
  intros Hchunk.
  destruct (storeChunkEmbedding_ok now newId item d Hchunk) as [d' [Hstore [Hemb _]]].
  exists d'. eexists. split; [exact Hstore|]. split; [exact Hemb|].
  cbn [ChunkEmbedding._id ChunkEmbedding.chunkId ChunkEmbedding.embedding
       ChunkEmbedding.model].
  do 4 (split; [reflexivity|]).
  assert (Hc : chunks d'
               = map (fun c =>
                        if String.eqb (Chunk._id c) (StoreArgs.chunkId item)
                        then {| Chunk._id := Chunk._id c;
                                Chunk.documentId := Chunk.documentId c;
                                Chunk.content := Chunk.content c;
                                Chunk.embedding := Chunk.embedding c;
                                Chunk.embeddingModel := Some (StoreArgs.model item);
                                Chunk.embeddingDimensions := Some (StoreArgs.dimensions item);
                                Chunk.magnitude :=
                                  Some (reducedMagnitude (StoreArgs.embedding item)) |}
                        else c)
                     (chunks d)).
  { unfold storeChunkEmbedding in Hstore.
    destruct (patchChunk _ _ _) as [patched|e] eqn:E; [|discriminate].
    cbn [bind] in Hstore. injection Hstore as <-.
    exact (patched_chunks _ _ _ _ E). }
  split; [|split].
  - rewrite Hc. clear. induction (chunks d) as [|c l IH]; constructor; [|exact IH].
    destruct (String.eqb (Chunk._id c) (StoreArgs.chunkId item));
      cbn [Chunk._id Chunk.embedding Chunk.embeddingModel Chunk.embeddingDimensions
           Chunk.magnitude].
    + rewrite CacheFacts.reducedMagnitude_calculateMagnitude. repeat split.
    + repeat split.
  - intros args Hcursor Hmodel Hroom. unfold scanWindow in *.
    rewrite Hcursor in *. cbn [truthyString] in *. rewrite Hemb. unfold take in *.
    destruct (truthyString (Args.model args)) eqn:T.
    + destruct Hmodel as [Hm|Hm]; rewrite Hm in *; [discriminate|].
      rewrite filter_app.
      match goal with
      | |- context [filter ?f [?e]] =>
          replace (filter f [e]) with [e]
            by (cbn; now rewrite String.eqb_refl)
      end.
      destruct (firstn_room 1000 _ Hroom) as [-> H]. exact (H _).
    + destruct (firstn_room 1000 _ Hroom) as [-> H]. exact (H _).
  - intros ctx args results Hdb Hsearch.
    eapply Forall_impl; [|exact (HandlerFacts.searchChunks_sound ctx args results Hsearch)].
    intros r [Hin Hs]. rewrite Hdb, Hc in Hin. apply in_map_iff in Hin.
    destruct Hin as (c & Hr & Hin). exists c. split; [exact Hin|].
    assert (He : Chunk.embedding (VectorSearch.ChunkResult.chunk r) <> None).
    { unfold scorable in Hs.
      destruct (Chunk.embedding (VectorSearch.ChunkResult.chunk r)); [discriminate|].
      discriminate. }
    rewrite <- Hr in *.
    destruct (String.eqb (Chunk._id c) (StoreArgs.chunkId item)); auto.
Qed.

Lemma reference_embedding_is_not_searched_witness :
  exists d' emb,
    storeChunkEmbedding 1 "e1"%string (Cases.item 1 [3; 4]) (Samples.chunksOnly 2)
    = Ok ("e1"%string, d')
    /\ chunkEmbeddings d' = chunkEmbeddings (Samples.chunksOnly 2) ++ [emb]
    /\ ChunkEmbedding._id emb = "e1"%string
    /\ ChunkEmbedding.chunkId emb = "ce1"%string
    /\ ChunkEmbedding.embedding emb = [3; 4]
    /\ scanWindow d' (Samples.chunkQuery [3; 4] None) = [emb]
    /\ forall ctx args results,
         db ctx = d' ->
         VectorSearch.searchChunks ctx args = Ok results ->
         results = [].
Proof.
  destruct (reference_embedding_is_not_searched 1 "e1"%string (Cases.item 1 [3; 4])
              (Samples.chunksOnly 2) eq_refl)
    as (d' & emb & Hstore & Hemb & Hid & Hchunk & Hvec & _ & _ & Hscan & Hsearch).
  exists d', emb. split; [exact Hstore|]. split; [exact Hemb|].
  split; [exact Hid|]. split; [exact Hchunk|]. split; [exact Hvec|]. split.
  - apply (Hscan (Samples.chunkQuery [3; 4] None)); [reflexivity | now left | simpl; lia].
  - intros ctx args results Hdb Hs.
    pose proof (Hsearch ctx args results Hdb Hs) as H.
    destruct results as [|r results]; [reflexivity|].
    inversion H as [|? ? [c [Hin [_ Hno]]] _]; subst.
    exfalso. apply Hno.
    cbn in Hin. destruct Hin as [<-|[<-|[]]]; reflexivity.
Defined.

(** ** Similar chunks *)

Lemma orDefault_again (x : option number) (d d' : number) :
  ToBoolean d = true -> orDefault (Some (orDefault x d)) d' = orDefault x d.
Proof.
  intros Hd. unfold orDefault at 1.
  replace (ToBoolean (orDefault x d)) with true; [reflexivity|].
  unfold orDefault. destruct x as [v|]; [|now rewrite Hd].
  destruct (ToBoolean v) eqn:T; congruence.
Qed.

Lemma scanWindow_of_model (d : database) (args : Args.t) (m : string) (emb : ChunkEmbedding.t) :
  In emb (scanWindow d args) ->
  Args.model args = Some m -> Args.cursor args = None ->
  In emb (chunkEmbeddings d) /\ (m <> EmptyString -> ChunkEmbedding.model emb = m).
Proof.
  unfold scanWindow. intros H Hmodel Hc. rewrite Hmodel, Hc in H.
  cbn [truthyString] in H.
  apply PaginationFacts.in_firstn in H.
  destruct m as [|c m]; cbn [truthyString] in H.
  - split; [exact H | congruence].
  - apply filter_In in H. destruct H as [Hin Hm]. split; [exact Hin|].
    intros _. simpl in Hm. now apply String.eqb_eq in Hm.
Qed.

(** [getSimilarChunks] answers with an empty list and a message
    when the chunk has no embedding.  Otherwise it reports the model of
    the chunk's first embedding, and every result it returns is an entry
    of an embedding of that model (of any model when the model is the
    empty string) whose similarity to that embedding is [>=] the threshold
    (0.8 when omitted or 0), and is not the chunk itself. *)
Theorem getSimilarChunks_results (ctx : context) (args : SimilarArgs.t) :
  let source :=
    find (fun emb => String.eqb (ChunkEmbedding.chunkId emb) (SimilarArgs.chunkId args))
         (chunkEmbeddings (db ctx)) in
  (source = None ->
   getSimilarChunks ctx args
   = Ok {| Similar.results := [];
           Similar.message := Some "No embedding found for this chunk"%string;
           Similar.sourceModel := None;
           Similar.searchTimeMs := None |})
  /\ (forall sourceEmbedding r,
        source = Some sourceEmbedding ->
        getSimilarChunks ctx args = Ok r ->
        Similar.sourceModel r = Some (ChunkEmbedding.model sourceEmbedding)
        /\ Similar.message r = None
        /\ Forall (fun e =>
                     (forall c, Entry.chunk e = Some c ->
                                Chunk._id c <> SimilarArgs.chunkId args)
                     /\ geb (Entry.similarity e)
                            (orDefault (SimilarArgs.threshold args) 0.8) = true
                     /\ exists emb,
                          In emb (chunkEmbeddings (db ctx))
                          /\ ChunkEmbedding._id emb = Entry.embeddingId e
                          /\ (ChunkEmbedding.model sourceEmbedding <> EmptyString ->
                              ChunkEmbedding.model emb
                              = ChunkEmbedding.model sourceEmbedding))
                  (Similar.results r)).
Proof.
  intros source. unfold getSimilarChunks. fold source. split.
  - now intros ->.
  - intros sourceEmbedding r -> H.
    destruct (searchChunksV2 ctx _) as [p|e] eqn:Hp; [|discriminate].
    cbn [bind] in H. injection H as <-. cbn [Similar.sourceModel Similar.message Similar.results].
    split; [reflexivity|]. split; [reflexivity|].
    apply Forall_forall. intros e He. apply filter_In in He. destruct He as [Hin Hnot].
    pose proof (HandlerFacts.searchChunksV2_sound ctx _ p Hp) as Hsound.
    rewrite Forall_forall in Hsound.
    destruct (Hsound e Hin) as (emb & Hemb & Hid & _ & Hg).
    cbn [Args.threshold] in Hg. rewrite orDefault_again in Hg by reflexivity.
    split; [|split; [exact Hg|]].
    + intros c Hc. unfold notTheChunk in Hnot. rewrite Hc in Hnot.
      apply negb_true_iff in Hnot. now apply String.eqb_neq.
    + destruct (scanWindow_of_model (db ctx) _ (ChunkEmbedding.model sourceEmbedding) emb
                  Hemb eq_refl eq_refl) as [Hd Hm].
      exists emb. auto.
Qed.

End EmbeddingFacts.

(* ================================================================= *)
(** * Reads and writes of the stored tables *)

Module StoreFacts.
Import JS Convex Store.

Section Table.
Context {R : Type} (idOf : R -> Id).

Lemma getBy_id (table : list R) (id : Id) (r : R) :
  getBy idOf table id = Some r -> In r table /\ idOf r = id.
Proof.
  unfold getBy. intros H. apply find_some in H.
  destruct H as [Hin Hid]. now apply String.eqb_eq in Hid.
Qed.

Lemma getBy_none (table : list R) (id : Id) :
  getBy idOf table id = None <-> hasId idOf table id = false.
Proof.
  unfold getBy, hasId. induction table as [|r table IH]; simpl; [tauto|].
  destruct (String.eqb (idOf r) id); simpl; [split; discriminate | exact IH].
Qed.

Lemma getBy_app (table : list R) (r : R) (id : Id) :
  getBy idOf (table ++ [r]) id
  = match getBy idOf table id with
    | Some x => Some x
    | None => if String.eqb (idOf r) id then Some r else None
    end.
Proof.
  unfold getBy. induction table as [|x table IH]; simpl; [reflexivity|].
  destruct (String.eqb (idOf x) id); [reflexivity | exact IH].
Qed.

Lemma hasId_In (table : list R) (id : Id) :
  hasId idOf table id = true <-> exists r, In r table /\ idOf r = id.
Proof.
  unfold hasId. rewrite existsb_exists.
  split; intros [r [Hin Hid]]; exists r; split; auto; now apply String.eqb_eq.
Qed.

(** Ids that are unique name one row. *)
Lemma unique_row (table : list R) (x y : R) :
  NoDup (map idOf table) -> In x table -> In y table -> idOf x = idOf y -> x = y.
Proof.
  induction table as [|r table IH]; simpl; intros Hnd Hx Hy E; [contradiction|].
  inversion Hnd as [|? ? Hnot Hnd']; subst.
  destruct Hx as [<- | Hx], Hy as [<- | Hy]; auto.
  - exfalso. apply Hnot. rewrite E. now apply in_map.
  - exfalso. apply Hnot. rewrite <- E. now apply in_map.
Qed.

Lemma getBy_unique (table : list R) (r : R) :
  NoDup (map idOf table) -> In r table -> getBy idOf table (idOf r) = Some r.
Proof.
  intros Hnd Hin.
  destruct (getBy idOf table (idOf r)) as [x|] eqn:E.
  - destruct (getBy_id _ _ _ E) as [Hx Hid].
    f_equal. now apply (unique_row table).
  - apply getBy_none in E. exfalso.
    assert (H : hasId idOf table (idOf r) = true) by (apply hasId_In; eauto).
    congruence.
Qed.

Lemma NoDup_filter_ids (f : R -> bool) (table : list R) :
  NoDup (map idOf table) -> NoDup (map idOf (filter f table)).
Proof.
  induction table as [|r table IH]; simpl; intros H; [constructor|].
  inversion H as [|? ? Hnot Hnd]; subst.
  destruct (f r); simpl; auto. constructor; auto.
  intros Hin. apply Hnot. apply in_map_iff in Hin.
  destruct Hin as (x & Hx & Hin). apply filter_In in Hin.
  rewrite <- Hx. apply in_map. tauto.
Qed.

(** ** Patches *)

Lemma patchBy_ok (table : list R) (id : Id) (patch : R -> R) :
  hasId idOf table id = true ->
  patchBy idOf table id patch
  = Ok (map (fun r => if String.eqb (idOf r) id then patch r else r) table).
Proof. unfold patchBy, hasId. now intros ->. Qed.

Lemma patchBy_missing (table : list R) (id : Id) (patch : R -> R) :
  hasId idOf table id = false ->
  patchBy idOf table id patch = Throw (NonexistentDocument id).
Proof. unfold patchBy, hasId. now intros ->. Qed.

Lemma patched_ids (table : list R) (id : Id) (patch : R -> R) :
  (forall r, idOf (patch r) = idOf r) ->
  map idOf (map (fun r => if String.eqb (idOf r) id then patch r else r) table)
  = map idOf table.
Proof.
  intros H. rewrite map_map. apply map_ext. intros r.
  now destruct (String.eqb (idOf r) id).
Qed.

Lemma getBy_patched (table : list R) (id id' : Id) (patch : R -> R) :
  (forall r, idOf (patch r) = idOf r) ->
  getBy idOf (map (fun r => if String.eqb (idOf r) id then patch r else r) table) id'
  = if String.eqb id id'
    then option_map patch (getBy idOf table id')
    else getBy idOf table id'.
Proof.
  intros H. unfold getBy. induction table as [|r table IH]; simpl.
  - now destruct (String.eqb id id').
  - destruct (String.eqb_spec (idOf r) id) as [Er|Er].
    + rewrite H, Er. destruct (String.eqb_spec id id') as [E|E]; [reflexivity|].
      rewrite IH. now destruct (String.eqb_spec id id').
    + destruct (String.eqb_spec (idOf r) id') as [E'|E'].
      * destruct (String.eqb_spec id id') as [E|E]; [congruence | reflexivity].
      * exact IH.
Qed.

(** ** Deletions *)

Lemma deleteBy_ok (table : list R) (id : Id) :
  hasId idOf table id = true ->
  deleteBy idOf table id = Ok (filter (fun r => negb (String.eqb (idOf r) id)) table).
Proof. unfold deleteBy, hasId. now intros ->. Qed.

Lemma deleteBy_missing (table : list R) (id : Id) :
  hasId idOf table id = false -> deleteBy idOf table id = Throw (NonexistentDocument id).
Proof. unfold deleteBy, hasId. now intros ->. Qed.

Lemma filter_filter (f g : R -> bool) (l : list R) :
  filter f (filter g l) = filter (fun r => g r && f r) l.
Proof.
  induction l as [|r l IH]; simpl; [reflexivity|].
  destruct (g r); simpl; [destruct (f r)|]; now rewrite IH.
Qed.

(** Deleting, one by one, rows of the table that have different ids
    leaves the rows with none of these ids. *)
Lemma delete_each (victims : list R) : forall table,
  NoDup (map idOf victims) -> incl victims table ->
  forEach (fun t v => deleteBy idOf t (idOf v)) victims table
  = Ok (filter (fun r => negb (hasId idOf victims (idOf r))) table).
Proof.
  induction victims as [|v victims IH]; intros table Hnd Hincl.
  - cbn. f_equal. symmetry. now apply PaginationFacts.filter_all, Forall_forall.
  - inversion Hnd as [|? ? Hnot Hnd']; subst.
    cbn [forEach]. rewrite deleteBy_ok.
    2:{ apply hasId_In. exists v. split; [apply Hincl; now left | reflexivity]. }
    cbn [bind]. rewrite IH; [|exact Hnd'|].
    + f_equal. rewrite filter_filter. apply filter_ext. intros r.
      unfold hasId. cbn [existsb]. rewrite negb_orb.
      now rewrite (String.eqb_sym (idOf v)).
    + intros x Hx. apply filter_In. split; [apply Hincl; now right|].
      apply negb_true_iff, String.eqb_neq. intros E. apply Hnot.
      rewrite <- E. now apply in_map.
Qed.

(** The rows of the table a predicate selects, taken by their ids. *)
Lemma hasId_selected (f : R -> bool) (table : list R) (r : R) :
  NoDup (map idOf table) -> In r table ->
  hasId idOf (filter f table) (idOf r) = f r.
Proof.
  intros Hnd Hin. destruct (f r) eqn:E.
  - apply hasId_In. exists r. split; [|reflexivity]. apply filter_In. auto.
  - destruct (hasId idOf (filter f table) (idOf r)) eqn:Eh; [|reflexivity].
    apply hasId_In in Eh. destruct Eh as (x & Hx & Hid).
    apply filter_In in Hx. destruct Hx as [Hx Hfx].
    rewrite (unique_row table x r Hnd Hx Hin Hid) in Hfx. congruence.
Qed.

Lemma delete_selected (f : R -> bool) (table : list R) :
  NoDup (map idOf table) ->
  forEach (fun t v => deleteBy idOf t (idOf v)) (filter f table) table
  = Ok (filter (fun r => negb (f r)) table).
Proof.
  intros Hnd. rewrite delete_each.
  - f_equal. apply filter_ext_in. intros r Hin.
    now rewrite (hasId_selected f table r Hnd Hin).
  - now apply NoDup_filter_ids.
  - intros x Hx. now apply filter_In in Hx.
Qed.
End Table.

(** A loop that writes one table only. *)
Lemma forEach_lift {A S T} (get : S -> T) (set : S -> T -> S)
  (step : T -> A -> result T) (l : list A) :
  (forall s t, get (set s t) = t) ->
  (forall s t t', set (set s t) t' = set s t') ->
  (forall s, set s (get s) = s) ->
  forall s,
    forEach (fun s x => t' <- step (get s) x ;; Ok (set s t')) l s
    = (t' <- forEach step l (get s) ;; Ok (set s t')).
Proof.
  intros Hget Hset Hsame. induction l as [|x l IH]; intros s.
  - cbn. now rewrite Hsame.
  - cbn [forEach]. destruct (step (get s) x) as [t|e]; [|reflexivity].
    cbn [bind]. rewrite IH, Hget.
    destruct (forEach step l t) as [t'|e]; [|reflexivity].
    cbn [bind]. now rewrite Hset.
Qed.

End StoreFacts.

(* ================================================================= *)
(** * Documents *)

Module DocumentFacts.
Import JS Convex Store Documents StoreFacts.
Open Scope string_scope.

Lemma substring_prefix (n : nat) : forall s : string,
  prefix (substring 0 n s) s = true
  /\ String.length (substring 0 n s) = Nat.min n (String.length s).
Proof.
  induction n as [|n IH]; intros [|c s]; simpl; auto.
  destruct (IH s) as [Hp Hl]. rewrite Hp, Hl.
  split; [|reflexivity]. now destruct (Ascii.ascii_dec c c).
Qed.

(** [createDocument] appends a document with the status ["new"],
    the language the caller gave (["en"] when it is omitted or empty),
    both timestamps at the one reading of the clock, no [indexedAt], and
    as search text the first 1000 code units of the title, a space and
    the content.  Under a fresh id, [getDocument] then returns this
    document, and every other id is answered as before. *)
Theorem createDocument_then_get (now : Z) (newId : Id) (args : CreateArgs.t) (s : Store.t) :
  getDocument s newId = None ->
  let s' := snd (createDocument now newId args s) in
  let text := CreateArgs.title args ++ " " ++ orString (CreateArgs.content args) "" in
  fst (createDocument now newId args s) = newId
  /\ (exists row,
        getDocument s' newId = Some row
        /\ documents s' = (documents s ++ [row])%list
        /\ DocumentRow.status row = New
        /\ DocumentRow.language row = orString (CreateArgs.language args) "en"
        /\ DocumentRow.createdAt row = now
        /\ DocumentRow.updatedAt row = now
        /\ DocumentRow.indexedAt row = None
        /\ exists searchText,
             DocumentRow.searchText row = Some searchText
             /\ prefix searchText text = true
             /\ String.length searchText = Nat.min 1000 (String.length text))
  /\ (forall id, id <> newId -> getDocument s' id = getDocument s id)
  /\ orString (Some "") "en" = "en"
  /\ orString None "en" = "en".
Proof.
  intros Hfresh s' text. split; [reflexivity|]. split; [|split; [|split; reflexivity]].
  - eexists. split; [|split; [reflexivity|]].
    + unfold s', getDocument, createDocument. cbn [snd documents withDocuments].
      rewrite getBy_app. unfold getDocument in Hfresh. rewrite Hfresh.
      cbn [DocumentRow._id]. now rewrite String.eqb_refl.
    + cbn [DocumentRow.status DocumentRow.language DocumentRow.createdAt
           DocumentRow.updatedAt DocumentRow.indexedAt DocumentRow.searchText].
      repeat (split; [reflexivity|]).
      eexists. split; [reflexivity|]. apply substring_prefix.
  - intros id Hid. unfold s', getDocument, createDocument.
    cbn [snd documents withDocuments]. rewrite getBy_app.
    destruct (getBy DocumentRow._id (documents s) id); [reflexivity|].
    cbn [DocumentRow._id].
    destruct (String.eqb_spec newId id); [congruence | reflexivity].
Qed.

Lemma createDocument_then_get_witness :
  getDocument Cases.shelf "d9"%string = None
  /\ (exists row,
        getDocument (snd (createDocument 1000 "d9"%string Cases.submission Cases.shelf))
          "d9"%string = Some row
        /\ DocumentRow.language row = "en"%string
        /\ DocumentRow.searchText row = Some "Chunking one two"%string)
  /\ getDocument (snd (createDocument 1000 "d9"%string Cases.submission Cases.shelf))
       "d1"%string
     = getDocument Cases.shelf "d1"%string.
Proof.
  split; [reflexivity|].
  destruct (createDocument_then_get 1000 "d9"%string Cases.submission Cases.shelf eq_refl)
    as [_ [[row [Hget _]] [Hother _]]].
  split.
  - exists row. split; [exact Hget|].
    vm_compute in Hget. injection Hget as <-. split; reflexivity.
  - apply Hother. discriminate.
Defined.

(** [updateDocumentStatus] throws when the document does not exist.
    Otherwise it sets the status and [updatedAt] of that document and
    leaves every other document as it was.  [indexedAt] becomes the
    [indexedAt] of the call when that is given and not [0]; otherwise the
    reading of the clock when the new status is ["indexed"]; otherwise it
    stays: a status change never clears it, and an indexed document
    always has one. *)
Theorem updateDocumentStatus_indexedAt (now : nat -> Z) (args : StatusArgs.t) (s : Store.t) :
  let id := StatusArgs.documentId args in
  (getDocument s id = None ->
   updateDocumentStatus now args s = Throw (NonexistentDocument id))
  /\ (forall doc,
        getDocument s id = Some doc ->
        exists s' doc',
          updateDocumentStatus now args s = Ok s'
          /\ getDocument s' id = Some doc'
          /\ DocumentRow.status doc' = StatusArgs.status args
          /\ DocumentRow.updatedAt doc' = now 0%nat
          /\ DocumentRow.indexedAt doc'
             = match StatusArgs.indexedAt args with
               | Some 0%Z | None =>
                   if docStatus_eqb (StatusArgs.status args) Indexed
                   then Some (now 1%nat)
                   else DocumentRow.indexedAt doc
               | Some t => Some t
               end
          /\ (DocumentRow.indexedAt doc <> None -> DocumentRow.indexedAt doc' <> None)
          /\ (StatusArgs.status args = Indexed -> DocumentRow.indexedAt doc' <> None)
          /\ DocumentRow.content doc' = DocumentRow.content doc
          /\ DocumentRow.createdAt doc' = DocumentRow.createdAt doc
          /\ map DocumentRow._id (documents s') = map DocumentRow._id (documents s)
          /\ (forall id', id' <> id -> getDocument s' id' = getDocument s id')
          /\ chunks s' = chunks s
          /\ chunkEmbeddings s' = chunkEmbeddings s).
Proof.
  intros id. unfold updateDocumentStatus, getDocument. fold id. split.
  - intros H. apply getBy_none in H. now rewrite patchBy_missing.
  - intros doc Hdoc.
    assert (Hhas : hasId DocumentRow._id (documents s) id = true).
    { destruct (hasId DocumentRow._id (documents s) id) eqn:E; [reflexivity|].
      apply getBy_none in E. congruence. }
    rewrite (patchBy_ok _ _ _ _ Hhas). cbn [bind].
    eexists. eexists. split; [reflexivity|].
    cbn [documents withDocuments chunks chunkEmbeddings].
    split.
    { rewrite getBy_patched by reflexivity. rewrite String.eqb_refl, Hdoc. reflexivity. }
    cbn [DocumentRow.status DocumentRow.updatedAt DocumentRow.indexedAt
         DocumentRow.content DocumentRow.createdAt].
    split; [reflexivity|]. split; [reflexivity|].
    assert (Hi : (if match StatusArgs.indexedAt args with
                     | Some t => negb (t =? 0)%Z
                     | None => false
                     end
                  then StatusArgs.indexedAt args
                  else if docStatus_eqb (StatusArgs.status args) Indexed
                       then Some (now 1%nat)
                       else DocumentRow.indexedAt doc)
                 = match StatusArgs.indexedAt args with
                   | Some 0%Z | None =>
                       if docStatus_eqb (StatusArgs.status args) Indexed
                       then Some (now 1%nat)
                       else DocumentRow.indexedAt doc
                   | Some t => Some t
                   end).
    { destruct (StatusArgs.indexedAt args) as [[|t|t]|]; reflexivity. }
    rewrite Hi. split; [reflexivity|]. split; [|split].
    + intros Hold. destruct (StatusArgs.indexedAt args) as [[|t|t]|]; try discriminate;
        destruct (docStatus_eqb _ _); auto; discriminate.
    + intros ->. destruct (StatusArgs.indexedAt args) as [[|t|t]|]; discriminate.
    + split; [reflexivity|]. split; [reflexivity|].
      split; [now apply patched_ids|]. split; [|split; reflexivity].
      intros id' Hid. rewrite getBy_patched by reflexivity.
      destruct (String.eqb_spec id id'); [congruence | reflexivity].
Qed.

Lemma updateDocumentStatus_indexedAt_witness :
  exists s' doc',
    updateDocumentStatus Cases.clock
      {| StatusArgs.documentId := "d1"; StatusArgs.status := Indexed;
         StatusArgs.indexedAt := Some 0%Z |} Cases.shelf = Ok s'
    /\ getDocument s' "d1" = Some doc'
    /\ DocumentRow.status doc' = Indexed
    /\ DocumentRow.updatedAt doc' = Cases.clock 0%nat
    /\ DocumentRow.indexedAt doc' = Some (Cases.clock 1%nat)
    /\ (DocumentRow.indexedAt (Cases.paper "d1" "a b c d e") <> None
        -> DocumentRow.indexedAt doc' <> None)
    /\ (Indexed = Indexed -> DocumentRow.indexedAt doc' <> None)
    /\ DocumentRow.content doc' = Some "a b c d e"
    /\ DocumentRow.createdAt doc' = 900%Z
    /\ map DocumentRow._id (documents s') = map DocumentRow._id (documents Cases.shelf)
    /\ (forall id', id' <> "d1" -> getDocument s' id' = getDocument Cases.shelf id')
    /\ chunks s' = chunks Cases.shelf
    /\ chunkEmbeddings s' = chunkEmbeddings Cases.shelf.
Proof.
  apply (proj2 (updateDocumentStatus_indexedAt Cases.clock
                  {| StatusArgs.documentId := "d1"; StatusArgs.status := Indexed;
                     StatusArgs.indexedAt := Some 0%Z |} Cases.shelf)
               (Cases.paper "d1" "a b c d e")).
  reflexivity.
Defined.

Lemma lastElement_some {A} (l : list A) : l <> [] -> exists x, lastElement l = Some x.
Proof.
  intros H. destruct (lastElement l) as [x|] eqn:E; [eauto|].
  apply SearchFacts.lastElement_none in E. contradiction.
Qed.

(** [listDocuments] does not read its cursor: whatever the cursor,
    it returns the first [limit] documents (10 when the limit is omitted
    or 0) of the requested status, in creation order.  [nextCursor] is
    the id of the last of them exactly when the page is full, also when no
    document is left behind it; a call with that cursor returns the same
    page again. *)
Theorem listDocuments_first_page (s : Store.t) (args : ListArgs.t) :
  let limit := match ListArgs.limit args with Some (S n) => S n | _ => 10%nat end in
  let matching :=
    match ListArgs.status args with
    | Some status =>
        filter (fun d => docStatus_eqb (DocumentRow.status d) status) (documents s)
    | None => documents s
    end in
  let page := listDocuments s args in
  Listing.documents page = firstn limit matching
  /\ (Listing.nextCursor page <> None <-> (limit <= List.length matching)%nat)
  /\ ((limit <= List.length matching)%nat ->
      exists last,
        lastElement (Listing.documents page) = Some last
        /\ Listing.nextCursor page = Some (DocumentRow._id last))
  /\ (forall cursor,
        listDocuments s {| ListArgs.limit := ListArgs.limit args;
                           ListArgs.cursor := cursor;
                           ListArgs.status := ListArgs.status args |}
        = page).
Proof.
  intros limit matching page.
  assert (Hlimit : (1 <= limit)%nat).
  { unfold limit. destruct (ListArgs.limit args) as [[|n]|]; lia. }
  assert (Hdocs : Listing.documents page = firstn limit matching).
  { unfold page, listDocuments, matching, limit, take.
    now destruct (ListArgs.status args). }
  assert (Hnext : Listing.nextCursor page
                  = if Nat.eqb (List.length (firstn limit matching)) limit
                    then option_map DocumentRow._id (lastElement (firstn limit matching))
                    else None).
  { unfold page, listDocuments, matching, limit, take.
    now destruct (ListArgs.status args). }
  split; [exact Hdocs|].
  assert (Hfull : (limit <= List.length matching)%nat ->
                  exists last,
                    lastElement (Listing.documents page) = Some last
                    /\ Listing.nextCursor page = Some (DocumentRow._id last)).
  { intros Hle. rewrite Hnext, Hdocs.
    assert (Hl : List.length (firstn limit matching) = limit)
      by (rewrite length_firstn; lia).
    rewrite Hl, Nat.eqb_refl.
    destruct (lastElement_some (firstn limit matching)) as [last Hlast].
    { intros E. rewrite E in Hl. simpl in Hl. lia. }
    exists last. now rewrite Hlast. }
  split; [|split; [exact Hfull | reflexivity]].
  split.
  - intros Hn. rewrite Hnext in Hn.
    destruct (Nat.eqb_spec (List.length (firstn limit matching)) limit) as [E|E];
      [|now contradiction Hn].
    rewrite length_firstn in E. lia.
  - intros Hle. destruct (Hfull Hle) as (last & _ & ->). discriminate.
Qed.

(** ** Deleting a document *)

Lemma deleteDocument_run (id : Id) (s : Store.t) :
  NoDup (map ChunkRow._id (chunks s)) ->
  deleteDocument id s
  = (documents' <- deleteBy DocumentRow._id (documents s) id ;;
     Ok ({| deleted := true;
            chunksDeleted :=
              List.length (filter (fun c => String.eqb (ChunkRow.documentId c) id)
                                  (chunks s)) |},
         withDocuments
           (withChunks s (filter (fun c => negb (String.eqb (ChunkRow.documentId c) id))
                                 (chunks s)))
           documents')).
Proof.
  intros Hnd. unfold deleteDocument.
  rewrite (forEach_lift chunks withChunks
             (fun t v => deleteBy ChunkRow._id t (ChunkRow._id v)));
    [| reflexivity | reflexivity | now intros []].
  rewrite (delete_selected ChunkRow._id _ _ Hnd). reflexivity.
Qed.

(** [deleteDocument] removes the document and exactly its chunks,
    and reports their number; it throws, and deletes nothing, when the
    document does not exist.  It does not touch [chunkEmbeddings]: the
    embeddings of the deleted chunks stay in the table that
    [searchChunksV2] scans, and their chunk is no longer found. *)
Theorem deleteDocument_orphans_embeddings (id : Id) (s : Store.t) :
  NoDup (map ChunkRow._id (chunks s)) ->
  (hasId DocumentRow._id (documents s) id = false ->
   deleteDocument id s = Throw (NonexistentDocument id))
  /\ (hasId DocumentRow._id (documents s) id = true ->
      exists s',
        deleteDocument id s
        = Ok ({| deleted := true;
                 chunksDeleted :=
                   List.length (filter (fun c => String.eqb (ChunkRow.documentId c) id)
                                       (chunks s)) |}, s')
        /\ documents s'
           = filter (fun d => negb (String.eqb (DocumentRow._id d) id)) (documents s)
        /\ chunks s'
           = filter (fun c => negb (String.eqb (ChunkRow.documentId c) id)) (chunks s)
        /\ chunkEmbeddings s' = chunkEmbeddings s
        /\ vectorMemories s' = vectorMemories s
        /\ forall emb c,
             In emb (chunkEmbeddings s) -> In c (chunks s) ->
             ChunkRow._id c = ChunkEmbedding.chunkId emb ->
             ChunkRow.documentId c = id ->
             In emb (Convex.chunkEmbeddings (view s'))
             /\ Convex.getChunk (view s') (ChunkEmbedding.chunkId emb) = None).
Proof.
  intros Hnd. rewrite (deleteDocument_run id s Hnd). split.
  - intros H. now rewrite deleteBy_missing.
  - intros H. rewrite (deleteBy_ok _ _ _ H). cbn [bind].
    eexists. split; [reflexivity|].
    cbn [documents chunks chunkEmbeddings vectorMemories withDocuments withChunks].
    repeat (split; [reflexivity|]).
    intros emb c Hemb Hc Hid Hdoc. split; [exact Hemb|].
    unfold Convex.getChunk, view. cbn [Convex.chunks chunks].
    destruct (find _ _) as [x|] eqn:E; [|reflexivity].
    exfalso. apply find_some in E. destruct E as [Hx Hxid].
    apply in_map_iff in Hx. destruct Hx as (r & <- & Hr).
    apply filter_In in Hr. destruct Hr as [Hr Hkeep].
    cbn [toChunk Chunk._id] in Hxid. apply String.eqb_eq in Hxid.
    assert (r = c) by (apply (unique_row ChunkRow._id (chunks s)); auto; congruence).
    subst r. rewrite Hdoc, String.eqb_refl in Hkeep. discriminate.
Qed.

Lemma deleteDocument_orphans_embeddings_witness :
  exists s',
    deleteDocument "d1" Cases.shelf
    = Ok ({| deleted := true;
             chunksDeleted :=
               List.length (filter (fun c => String.eqb (ChunkRow.documentId c) "d1")
                                   (chunks Cases.shelf)) |}, s')
    /\ documents s'
       = filter (fun d => negb (String.eqb (DocumentRow._id d) "d1")) (documents Cases.shelf)
    /\ chunks s'
       = filter (fun c => negb (String.eqb (ChunkRow.documentId c) "d1")) (chunks Cases.shelf)
    /\ chunkEmbeddings s' = chunkEmbeddings Cases.shelf
    /\ vectorMemories s' = vectorMemories Cases.shelf
    /\ forall emb c,
         In emb (chunkEmbeddings Cases.shelf) -> In c (chunks Cases.shelf) ->
         ChunkRow._id c = ChunkEmbedding.chunkId emb ->
         ChunkRow.documentId c = "d1" ->
         In emb (Convex.chunkEmbeddings (view s'))
         /\ Convex.getChunk (view s') (ChunkEmbedding.chunkId emb) = None.
Proof.
  apply (proj2 (deleteDocument_orphans_embeddings "d1" Cases.shelf
                  ltac:(repeat constructor; simpl; intuition discriminate))).
  reflexivity.
Defined.

End DocumentFacts.

(* ================================================================= *)
(** * Memories *)

Module MemoryFacts.
Import JS Vectors Convex Spec Notions Store MemoryWrites StoreFacts.
Open Scope float_scope.

Lemma zero_magnitude_scores_zero (query e : vector) (m : number) (sim : number) :
  strictEq m 0 = true ->
  cosineSimilarityWithMagnitude query e (reducedMagnitude query) m = Ok sim ->
  sim = 0.
Proof.
  unfold cosineSimilarityWithMagnitude. intros Hm.
  destruct (checkDimensions query e); [|discriminate].
  cbn [bind]. rewrite Hm, orb_true_r. intros H. now injection H as <-.
Qed.

(** [storeVectorMemory] appends a memory with the importance of the
    call ([0.5] when it is omitted or [0]), no access, and the magnitude
    the caller passes, which it does not compute.  [vectorSearch] scores
    the memory with that magnitude: with the magnitude of the embedding
    the score is [cosineSimilarity]; with a magnitude of [0] the score is
    [0] whatever the embedding, and under a positive threshold the memory,
    stored under a fresh id, is never among the results. *)
Theorem storeVectorMemory_trusts_magnitude
  (now : nat -> Z) (newId : Id) (args : StoreArgs.t) (s : Store.t) :
  let s' := snd (storeVectorMemory now newId args s) in
  fst (storeVectorMemory now newId args s) = newId
  /\ (exists row,
        vectorMemories s' = vectorMemories s ++ [row]
        /\ Convex.vectorMemories (view s')
           = Convex.vectorMemories (view s) ++ [toVectorMemory row]
        /\ MemoryRow._id row = newId
        /\ MemoryRow.embedding row = StoreArgs.embedding args
        /\ MemoryRow.magnitude row = StoreArgs.magnitude args
        /\ MemoryRow.importanceScore row = orDefault (StoreArgs.importanceScore args) 0.5
        /\ MemoryRow.accessCount row = 0
        /\ MemoryRow.confidenceScore row = 0.5)
  /\ orDefault (Some 0) 0.5 = 0.5
  /\ (StoreArgs.magnitude args = reducedMagnitude (StoreArgs.embedding args) ->
      forall query,
        cosineSimilarityWithMagnitude query (StoreArgs.embedding args)
          (reducedMagnitude query) (StoreArgs.magnitude args)
        = cosineSimilarity query (StoreArgs.embedding args))
  /\ (strictEq (StoreArgs.magnitude args) 0 = true ->
      Forall (fun m => MemoryRow._id m <> newId) (vectorMemories s) ->
      forall ctx query results,
        db ctx = view s' ->
        (0 <? orDefault (VectorSearch.Args.threshold query) 0.7) = true ->
        VectorSearch.vectorSearch ctx query = Ok results ->
        Forall (fun r => VectorSearch.MemoryResult.documentId r <> newId) results).
Proof.
  intros s'. split; [reflexivity|]. split; [|split; [reflexivity|split]].
  - eexists. split; [reflexivity|]. split.
    + unfold s', storeVectorMemory, view.
      cbn [snd vectorMemories withVectorMemories Convex.vectorMemories].
      now rewrite map_app.
    + repeat split.
  - intros Hm query. rewrite Hm. apply CacheFacts.norms_agree.
  - intros Hzero Hfresh ctx query results Hdb Ht Hsearch.
    eapply Forall_impl; [|exact (HandlerFacts.vectorSearch_sound ctx query results Hsearch)].
    intros r (Hin & Hid & Hscore & Hg) E.
    rewrite Hdb in Hin. unfold s', storeVectorMemory, view in Hin.
    cbn [snd vectorMemories withVectorMemories Convex.vectorMemories] in Hin.
    rewrite map_app in Hin. apply in_app_or in Hin.
    destruct Hin as [Hin | [Hin | []]].
    + apply in_map_iff in Hin. destruct Hin as (m & Hm & Hin).
      rewrite Forall_forall in Hfresh. apply (Hfresh m Hin).
      rewrite <- E, Hid, <- Hm. reflexivity.
    + rewrite <- Hin in Hscore. cbn [toVectorMemory VectorMemory.embedding
        VectorMemory.magnitude MemoryRow.embedding MemoryRow.magnitude] in Hscore.
      apply (zero_magnitude_scores_zero _ _ _ _ Hzero) in Hscore.
      rewrite Hscore, (SearchFacts.positive_threshold_excludes_zero _ Ht) in Hg.
      discriminate.
Qed.

Lemma storeVectorMemory_trusts_magnitude_witness :
  exists results,
    VectorSearch.vectorSearch
      (Samples.runningOn
         (view (snd (storeVectorMemory Cases.clock "m3"%string Cases.flatMemory Cases.shelf))))
      (Samples.memoryQuery [1; 0])
    = Ok results
    /\ results <> []
    /\ Forall (fun r => VectorSearch.MemoryResult.documentId r <> "m3"%string) results.
Proof.
  eexists. split; [vm_compute; reflexivity|]. split; [discriminate|].
  apply (proj2 (proj2 (proj2 (proj2
           (storeVectorMemory_trusts_magnitude Cases.clock "m3"%string
              Cases.flatMemory Cases.shelf))))
           eq_refl
           ltac:(repeat constructor; discriminate)
           (Samples.runningOn
              (view (snd (storeVectorMemory Cases.clock "m3"%string
                            Cases.flatMemory Cases.shelf))))
           (Samples.memoryQuery [1; 0])).
  - reflexivity.
  - reflexivity.
  - vm_compute. reflexivity.
Defined.

(** ** Access counts *)

Lemma accessed_again (now : Z) (n : nat) (m : MemoryRow.t) :
  accessed now n (accessed now 1 m) = accessed now (S n) m.
Proof.
  destruct n as [|n]; [reflexivity|].
  unfold accessed. cbn [MemoryRow._id MemoryRow.memoryType MemoryRow.content
    MemoryRow.embedding MemoryRow.embeddingModel MemoryRow.importanceScore
    MemoryRow.accessCount MemoryRow.lastAccessedAt MemoryRow.createdAt
    MemoryRow.updatedAt MemoryRow.agentId MemoryRow.confidenceScore MemoryRow.magnitude].
  f_equal. symmetry.
  exact (Nat.iter_succ_r (S n) _ (fun count => count + 1) (MemoryRow.accessCount m)).
Qed.

Lemma accessed_view (now : Z) (n : nat) (m : MemoryRow.t) :
  toVectorMemory (accessed now n m) = toVectorMemory m.
Proof. now destruct n. Qed.

Lemma accessed_id (now : Z) (n : nat) (m : MemoryRow.t) :
  MemoryRow._id (accessed now n m) = MemoryRow._id m.
Proof. now destruct n. Qed.

Lemma updateAccessCounts_run (now : Z) (memoryIds : list Id) : forall s,
  NoDup (map MemoryRow._id (vectorMemories s)) ->
  updateAccessCounts now memoryIds s
  = Ok (withVectorMemories s
          (map (fun m => accessed now (count_occ string_dec memoryIds (MemoryRow._id m)) m)
               (vectorMemories s))).
Proof.
  unfold updateAccessCounts.
  induction memoryIds as [|id memoryIds IH]; intros s Hnd.
  - cbn. f_equal. destruct s. cbn. now rewrite map_id.
  - cbn [forEach].
    destruct (getBy MemoryRow._id (vectorMemories s) id) as [memory|] eqn:Eg.
    + destruct (getBy_id _ _ _ _ Eg) as [Hin Hid].
      rewrite patchBy_ok by (apply hasId_In; eauto). cbn [bind].
      rewrite IH.
      2:{ cbn [vectorMemories withVectorMemories]. now rewrite patched_ids. }
      f_equal. cbn [vectorMemories withVectorMemories]. unfold withVectorMemories.
      cbn [documents chunks chunkEmbeddings]. f_equal.
      rewrite map_map. apply map_ext_in. intros m Hm.
      destruct (String.eqb_spec (MemoryRow._id m) id) as [E|E].
      * assert (m = memory)
          by (apply (unique_row MemoryRow._id (vectorMemories s)); auto; congruence).
        subst m. cbn [MemoryRow._id count_occ].
        destruct (string_dec id (MemoryRow._id memory)) as [_|N]; [|congruence].
        apply (accessed_again now _ memory).
      * cbn [count_occ].
        destruct (string_dec id (MemoryRow._id m)) as [Y|_]; [congruence | reflexivity].
    + cbn [bind]. rewrite IH by exact Hnd. f_equal. f_equal.
      apply map_ext_in. intros m Hm. cbn [count_occ].
      destruct (string_dec id (MemoryRow._id m)) as [Y|_]; [|reflexivity].
      exfalso. apply getBy_none in Eg.
      assert (H : hasId MemoryRow._id (vectorMemories s) id = true)
        by (apply hasId_In; eauto).
      congruence.
Qed.

(** [updateAccessCounts] never throws.  It adds 1 to the
    [accessCount] of a memory once for every occurrence of its id in the
    list, and stamps [lastAccessedAt] of the memories that occur; ids
    without a memory are skipped.  It adds and removes no memory, and
    changes nothing that [vectorSearch] reads. *)
Theorem updateAccessCounts_counts (now : Z) (memoryIds : list Id) (s : Store.t) :
  NoDup (map MemoryRow._id (vectorMemories s)) ->
  exists s',
    updateAccessCounts now memoryIds s = Ok s'
    /\ vectorMemories s'
       = map (fun m => accessed now (count_occ string_dec memoryIds (MemoryRow._id m)) m)
             (vectorMemories s)
    /\ map MemoryRow._id (vectorMemories s') = map MemoryRow._id (vectorMemories s)
    /\ view s' = view s.
Proof.
  intros Hnd. rewrite (updateAccessCounts_run now memoryIds s Hnd).
  eexists. split; [reflexivity|]. cbn [vectorMemories withVectorMemories].
  split; [reflexivity|]. split.
  - rewrite map_map. apply map_ext. intros m. apply accessed_id.
  - unfold view. cbn [documents chunks chunkEmbeddings vectorMemories withVectorMemories].
    f_equal. rewrite map_map. apply map_ext. intros m. apply accessed_view.
Qed.

Lemma updateAccessCounts_counts_witness :
  exists s',
    updateAccessCounts 2000 ["m1"; "ghost"; "m1"]%string Cases.shelf = Ok s'
    /\ vectorMemories s'
       = map (fun m => accessed 2000
                         (count_occ string_dec ["m1"; "ghost"; "m1"]%string (MemoryRow._id m))
                         m)
             (vectorMemories Cases.shelf)
    /\ map MemoryRow._id (vectorMemories s') = map MemoryRow._id (vectorMemories Cases.shelf)
    /\ view s' = view Cases.shelf.
Proof.
  apply (updateAccessCounts_counts 2000 ["m1"; "ghost"; "m1"]%string Cases.shelf).
  repeat constructor; simpl; intuition discriminate.
Defined.

(** ** Chunks stored with their embedding *)

(** [storeChunkWithEmbedding] appends a chunk that carries its
    embedding, the length of the embedding as its dimensions, and the
    magnitude [calculateMagnitude] computes of it.  [searchChunks] scores
    the chunk when that magnitude is truthy, and then with
    [cosineSimilarity] of the query and the embedding.  The call writes no
    [chunkEmbeddings] document: [searchChunksV2] scans what it scanned
    before. *)
Theorem storeChunkWithEmbedding_is_scored
  (now : Z) (newId : Id) (args : ChunkArgs.t) (s : Store.t) :
  let s' := snd (storeChunkWithEmbedding now newId args s) in
  fst (storeChunkWithEmbedding now newId args s) = newId
  /\ (exists row,
        chunks s' = chunks s ++ [row]
        /\ Convex.chunks (view s') = Convex.chunks (view s) ++ [toChunk row]
        /\ ChunkRow._id row = newId
        /\ ChunkRow.embedding row = Some (ChunkArgs.embedding args)
        /\ ChunkRow.magnitude row = Some (calculateMagnitude (ChunkArgs.embedding args))
        /\ ChunkRow.embeddingDimensions row = Some (lengthNumber (ChunkArgs.embedding args))
        /\ scorable (toChunk row) = ToBoolean (calculateMagnitude (ChunkArgs.embedding args))
        /\ forall query,
             cosineSimilarityWithMagnitude query (embeddingOfChunk (toChunk row))
               (reducedMagnitude query) (magnitudeOfChunk (toChunk row))
             = cosineSimilarity query (ChunkArgs.embedding args))
  /\ (forall args', VectorSearchV2.scanWindow (view s') args'
                    = VectorSearchV2.scanWindow (view s) args').
Proof.
  intros s'. split; [reflexivity|]. split; [|reflexivity].
  eexists. split; [reflexivity|]. split.
  - unfold s', storeChunkWithEmbedding, view.
    cbn [snd chunks withChunks Convex.chunks]. now rewrite map_app.
  - repeat (split; [reflexivity|]).
    intros query. apply CacheFacts.norms_agree.
Qed.

End MemoryFacts.

(* ================================================================= *)
(** * Chunking *)

Module ChunkingFacts.
Import JS Convex Notions Store Count Chunking StoreFacts.

(** ** Deleting the chunks of a document *)

Lemma delete_embeddings_of (chunkId : Id) (s : Store.t) :
  NoDup (map ChunkEmbedding._id (chunkEmbeddings s)) ->
  forEach
    (fun s embedding =>
       embeddings' <- deleteBy ChunkEmbedding._id (chunkEmbeddings s)
                        (ChunkEmbedding._id embedding) ;;
       Ok (withChunkEmbeddings s embeddings'))
    (filter (fun e => String.eqb (ChunkEmbedding.chunkId e) chunkId) (chunkEmbeddings s)) s
  = Ok (withChunkEmbeddings s
          (filter (fun e => negb (String.eqb (ChunkEmbedding.chunkId e) chunkId))
                  (chunkEmbeddings s))).
Proof.
  intros Hnd.
  rewrite (forEach_lift chunkEmbeddings withChunkEmbeddings
             (fun t v => deleteBy ChunkEmbedding._id t (ChunkEmbedding._id v)));
    [| reflexivity | reflexivity | now intros []].
  now rewrite (delete_selected ChunkEmbedding._id _ _ Hnd).
Qed.

Lemma delete_embeddings_of_chunks (victims : list ChunkRow.t) : forall s,
  NoDup (map ChunkEmbedding._id (chunkEmbeddings s)) ->
  forEach
    (fun s chunk =>
       forEach
         (fun s embedding =>
            embeddings' <- deleteBy ChunkEmbedding._id (chunkEmbeddings s)
                             (ChunkEmbedding._id embedding) ;;
            Ok (withChunkEmbeddings s embeddings'))
         (filter (fun e => String.eqb (ChunkEmbedding.chunkId e) (ChunkRow._id chunk))
                 (chunkEmbeddings s))
         s)
    victims s
  = Ok (withChunkEmbeddings s
          (filter (fun e => negb (hasId ChunkRow._id victims (ChunkEmbedding.chunkId e)))
                  (chunkEmbeddings s))).
Proof.
  induction victims as [|v victims IH]; intros s Hnd.
  - cbn [forEach]. f_equal.
    rewrite PaginationFacts.filter_all by now apply Forall_forall.
    now destruct s.
  - cbn [forEach]. rewrite (delete_embeddings_of (ChunkRow._id v) s Hnd). cbn [bind].
    rewrite IH.
    2:{ cbn [chunkEmbeddings withChunkEmbeddings]. now apply NoDup_filter_ids. }
    f_equal. unfold withChunkEmbeddings.
    cbn [documents chunks chunkEmbeddings vectorMemories]. f_equal.
    rewrite filter_filter. apply filter_ext. intros e.
    unfold hasId. cbn [existsb]. rewrite negb_orb.
    now rewrite (String.eqb_sym (ChunkRow._id v)).
Qed.

(** [deleteDocumentChunks] removes the chunks of the document and,
    before them, every embedding of one of these chunks, and reports the
    number of chunks; the document itself and its status stay.  It keeps
    the embeddings referentially intact: when every embedding had a chunk
    before the call, every embedding has one after it. *)
Theorem deleteDocumentChunks_keeps_integrity (documentId : Id) (s : Store.t) :
  NoDup (map ChunkRow._id (chunks s)) ->
  NoDup (map ChunkEmbedding._id (chunkEmbeddings s)) ->
  let victims := filter (fun c => String.eqb (ChunkRow.documentId c) documentId) (chunks s) in
  exists s',
    deleteDocumentChunks documentId s = Ok (List.length victims, s')
    /\ chunks s'
       = filter (fun c => negb (String.eqb (ChunkRow.documentId c) documentId)) (chunks s)
    /\ chunkEmbeddings s'
       = filter (fun e => negb (hasId ChunkRow._id victims (ChunkEmbedding.chunkId e)))
                (chunkEmbeddings s)
    /\ documents s' = documents s
    /\ vectorMemories s' = vectorMemories s
    /\ (noOrphans s -> noOrphans s').
Proof.
  intros Hc He victims. unfold deleteDocumentChunks. fold victims.
  rewrite (delete_embeddings_of_chunks victims s He). cbn [bind].
  rewrite (forEach_lift chunks withChunks
             (fun t v => deleteBy ChunkRow._id t (ChunkRow._id v)));
    [| reflexivity | reflexivity | now intros []].
  cbn [chunks withChunkEmbeddings]. unfold victims.
  rewrite (delete_selected ChunkRow._id _ _ Hc). cbn [bind].
  eexists. split; [reflexivity|].
  cbn [documents chunks chunkEmbeddings vectorMemories withChunks withChunkEmbeddings].
  repeat (split; [reflexivity|]).
  unfold noOrphans. cbn [chunks chunkEmbeddings]. rewrite !Forall_forall.
  intros H emb Hemb. apply filter_In in Hemb. destruct Hemb as [Hemb Hkeep].
  specialize (H emb Hemb). apply hasId_In in H. destruct H as (c & Hin & Hid).
  apply hasId_In. exists c. split; [|exact Hid].
  apply filter_In. split; [exact Hin|].
  rewrite <- Hid, (hasId_selected ChunkRow._id _ _ c Hc Hin) in Hkeep. exact Hkeep.
Qed.

Lemma deleteDocumentChunks_keeps_integrity_witness :
  let victims := filter (fun c => String.eqb (ChunkRow.documentId c) "d1"%string)
                        (chunks Cases.shelf) in
  exists s',
    deleteDocumentChunks "d1"%string Cases.shelf = Ok (List.length victims, s')
    /\ chunks s'
       = filter (fun c => negb (String.eqb (ChunkRow.documentId c) "d1"%string)) (chunks Cases.shelf)
    /\ chunkEmbeddings s'
       = filter (fun e => negb (hasId ChunkRow._id victims (ChunkEmbedding.chunkId e)))
                (chunkEmbeddings Cases.shelf)
    /\ documents s' = documents Cases.shelf
    /\ vectorMemories s' = vectorMemories Cases.shelf
    /\ (noOrphans Cases.shelf -> noOrphans s').
Proof.
  apply (deleteDocumentChunks_keeps_integrity "d1"%string Cases.shelf);
    repeat constructor; simpl; intuition discriminate.
Defined.

(** ** Words and white space *)

Section Words.
Open Scope string_scope.

Lemma chars_app (a b : string) :
list_ascii_of_string (a ++ b)
= (list_ascii_of_string a ++ list_ascii_of_string b)%list.
Proof. induction a as [|c a IH]; simpl; congruence. Qed.

Lemma trimStart_spaces (s : string) :
forallb isSpace (list_ascii_of_string (trimStart s)) = true ->
forallb isSpace (list_ascii_of_string s) = true.
Proof.
induction s as [|c s IH]; cbn [trimStart]; auto.
destruct (isSpace c) eqn:E; auto.
intros H. cbn [list_ascii_of_string forallb]. rewrite E. now apply IH.
Qed.

Lemma trimEnd_spaces (s : string) :
trimEnd s = "" -> forallb isSpace (list_ascii_of_string s) = true.
Proof.
induction s as [|c s IH]; cbn [trimEnd]; auto.
destruct (trimEnd s); [|discriminate].
destruct (isSpace c) eqn:E; [|discriminate].
intros _. cbn [list_ascii_of_string forallb]. rewrite E. now apply IH.
Qed.

Lemma blank_spaces (ws : list string) :
blank ws = true -> forallb isSpace (list_ascii_of_string (join ws)) = true.
Proof.
unfold blank, trim. intros H. apply Nat.eqb_eq in H.
apply trimStart_spaces, trimEnd_spaces.
now destruct (trimEnd (trimStart (join ws))).
Qed.

Lemma append_assoc (a b c : string) : (a ++ b) ++ c = a ++ b ++ c.
Proof. induction a as [|x a IH]; simpl; congruence. Qed.

Lemma join_cons (x y : string) (l : list string) :
join (x :: y :: l) = x ++ " " ++ join (y :: l).
Proof. reflexivity. Qed.

Lemma join_app (a b : list string) :
a <> [] -> b <> [] -> join (a ++ b) = join a ++ " " ++ join b.
Proof.
intros Ha Hb. induction a as [|x a IH]; [easy|].
destruct a as [|y a].
- destruct b; [easy|]. reflexivity.
- change ((x :: y :: a) ++ b)%list with (x :: y :: (a ++ b))%list.
  rewrite !join_cons.
  change (y :: (a ++ b))%list with ((y :: a) ++ b)%list.
  rewrite IH by discriminate. now rewrite !append_assoc.
Qed.

Lemma join_spaces (ws : list string) (word : string) :
In word ws ->
forallb isSpace (list_ascii_of_string (join ws)) = true ->
forallb isSpace (list_ascii_of_string word) = true.
Proof.
induction ws as [|x ws IH]; [easy|].
destruct ws as [|y ws].
- intros [<-|[]]. cbn. auto.
- rewrite join_cons, !chars_app, !forallb_app.
  intros [<-|Hin] H; apply andb_prop in H; destruct H as [Hx H];
    apply andb_prop in H; destruct H as [_ H]; auto.
Qed.

Lemma splitRuns_no_space (inRun : bool) (s : string) :
Forall (fun word =>
          forallb (fun c => negb (isSpace c)) (list_ascii_of_string word) = true)
       (splitRuns inRun s).
Proof.
revert inRun. induction s as [|c s IH]; intros inRun; cbn [splitRuns].
- now constructor.
- destruct (isSpace c) eqn:E.
  + destruct inRun; [apply IH | constructor; [reflexivity | apply IH]].
  + specialize (IH false). destruct (splitRuns false s) as [|w ws].
    * constructor; [|constructor]. cbn. now rewrite E.
    * inversion IH; subst. constructor; auto.
      cbn [list_ascii_of_string forallb]. now rewrite E.
Qed.

Lemma word_not_blank (ws : list string) (word : string) :
In word ws -> word <> "" ->
forallb (fun c => negb (isSpace c)) (list_ascii_of_string word) = true ->
blank ws = false.
Proof.
intros Hin Hne Hword. destruct (blank ws) eqn:E; auto.
pose proof (join_spaces ws word Hin (blank_spaces ws E)) as H.
destruct word as [|c word]; [easy|].
cbn [list_ascii_of_string forallb] in H, Hword.
destruct (isSpace c); discriminate.
Qed.

End Words.

(** ** Windows *)

Lemma windowAt_segment (words : list string) (w i : Z) :
  (0 <= i <= Z.of_nat (List.length words))%Z ->
  exists m, windowAt words w i = firstn m (skipn (Z.to_nat i) words)
            /\ (0 <= i + w -> m = Z.to_nat (Z.min (i + w) (Z.of_nat (List.length words)) - i))%Z.
Proof.
  intros Hi. unfold windowAt, Count.slice, Count.relativeIndex, JSArray.relativeIndex.
  destruct (Z.ltb_spec i 0) as [?|_]; [lia|].
  rewrite (Z.min_l i) by lia.
  eexists. split; [reflexivity|].
  intros Hw. destruct (Z.ltb_spec (i + w) 0); [lia|reflexivity].
Qed.

Lemma windowAt_nth (words : list string) (w i : Z) (j : nat) (word : string) :
  (0 <= i <= Z.of_nat j)%Z -> (Z.of_nat j < i + w)%Z ->
  nth_error words j = Some word -> In word (windowAt words w i).
Proof.
  intros Hi Hj Hnth.
  assert (j < List.length words)%nat as Hlen by (apply nth_error_Some; congruence).
  destruct (windowAt_segment words w i) as [m [-> Hm]]; [lia|].
  rewrite Hm by lia.
  apply (nth_error_In _ (j - Z.to_nat i)).
  rewrite nth_error_firstn, nth_error_skipn.
  replace (Z.to_nat i + (j - Z.to_nat i))%nat with j by lia.
  destruct (Nat.ltb_spec (j - Z.to_nat i)
              (Z.to_nat (Z.min (i + w) (Z.of_nat (List.length words)) - i))); [auto|lia].
Qed.

Lemma starts_In (n : nat) (i step : Z) (q : nat) :
  (q < n)%nat -> In (i + Z.of_nat q * step)%Z (starts n i step).
Proof.
  revert i q. induction n as [|n IH]; intros i q Hq; [lia|].
  cbn [starts]. destruct q as [|q].
  - left. lia.
  - right. replace (i + Z.of_nat (S q) * step)%Z with (i + step + Z.of_nat q * step)%Z by lia.
    apply IH. lia.
Qed.

Lemma rounds_bound (words : list string) (step : Z) (q : nat) :
  (0 < step)%Z ->
  (q < rounds words 0 step)%nat <-> (Z.of_nat q * step < Z.of_nat (List.length words))%Z.
Proof.
  intros Hs. unfold rounds. rewrite Z.sub_0_r, Z.max_l by lia.
  set (len := Z.of_nat (List.length words)).
  assert (0 <= len)%Z as Hlen by (unfold len; lia).
  assert (0 <= (len + step - 1) / step)%Z as Hpos by (apply Z.div_pos; lia).
  pose proof (Z.mul_div_le (len + step - 1) step Hs) as Hlow.
  pose proof (Z.mul_succ_div_gt (len + step - 1) step Hs) as Hhigh.
  split; intros Hq; nia.
Qed.

(** Every word with text lies in a chunk the loop keeps, when the
    windows leave no gap. *)
Lemma kept_covers (words : list string) (w o : Z) (j : nat) (word : string) :
  (0 <= o < w)%Z ->
  Forall (fun word =>
            forallb (fun c => negb (isSpace c)) (list_ascii_of_string word) = true) words ->
  nth_error words j = Some word -> word <> ""%string ->
  exists i, In i (kept words w (rounds words 0 (w - o)) 0 (w - o))
            /\ In word (windowAt words w i).
Proof.
  intros Ho Hwords Hnth Hne.
  assert (j < List.length words)%nat as Hlen by (apply nth_error_Some; congruence).
  set (step := (w - o)%Z). assert (0 < step)%Z as Hs by (unfold step; lia).
  set (q := Z.to_nat (Z.of_nat j / step)).
  assert (0 <= Z.of_nat j / step)%Z as Hq by (apply Z.div_pos; lia).
  pose proof (Z.mul_div_le (Z.of_nat j) step Hs) as Hlow.
  pose proof (Z.mul_succ_div_gt (Z.of_nat j) step Hs) as Hhigh.
  assert (In word (windowAt words w (Z.of_nat q * step))) as Hin.
  { apply (windowAt_nth words w _ j); auto; unfold q; rewrite Z2Nat.id by lia; unfold step in *; nia. }
  exists (Z.of_nat q * step)%Z. split; auto.
  unfold kept. apply filter_In. split.
  - apply (starts_In _ 0 step q). apply rounds_bound; auto.
    unfold q. rewrite Z2Nat.id by lia. nia.
  - rewrite (word_not_blank _ word); auto.
    rewrite Forall_forall in Hwords. apply Hwords. eapply nth_error_In; eauto.
Qed.

(** ** Content that is white space only *)

Section Blank.
Open Scope string_scope.







(** Content with text has a word that is not empty. *)
Lemma text_word (s : string) : forall inRun : bool,
  existsb (fun c => negb (isSpace c)) (list_ascii_of_string s) = true ->
  exists word, In word (splitRuns inRun s) /\ word <> "".
Proof.
  induction s as [|c s IH]; intros inRun; cbn [list_ascii_of_string existsb splitRuns];
    [discriminate|].
  destruct (isSpace c); cbn [negb orb].
  - intros H. destruct (IH true H) as [word [Hin Hne]].
    exists word. split; [|exact Hne]. destruct inRun; [exact Hin | now right].
  - intros _. destruct (splitRuns false s) as [|w ws].
    + exists (String c ""). split; [now left | discriminate].
    + exists (String c w). split; [now left | discriminate].
Qed.

(** Content that starts with text has a first word with text. *)
Lemma first_word (c : ascii) (rest : string) :
  isSpace c = false ->
  exists word words, splitWhitespace (String c rest) = String c word :: words.
Proof.
  intros Hc. unfold splitWhitespace. cbn [splitRuns]. rewrite Hc.
  destruct (splitRuns false rest) as [|w ws]; eauto.
Qed.
End Blank.

(** ** The loop of [chunkDocument] *)

(** Every insert of the loop is refused: the [metadata] it writes has
    three fields, and the schema declares none. *)
Lemma insertChunk_refused (row : ChunkRow.t) (chunkSize chunkOverlap : number) (s : Store.t) :
  insertChunk row (Some (metadata chunkSize chunkOverlap)) s
  = inl ["chunkingMethod"; "chunkSize"; "chunkOverlap"]%string.
Proof. reflexivity. Qed.

Section AnyStep.
Variables (now : nat -> Z) (newId : nat -> Id) (documentId : Id).
Variables (words : list string) (chunkSize chunkOverlap : number).
Variables (wordsPerChunk overlapWords : Count.t).

(** A round that finds content ends the loop with the refusal. *)
Lemma chunkLoop_first (fuel : nat) (i : Count.t) (k : nat)
  (chunks : list Created.t) (s : Store.t) :
  Count.ltb i (Whole (Z.of_nat (List.length words))) = true ->
  blank (Count.slice words i (Count.add i wordsPerChunk)) = false ->
  chunkLoop now newId documentId words chunkSize chunkOverlap wordsPerChunk overlapWords
    (S fuel) i k chunks s
  = Some (Refused ["chunkingMethod"; "chunkSize"; "chunkOverlap"]%string).
Proof.
  intros Hi Hb. cbn [chunkLoop]. rewrite Hi.
  unfold blank in Hb. rewrite Hb. now rewrite insertChunk_refused.
Qed.

(** The loop never ends with a chunk more than it started with. *)
Lemma chunkLoop_keeps (fuel : nat) :
  forall (i : Count.t) (k : nat) (chunks : list Created.t) (s : Store.t)
         (k' : nat) (chunks' : list Created.t) (s' : Store.t),
    chunkLoop now newId documentId words chunkSize chunkOverlap wordsPerChunk overlapWords
      fuel i k chunks s
    = Some (Finished k' chunks' s') ->
    k' = k /\ chunks' = chunks /\ s' = s.
Proof.
  induction fuel as [|fuel IH]; intros i k chunks s k' chunks' s'; [discriminate|].
  cbn [chunkLoop].
  destruct (Count.ltb i _).
  - destruct (Nat.eqb _ 0); [apply IH|].
    rewrite insertChunk_refused. discriminate.
  - intros H. injection H as <- <- <-. auto.
Qed.
End AnyStep.

Section Loop.
Variables (now : nat -> Z) (newId : nat -> Id) (documentId : Id).
Variables (words : list string) (chunkSize chunkOverlap : number) (w o : Z).

Let len := Z.of_nat (List.length words).
Let step := (w - o)%Z.

Lemma rounds_done (i : Z) : (0 < step)%Z -> (len <= i)%Z -> rounds words i step = 0%nat.
Proof.
  intros Hs Hi. unfold rounds. fold len.
  rewrite Z.max_r, Z.div_small by lia. reflexivity.
Qed.

Lemma rounds_next (i : Z) :
  (0 < step)%Z -> (i < len)%Z -> rounds words i step = S (rounds words (i + step) step).
Proof.
  intros Hs Hi. unfold rounds. fold len.
  rewrite (Z.max_l (len - i)) by lia.
  rewrite <- Z2Nat.inj_succ by (apply Z.div_pos; lia). f_equal.
  destruct (Z.le_gt_cases len (i + step)) as [Hout|Hin].
  - rewrite Z.max_r by lia. rewrite (Z.div_small (0 + step - 1)) by lia.
    symmetry. apply (Z.div_unique_pos _ _ 1 (len - i - 1)); lia.
  - rewrite Z.max_l by lia.
    replace (len - i + step - 1)%Z with (len - (i + step) + step - 1 + 1 * step)%Z by lia.
    rewrite Z.div_add by lia. lia.
Qed.

(** With a positive step the loop ends: with the refusal of its first
    insert when one of its starts has content, with nothing done
    otherwise. *)
Lemma chunkLoop_ends (fuel : nat) :
  (0 < step)%Z ->
  forall (i : Z) (k : nat) (chunks : list Created.t) (s : Store.t),
    (Z.to_nat (len - i) < fuel)%nat ->
    chunkLoop now newId documentId words chunkSize chunkOverlap (Whole w) (Whole o)
      fuel (Whole i) k chunks s
    = Some match kept words w (rounds words i step) i step with
           | [] => Finished k chunks s
           | _ :: _ => Refused ["chunkingMethod"; "chunkSize"; "chunkOverlap"]%string
           end.
Proof.
  intros Hs. induction fuel as [|fuel IH]; intros i k chunks s Hfuel; [lia|].
  cbn [chunkLoop Count.ltb]. fold len.
  destruct (Z.ltb_spec i len) as [Hlt|Hge].
  - rewrite (rounds_next i Hs Hlt). unfold kept. cbn [starts filter].
    cbn [Count.add Count.sub Count.opp].
    replace (i + (w + - o))%Z with (i + step)%Z by (unfold step; lia).
    fold (windowAt words w i). fold (blank (windowAt words w i)).
    destruct (blank (windowAt words w i)) eqn:Eb; cbn [negb].
    + apply IH. lia.
    + now rewrite insertChunk_refused.
  - now rewrite (rounds_done i Hs Hge).
Qed.

End Loop.

Lemma splitRuns_words (inRun : bool) (s : string) : splitRuns inRun s <> [].
Proof.
  revert inRun. induction s as [|c s IH]; intros inRun; cbn [splitRuns]; [discriminate|].
  destruct (isSpace c).
  - destruct inRun; [apply IH | discriminate].
  - destruct (splitRuns false s); discriminate.
Qed.

Lemma hasId_found {R} (idOf : R -> Id) (table : list R) (id : Id) (r : R) :
  getBy idOf table id = Some r -> hasId idOf table id = true.
Proof.
  intros H. destruct (hasId idOf table id) eqn:E; auto.
  apply StoreFacts.getBy_none in E. congruence.
Qed.

(** ** [chunkDocument] under the schema of the repository *)

(** [chunkDocument] fails at its first insert for a document whose
    content starts with text, whatever the overlap, when the chunk size
    gives at least one word: the chunk carries a [metadata] object with
    the fields [chunkingMethod], [chunkSize] and [chunkOverlap], the
    schema declares [metadata] as [v.object({})], and [ctx.db.insert]
    throws.  The mutation stores nothing. *)
Theorem chunkDocument_first_insert_is_refused (now : nat -> Z) (newId : nat -> Id)
  (args : Args.t) (s : Store.t) (document : DocumentRow.t) (c : ascii) (rest : string)
  (w : Z) :
  getBy DocumentRow._id (documents s) (Args.documentId args) = Some document ->
  DocumentRow.content document = Some (String c rest) ->
  isSpace c = false ->
  Count.floor (orDefault (Args.chunkSize args) CHUNK_SIZE * WORDS_PER_TOKEN) = Whole w ->
  (1 <= w)%Z ->
  forall fuel : nat,
    chunkDocument (S fuel) now newId args s
    = SchemaMismatch ["chunkingMethod"; "chunkSize"; "chunkOverlap"]%string.
Proof.
  intros Hget Hcontent Hc Hw Hpos fuel. unfold chunkDocument.
  rewrite Hget, Hcontent, Hw.
  destruct (first_word c rest Hc) as [word [words Hwords]].
  pose proof (splitRuns_no_space false (String c rest)) as Hclean.
  unfold splitWhitespace in *. rewrite Hwords in *.
  rewrite chunkLoop_first; [reflexivity | |].
  - cbn [Count.ltb List.length]. apply Z.ltb_lt. lia.
  - cbn [Count.add]. change (Whole (0 + w)) with (Whole (0 + w)%Z).
    apply (word_not_blank _ (String c word)).
    + apply (windowAt_nth (String c word :: words) w 0 0); [lia | lia | reflexivity].
    + discriminate.
    + now inversion Hclean.
Qed.

Lemma chunkDocument_first_insert_is_refused_witness :
  chunkDocument 1 Cases.clock Cases.allotted
    {| Args.documentId := "d1"%string; Args.chunkSize := Some 128%float;
       Args.chunkOverlap := None |}
    Cases.shelf
  = SchemaMismatch ["chunkingMethod"; "chunkSize"; "chunkOverlap"]%string.
Proof.
  apply (chunkDocument_first_insert_is_refused Cases.clock Cases.allotted
           {| Args.documentId := "d1"%string; Args.chunkSize := Some 128%float;
              Args.chunkOverlap := None |}
           Cases.shelf
           (Cases.paper "d1"%string "a b c d e"%string) "a"%char " b c d e"%string 96).
  - reflexivity.
  - reflexivity.
  - reflexivity.
  - vm_compute. reflexivity.
  - lia.
Defined.



(** With an overlap that is not negative and gives fewer words than
    the chunk size, [chunkDocument] cannot chunk a document that has any
    text: the loop reaches a chunk with content, the insert of that chunk
    is refused by the schema, and the call throws.  It neither stores a
    chunk nor sets the document to "processing". *)
Theorem chunkDocument_refuses_text (now : nat -> Z) (newId : nat -> Id)
  (args : Args.t) (s : Store.t) (document : DocumentRow.t) (c : ascii) (rest : string)
  (w o : Z) (fuel : nat) :
  getBy DocumentRow._id (documents s) (Args.documentId args) = Some document ->
  DocumentRow.content document = Some (String c rest) ->
  existsb (fun c => negb (isSpace c)) (list_ascii_of_string (String c rest)) = true ->
  Count.floor (orDefault (Args.chunkSize args) CHUNK_SIZE * WORDS_PER_TOKEN) = Whole w ->
  Count.floor (orDefault (Args.chunkOverlap args) CHUNK_OVERLAP * WORDS_PER_TOKEN) = Whole o ->
  (0 <= o < w)%Z ->
  (List.length (splitWhitespace (String c rest)) < fuel)%nat ->
  chunkDocument fuel now newId args s
  = SchemaMismatch ["chunkingMethod"; "chunkSize"; "chunkOverlap"]%string.
Proof.
  intros Hget Hcontent Htext Hw Ho Hlt Hfuel. unfold chunkDocument.
  rewrite Hget, Hcontent, Hw, Ho.
  destruct (text_word (String c rest) false Htext) as [word [Hin Hne]].
  pose proof (splitRuns_no_space false (String c rest)) as Hclean.
  unfold splitWhitespace in *.
  generalize dependent (splitRuns false (String c rest)). intros words Hfuel Hin Hclean.
  rewrite chunkLoop_ends by lia.
  destruct (In_nth_error _ _ Hin) as [j Hj].
  destruct (kept_covers words w o j word Hlt Hclean Hj Hne) as [i [Hi _]].
  destruct (kept words w (rounds words 0 (w - o)) 0 (w - o)); [contradiction|reflexivity].
Qed.

Lemma chunkDocument_refuses_text_witness :
  chunkDocument 10 Cases.clock Cases.allotted
    {| Args.documentId := "d1"%string; Args.chunkSize := Some 4%float;
       Args.chunkOverlap := Some 2%float |}
    Cases.shelf
  = SchemaMismatch ["chunkingMethod"; "chunkSize"; "chunkOverlap"]%string.
Proof.
  apply (chunkDocument_refuses_text Cases.clock Cases.allotted
           {| Args.documentId := "d1"%string; Args.chunkSize := Some 4%float;
              Args.chunkOverlap := Some 2%float |}
           Cases.shelf
           (Cases.paper "d1"%string "a b c d e"%string) "a"%char " b c d e"%string 3 1 10).
  - reflexivity.
  - reflexivity.
  - reflexivity.
  - vm_compute. reflexivity.
  - vm_compute. reflexivity.
  - lia.
  - vm_compute. lia.
Defined.

(** [chunkDocument] never stores a chunk: whatever its arguments
    and the tables, when it returns it has created no chunk, the tables
    of chunks, embeddings and memories are as they were, and no document
    was added or removed. *)
Theorem chunkDocument_stores_no_chunk (fuel : nat) (now : nat -> Z) (newId : nat -> Id)
  (args : Args.t) (s : Store.t) (r : Result.t) (s' : Store.t) :
  chunkDocument fuel now newId args s = Returned r s' ->
  Result.chunksCreated r = 0%nat
  /\ Result.chunks r = []
  /\ Store.chunks s' = Store.chunks s
  /\ chunkEmbeddings s' = chunkEmbeddings s
  /\ vectorMemories s' = vectorMemories s
  /\ map DocumentRow._id (documents s') = map DocumentRow._id (documents s).
Proof.
  unfold chunkDocument.
  destruct (getBy DocumentRow._id (documents s) (Args.documentId args)) as [document|] eqn:Hget;
    [|discriminate].
  destruct (DocumentRow.content document) as [[|c rest]|]; try discriminate.
  destruct (chunkLoop _ _ _ _ _ _ _ _ fuel (Whole 0) 0 [] s) as [[k chunks s1|fields]|] eqn:E;
    try discriminate.
  apply chunkLoop_keeps in E. destruct E as (-> & -> & ->).
  rewrite (patchBy_ok _ _ _ _ (hasId_found _ _ _ _ Hget)).
  intros H. injection H as <- <-.
  cbn [Result.chunksCreated Result.chunks List.length Store.chunks chunkEmbeddings
       vectorMemories documents withDocuments].
  repeat split. apply patched_ids. reflexivity.
Qed.

Lemma chunkDocument_stores_no_chunk_witness :
  exists (r : Result.t) (s' : Store.t),
    chunkDocument 3 Cases.clock Cases.allotted
      {| Args.documentId := "d3"%string; Args.chunkSize := None; Args.chunkOverlap := None |}
      Cases.margin
    = Returned r s'
    /\ Result.chunksCreated r = 0%nat
    /\ Store.chunks s' = Store.chunks Cases.margin.
Proof.
  destruct (chunkDocument 3 Cases.clock Cases.allotted
              {| Args.documentId := "d3"%string; Args.chunkSize := None;
                 Args.chunkOverlap := None |}
              Cases.margin) as [r s'| | | |] eqn:E; try (vm_compute in E; discriminate).
  exists r, s'. split; [reflexivity|].
  destruct (chunkDocument_stores_no_chunk _ _ _ _ _ _ _ E) as (H1 & _ & H3 & _).
  split; [exact H1 | exact H3].
Defined.

End ChunkingFacts.
